(** * TrustChain: proof issuance, verification and history reconstruction

    A shallow embedding of the backend of the TrustChain demo
    (backend/algorand.js and backend/routes.js) together with the
    properties of its note codec, its two request handlers and its
    history reconstruction.

    Conventions of the embedding.
    - A JavaScript string is the list of its UTF-16 code units ([jsstring]).
    - A byte buffer is a [list Byte.byte].
    - [null] and [undefined] of an optional field are [None].
    - Truthiness is written out: the empty string, the number 0 and
      null/undefined are falsy. *)

From Stdlib Require Import ZArith NArith List Bool Lia.
From Stdlib Require Import Strings.String Strings.Ascii Strings.Byte.
From Stdlib Require Import Numbers.DecimalString.
From Stdlib Require Import Sorting.Sorted Sorting.Permutation.
From stdpp Require Import base option list gmap.

Local Open Scope Z_scope.
Local Open Scope list_scope.

(** [lia] is to reason about the quotients and remainders of the byte
    arithmetic. *)
Ltac Zify.zify_post_hook ::= Z.to_euclidean_division_equations.

(** ** JavaScript strings *)

Definition jsstring := list N.

(** Code units of an ASCII literal of the source text. *)
Definition str (s : string) : jsstring :=
  List.map N_of_ascii (list_ascii_of_string s).

(** [s === t] on strings. *)
Definition str_eqb (s t : jsstring) : bool := bool_decide (s = t).

(** Truthiness of a string-or-null, and of a number-or-null. *)
Definition truthy_str (o : option jsstring) : bool :=
  match o with
  | Some (_ :: _) => true
  | _ => false
  end.

Definition truthy_num (o : option Z) : bool :=
  match o with
  | Some z => negb (z =? 0)
  | None => false
  end.

(** [x || d] where [x] is a string-or-null and [d] a string. *)
Definition str_or (o : option jsstring) (d : jsstring) : jsstring :=
  match o with
  | Some (c :: s) => c :: s
  | _ => d
  end.

(** [x || null]. *)
Definition str_or_null (o : option jsstring) : option jsstring :=
  if truthy_str o then o else None.

Definition num_or_null (o : option Z) : option Z :=
  if truthy_num o then o else None.

(** [x || 0]. *)
Definition num_or_zero (o : option Z) : Z :=
  match o with
  | Some z => z
  | None => 0
  end.

(** ** Array.prototype.sort

    The engine's sort is stable and is called with a comparator
    [cmp a b] whose sign says whether [a] goes after [b].  Insertion
    from the right is the stable sort written out: an element is put in
    front of the first element it does not have to follow. *)

Section Sort.
Context {A : Type} (cmp : A -> A -> Z).

Fixpoint sort_insert (x : A) (l : list A) : list A :=
  match l with
  | [] => [x]
  | y :: l' => if cmp x y <=? 0 then x :: y :: l' else y :: sort_insert x l'
  end.

Fixpoint array_sort (l : list A) : list A :=
  match l with
  | [] => []
  | x :: l' => sort_insert x (array_sort l')
  end.
End Sort.

(** The comparator [(a, b) => key(b) - key(a)], and the order it asks
    for: keys never increase along the array. *)
Definition desc_by {A : Type} (key : A -> Z) (a b : A) : Z := key b - key a.

Definition desc {A : Type} (key : A -> Z) (a b : A) : Prop := key b <= key a.

(** ** History reconstruction (routes.js) *)

Module History.

(** The parsed note of a listed transaction, as far as
    [deriveProofsFromTransactions] reads it. *)
Record Note := {
  note_fileName : option jsstring;
  note_referenceLabel : option jsstring;
  note_mimeType : option jsstring;
  note_fileSize : option Z;
}.

(** One element of the array returned by
    [fetchIssuerTransactionHistory].  The fields are given the types
    that the notes of the backend give them: [hash] and [noteType] are
    strings or null, the rounds and the asset id numbers or null. *)
Record Transaction := {
  id : jsstring;
  txType : option jsstring;
  roundTime : option Z;
  confirmedRound : option Z;
  hash : option jsstring;
  noteType : option jsstring;
  note : option Note;
  assetId : option Z;
}.

(** One element of the array returned by
    [deriveProofsFromTransactions].  [p_issuedAt] is the instant
    [roundTime * 1000] (milliseconds) that the source renders with
    [toISOString]. *)
Record ProofRecord := {
  p_id : jsstring;
  p_fileName : jsstring;
  p_referenceLabel : option jsstring;
  p_mimeType : option jsstring;
  p_fileSize : option Z;
  p_hash : option jsstring;
  p_transactionId : jsstring;
  p_transactionRound : option Z;
  p_assetId : option Z;
  p_issuedAt : option Z;
}.

Definition noteType_is (k : string) (t : Transaction) : bool :=
  match noteType t with
  | Some s => str_eqb s (str k)
  | None => false
  end.

(** The guard of the first loop:
    [noteType === "asa" && hash && assetId]. *)
Definition is_asset_entry (t : Transaction) : bool :=
  noteType_is "asa" t && truthy_str (hash t) && truthy_num (assetId t).

(** The predicate of the filter: [noteType === "proof" && hash]. *)
Definition is_proof_entry (t : Transaction) : bool :=
  noteType_is "proof" t && truthy_str (hash t).

(** One iteration of the loop over [transactions]:
    [assetByHash.set(transaction.hash, transaction.assetId)]. *)
Definition record_asset (m : gmap jsstring Z) (t : Transaction)
  : gmap jsstring Z :=
  if is_asset_entry t then
    match hash t, assetId t with
    | Some h, Some a => <[h := a]> m
    | _, _ => m
    end
  else m.

Definition assetByHash (transactions : list Transaction) : gmap jsstring Z :=
  fold_left record_asset transactions ∅.

(** [assetByHash.get(transaction.hash) || null]. *)
Definition asset_lookup (m : gmap jsstring Z) (h : option jsstring)
  : option Z :=
  match h with
  | Some k => num_or_null (m !! k)
  | None => None
  end.

Definition empty_note : Note :=
  {| note_fileName := None; note_referenceLabel := None;
     note_mimeType := None; note_fileSize := None |}.

(** The callback of [.map]. *)
Definition to_record (m : gmap jsstring Z) (t : Transaction) : ProofRecord :=
  let n := default empty_note (note t) in
  {| p_id := id t;
     p_fileName := str_or (note_fileName n) (str "Untitled file");
     p_referenceLabel := str_or_null (note_referenceLabel n);
     p_mimeType := str_or_null (note_mimeType n);
     p_fileSize := num_or_null (note_fileSize n);
     p_hash := hash t;
     p_transactionId := id t;
     p_transactionRound := confirmedRound t;
     p_assetId := asset_lookup m (hash t);
     p_issuedAt :=
       if truthy_num (roundTime t)
       then option_map (fun s => s * 1000) (roundTime t)
       else None |}.

(** The comparator of [.sort]. *)
Definition by_round_desc (a b : ProofRecord) : Z :=
  num_or_zero (p_transactionRound b) - num_or_zero (p_transactionRound a).

(** A window to try the reconstruction on: two asset transactions and
    two markers for one fingerprint, and a marker without asset. *)
Definition sample_entry (i : string) (kind : string) (h : string)
  (round : Z) (asset : option Z) : Transaction :=
  {| id := str i; txType := None; roundTime := None;
     confirmedRound := Some round; hash := Some (str h);
     noteType := Some (str kind); note := None; assetId := asset |}.

Definition sample_window : list Transaction :=
  [ sample_entry "T1" "asa" "aa" 10 (Some 7);
    sample_entry "T2" "proof" "aa" 9 None;
    sample_entry "T3" "asa" "aa" 12 (Some 8);
    sample_entry "T4" "proof" "bb" 9 None;
    sample_entry "T5" "proof" "aa" 11 None ].

(** The sort key of a record: [transactionRound || 0]. *)
Definition round_key (r : ProofRecord) : Z := num_or_zero (p_transactionRound r).

(** The records before [.sort]: the proof entries in the order of the
    window. *)
Definition mapped_proofs (transactions : list Transaction)
  : list ProofRecord :=
  List.map (to_record (assetByHash transactions))
    (List.filter is_proof_entry transactions).

Definition deriveProofsFromTransactions (transactions : list Transaction)
  : list ProofRecord :=
  array_sort by_round_desc (mapped_proofs transactions).

End History.

(** ** Byte buffers and UTF-8

    [Buffer.from(s, "utf8")] and [buf.toString("utf8")].  Encoding
    replaces a lone surrogate by U+FFFD; decoding never fails: every
    maximal ill-formed byte sequence becomes one U+FFFD. *)

Definition byte_of_N (n : N) : byte := default x00 (Byte.of_N n).

Definition in_range (lo hi x : N) : bool := ((lo <=? x) && (x <=? hi))%N.

Definition is_high_surrogate : N -> bool := in_range 0xD800 0xDBFF.
Definition is_low_surrogate : N -> bool := in_range 0xDC00 0xDFFF.

Definition REPLACEMENT : N := 0xFFFD%N.

Definition utf8_of_code_point (c : N) : list byte :=
  (if c <? 0x80 then [byte_of_N c]
   else if c <? 0x800 then
     [byte_of_N (0xC0 + c / 64); byte_of_N (0x80 + c mod 64)]
   else if c <? 0x10000 then
     [byte_of_N (0xE0 + c / 4096); byte_of_N (0x80 + (c / 64) mod 64);
      byte_of_N (0x80 + c mod 64)]
   else
     [byte_of_N (0xF0 + c / 262144); byte_of_N (0x80 + (c / 4096) mod 64);
      byte_of_N (0x80 + (c / 64) mod 64); byte_of_N (0x80 + c mod 64)])%N.

Fixpoint utf8_encode (s : jsstring) : list byte :=
  match s with
  | [] => []
  | u :: r =>
    if is_high_surrogate u then
      match r with
      | v :: r' =>
        if is_low_surrogate v
        then utf8_of_code_point
               (0x10000 + (u - 0xD800) * 1024 + (v - 0xDC00))%N
             ++ utf8_encode r'
        else utf8_of_code_point REPLACEMENT ++ utf8_encode r
      | [] => utf8_of_code_point REPLACEMENT
      end
    else if is_low_surrogate u
    then utf8_of_code_point REPLACEMENT ++ utf8_encode r
    else utf8_of_code_point u ++ utf8_encode r
  end.

Definition is_continuation (b : byte) : bool :=
  in_range 0x80 0xBF (Byte.to_N b).

Definition units_of_code_point (c : N) : jsstring :=
  (if c <? 0x10000 then [c]
   else [0xD800 + (c - 0x10000) / 1024; 0xDC00 + (c - 0x10000) mod 1024])%N.

Fixpoint utf8_decode (bs : list byte) : jsstring :=
  match bs with
  | [] => []
  | b :: r =>
    let b0 := Byte.to_N b in
    if (b0 <? 0x80)%N then b0 :: utf8_decode r
    else if in_range 0xC2 0xDF b0 then
      match r with
      | [] => [REPLACEMENT]
      | b1 :: r1 =>
        if is_continuation b1
        then ((b0 - 0xC0) * 64 + (Byte.to_N b1 - 0x80))%N :: utf8_decode r1
        else REPLACEMENT :: utf8_decode r
      end
    else if in_range 0xE0 0xEF b0 then
      match r with
      | [] => [REPLACEMENT]
      | b1 :: r1 =>
        if in_range (if (b0 =? 0xE0)%N then 0xA0 else 0x80)
                    (if (b0 =? 0xED)%N then 0x9F else 0xBF) (Byte.to_N b1)
        then
          match r1 with
          | [] => [REPLACEMENT]
          | b2 :: r2 =>
            if is_continuation b2
            then ((b0 - 0xE0) * 4096 + (Byte.to_N b1 - 0x80) * 64
                  + (Byte.to_N b2 - 0x80))%N :: utf8_decode r2
            else REPLACEMENT :: utf8_decode r1
          end
        else REPLACEMENT :: utf8_decode r
      end
    else if in_range 0xF0 0xF4 b0 then
      match r with
      | [] => [REPLACEMENT]
      | b1 :: r1 =>
        if in_range (if (b0 =? 0xF0)%N then 0x90 else 0x80)
                    (if (b0 =? 0xF4)%N then 0x8F else 0xBF) (Byte.to_N b1)
        then
          match r1 with
          | [] => [REPLACEMENT]
          | b2 :: r2 =>
            if is_continuation b2 then
              match r2 with
              | [] => [REPLACEMENT]
              | b3 :: r3 =>
                if is_continuation b3
                then units_of_code_point
                       ((b0 - 0xF0) * 262144 + (Byte.to_N b1 - 0x80) * 4096
                        + (Byte.to_N b2 - 0x80) * 64
                        + (Byte.to_N b3 - 0x80))%N
                     ++ utf8_decode r3
                else REPLACEMENT :: utf8_decode r2
              end
            else REPLACEMENT :: utf8_decode r1
          end
        else REPLACEMENT :: utf8_decode r
      end
    else REPLACEMENT :: utf8_decode r
  end.

(** [digest("hex")]: two lower-case hexadecimal digits per byte. *)
Definition hex_digit (n : N) : N :=
  (if n <? 10 then 48 + n else 87 + n)%N.

Definition hex_of_byte (b : byte) : jsstring :=
  [hex_digit (Byte.to_N b / 16); hex_digit (Byte.to_N b mod 16)].

Definition hex_of_bytes (bs : list byte) : jsstring :=
  List.concat (List.map hex_of_byte bs).

(** ** JSON values

    A number is kept as the literal that denotes it: nothing in the
    backend computes with a number read from a note.  An object is its
    list of properties in the order of their definition (the engine
    lists a property whose name is an array index before the others;
    no property of a note has such a name); [JSON.parse] keeps a
    repeated key as it stands in the text, and a read returns the last
    one. *)

#[local] Set Warnings "-register-all".

Inductive jsval :=
| JUndefined
| JNull
| JBool (b : bool)
| JNum (lit : jsstring)
| JStr (s : jsstring)
| JArr (items : list jsval)
| JObj (props : list (jsstring * jsval)).

(** [o[k]]: the value of the last property named [k], or undefined. *)
Fixpoint prop_last (k : jsstring) (props : list (jsstring * jsval))
  : option jsval :=
  match props with
  | [] => None
  | (k', v) :: ps =>
    match prop_last k ps with
    | Some w => Some w
    | None => if str_eqb k k' then Some v else None
    end
  end.

Definition get_prop (v : jsval) (k : string) : jsval :=
  match v with
  | JObj props => default JUndefined (prop_last (str k) props)
  | _ => JUndefined
  end.

(** [{ ...o, k: v }]: a property keeps its place when it is redefined. *)
Fixpoint obj_set (k : jsstring) (v : jsval) (props : list (jsstring * jsval))
  : list (jsstring * jsval) :=
  match props with
  | [] => [(k, v)]
  | (k', v') :: ps =>
    if str_eqb k k' then (k, v) :: ps else (k', v') :: obj_set k v ps
  end.

Definition obj_spread (base extra : list (jsstring * jsval))
  : list (jsstring * jsval) :=
  fold_left (fun o kv => obj_set (fst kv) (snd kv) o) extra base.

(** ** JSON.parse: tokens *)

Inductive token :=
| TLBrace | TRBrace | TLBracket | TRBracket | TComma | TColon
| TTrue | TFalse | TNull
| TString (s : jsstring)
| TNumber (lit : jsstring).

Definition is_json_ws (c : N) : bool :=
  ((c =? 0x20) || (c =? 0x09) || (c =? 0x0A) || (c =? 0x0D))%N.

Definition is_digit (c : N) : bool := in_range 48 57 c.

Definition is_hex_digit (c : N) : bool :=
  in_range 48 57 c || in_range 97 102 c || in_range 65 70 c.

Definition hex_value (c : N) : N :=
  (if in_range 48 57 c then c - 48
   else if in_range 97 102 c then c - 87
   else c - 55)%N.

(** Where the scanner stands inside a number literal. *)
Inductive num_state :=
| NMinus | NZero | NInt | NDot | NFrac | NExp | NExpSign | NExpDigits.

Definition num_step (st : num_state) (c : N) : option num_state :=
  match st with
  | NMinus =>
    if (c =? 48)%N then Some NZero
    else if is_digit c then Some NInt else None
  | NZero =>
    if (c =? 46)%N then Some NDot
    else if (c =? 101)%N || (c =? 69)%N then Some NExp else None
  | NInt =>
    if is_digit c then Some NInt
    else if (c =? 46)%N then Some NDot
    else if (c =? 101)%N || (c =? 69)%N then Some NExp else None
  | NDot => if is_digit c then Some NFrac else None
  | NFrac =>
    if is_digit c then Some NFrac
    else if (c =? 101)%N || (c =? 69)%N then Some NExp else None
  | NExp =>
    if (c =? 43)%N || (c =? 45)%N then Some NExpSign
    else if is_digit c then Some NExpDigits else None
  | NExpSign => if is_digit c then Some NExpDigits else None
  | NExpDigits => if is_digit c then Some NExpDigits else None
  end.

Definition num_final (st : num_state) : bool :=
  match st with
  | NZero | NInt | NFrac | NExpDigits => true
  | _ => false
  end.

(** The only characters that may follow a number literal in a JSON
    text, with the token each of them is; any other character after a
    number is a syntax error whatever comes next. *)
Definition after_number (c : N) : option (list token) :=
  if is_json_ws c then Some []
  else if (c =? 44)%N then Some [TComma]
  else if (c =? 93)%N then Some [TRBracket]
  else if (c =? 125)%N then Some [TRBrace]
  else None.

Definition simple_escape (c : N) : option N :=
  (if c =? 34 then Some 34
   else if c =? 92 then Some 92
   else if c =? 47 then Some 47
   else if c =? 98 then Some 8
   else if c =? 102 then Some 12
   else if c =? 110 then Some 10
   else if c =? 114 then Some 13
   else if c =? 116 then Some 9
   else None)%N.

Definition cons_token (t : token) (o : option (list token))
  : option (list token) :=
  option_map (cons t) o.

(** The scanner; [None] is a SyntaxError.  [lex_string acc] runs inside
    a string literal whose code units so far are [acc] reversed;
    [lex_number st acc] runs inside a number literal. *)
Fixpoint lex (s : jsstring) : option (list token) :=
  match s with
  | [] => Some []
  | c :: r =>
    if is_json_ws c then lex r
    else if (c =? 123)%N then cons_token TLBrace (lex r)
    else if (c =? 125)%N then cons_token TRBrace (lex r)
    else if (c =? 91)%N then cons_token TLBracket (lex r)
    else if (c =? 93)%N then cons_token TRBracket (lex r)
    else if (c =? 44)%N then cons_token TComma (lex r)
    else if (c =? 58)%N then cons_token TColon (lex r)
    else if (c =? 34)%N then lex_string [] r
    else if (c =? 45)%N then lex_number NMinus [c] r
    else if (c =? 48)%N then lex_number NZero [c] r
    else if is_digit c then lex_number NInt [c] r
    else if (c =? 116)%N then
      match r with
      | 114%N :: 117%N :: 101%N :: r' => cons_token TTrue (lex r')
      | _ => None
      end
    else if (c =? 102)%N then
      match r with
      | 97%N :: 108%N :: 115%N :: 101%N :: r' => cons_token TFalse (lex r')
      | _ => None
      end
    else if (c =? 110)%N then
      match r with
      | 117%N :: 108%N :: 108%N :: r' => cons_token TNull (lex r')
      | _ => None
      end
    else None
  end
with lex_string (acc : jsstring) (s : jsstring) : option (list token) :=
  match s with
  | [] => None
  | c :: r =>
    if (c =? 34)%N then cons_token (TString (rev acc)) (lex r)
    else if (c =? 92)%N then
      match r with
      | [] => None
      | e :: r' =>
        if (e =? 117)%N then
          match r' with
          | h1 :: h2 :: h3 :: h4 :: r'' =>
            if is_hex_digit h1 && is_hex_digit h2
               && is_hex_digit h3 && is_hex_digit h4
            then lex_string
                   ((hex_value h1 * 4096 + hex_value h2 * 256
                     + hex_value h3 * 16 + hex_value h4)%N :: acc) r''
            else None
          | _ => None
          end
        else
          match simple_escape e with
          | Some u => lex_string (u :: acc) r'
          | None => None
          end
      end
    else if (c <? 0x20)%N then None
    else lex_string (c :: acc) r
  end
with lex_number (st : num_state) (acc : jsstring) (s : jsstring)
  : option (list token) :=
  match s with
  | [] => if num_final st then Some [TNumber (rev acc)] else None
  | c :: r =>
    match num_step st c with
    | Some st' => lex_number st' (c :: acc) r
    | None =>
      if num_final st then
        match after_number c with
        | Some ts =>
          option_map (fun rest => TNumber (rev acc) :: ts ++ rest) (lex r)
        | None => None
        end
      else None
    end
  end.

(** ** JSON.parse: the grammar

    The parser keeps the open arrays and objects on a stack and reads
    one token at a time. *)

Inductive frame :=
| FArr (done : list jsval)
| FObj (done : list (jsstring * jsval)) (key : jsstring).

Inductive pstate :=
| SValue (stk : list frame)
| SArrStart (stk : list frame)
| SArrAfter (done : list jsval) (stk : list frame)
| SObjStart (stk : list frame)
| SObjKey (done : list (jsstring * jsval)) (stk : list frame)
| SColon (done : list (jsstring * jsval)) (key : jsstring) (stk : list frame)
| SObjAfter (done : list (jsstring * jsval)) (stk : list frame)
| SDone (v : jsval).

(** A value is complete: it is the result, or it goes into the
    innermost open array or object. *)
Definition push_value (v : jsval) (stk : list frame) : pstate :=
  match stk with
  | [] => SDone v
  | FArr done :: stk' => SArrAfter (v :: done) stk'
  | FObj done k :: stk' => SObjAfter ((k, v) :: done) stk'
  end.

Definition start_value (t : token) (stk : list frame) : option pstate :=
  match t with
  | TLBracket => Some (SArrStart stk)
  | TLBrace => Some (SObjStart stk)
  | TTrue => Some (push_value (JBool true) stk)
  | TFalse => Some (push_value (JBool false) stk)
  | TNull => Some (push_value JNull stk)
  | TString s => Some (push_value (JStr s) stk)
  | TNumber lit => Some (push_value (JNum lit) stk)
  | _ => None
  end.

Definition parse_step (st : pstate) (t : token) : option pstate :=
  match st with
  | SValue stk => start_value t stk
  | SArrStart stk =>
    match t with
    | TRBracket => Some (push_value (JArr []) stk)
    | _ => start_value t (FArr [] :: stk)
    end
  | SArrAfter done stk =>
    match t with
    | TComma => Some (SValue (FArr done :: stk))
    | TRBracket => Some (push_value (JArr (rev done)) stk)
    | _ => None
    end
  | SObjStart stk =>
    match t with
    | TRBrace => Some (push_value (JObj []) stk)
    | TString k => Some (SColon [] k stk)
    | _ => None
    end
  | SObjKey done stk =>
    match t with
    | TString k => Some (SColon done k stk)
    | _ => None
    end
  | SColon done k stk =>
    match t with
    | TColon => Some (SValue (FObj done k :: stk))
    | _ => None
    end
  | SObjAfter done stk =>
    match t with
    | TComma => Some (SObjKey done stk)
    | TRBrace => Some (push_value (JObj (rev done)) stk)
    | _ => None
    end
  | SDone _ => None
  end.

Fixpoint parse_run (st : pstate) (ts : list token) : option pstate :=
  match ts with
  | [] => Some st
  | t :: ts' =>
    match parse_step st t with
    | Some st' => parse_run st' ts'
    | None => None
    end
  end.

(** What a call can do: return, or throw an error with its message
    ([None] when the thrown value has no string [message]). *)
Record Error := { message : option jsstring }.

Inductive exc (A : Type) :=
| Ok (a : A)
| Throw (e : Error).
Arguments Ok {A} a.
Arguments Throw {A} e.

Definition SyntaxError : Error :=
  {| message := Some (str "Unexpected token in JSON") |}.

Definition JSON_parse (text : jsstring) : exc jsval :=
  match lex text with
  | Some ts =>
    match parse_run (SValue []) ts with
    | Some (SDone v) => Ok v
    | _ => Throw SyntaxError
    end
  | None => Throw SyntaxError
  end.

(** ** JSON.stringify *)

Definition unicode_escape (u : N) : jsstring :=
  [92; 117; hex_digit (u / 4096); hex_digit ((u / 256) mod 16);
   hex_digit ((u / 16) mod 16); hex_digit (u mod 16)]%N.

Definition escape_unit (u : N) : jsstring :=
  (if u =? 8 then [92; 98]
   else if u =? 9 then [92; 116]
   else if u =? 10 then [92; 110]
   else if u =? 12 then [92; 102]
   else if u =? 13 then [92; 114]
   else if u =? 34 then [92; 34]
   else if u =? 92 then [92; 92]
   else if u <? 0x20 then unicode_escape u
   else [u])%N.

Fixpoint quote_body (s : jsstring) : jsstring :=
  match s with
  | [] => []
  | u :: r =>
    if is_high_surrogate u then
      match r with
      | v :: r' =>
        if is_low_surrogate v then u :: v :: quote_body r'
        else unicode_escape u ++ quote_body r
      | [] => unicode_escape u
      end
    else if is_low_surrogate u then unicode_escape u ++ quote_body r
    else escape_unit u ++ quote_body r
  end.

Definition quote (s : jsstring) : jsstring :=
  34%N :: quote_body s ++ [34%N].

Fixpoint join_comma (parts : list jsstring) : jsstring :=
  match parts with
  | [] => []
  | [p] => p
  | p :: ps => p ++ 44%N :: join_comma ps
  end.

(** [None] is the result undefined.  An undefined array element is
    written null, an undefined property is left out. *)
Fixpoint stringify (v : jsval) : option jsstring :=
  match v with
  | JUndefined => None
  | JNull => Some (str "null")
  | JBool true => Some (str "true")
  | JBool false => Some (str "false")
  | JNum lit => Some lit
  | JStr s => Some (quote s)
  | JArr items =>
    Some (91%N :: join_comma
                    (List.map (fun x => default (str "null") (stringify x))
                       items)
          ++ [93%N])
  | JObj props =>
    Some (123%N :: join_comma
                     (List.flat_map
                        (fun kv => match stringify (snd kv) with
                                   | Some t => [quote (fst kv) ++ 58%N :: t]
                                   | None => []
                                   end) props)
          ++ [125%N])
  end.

(** [JSON.stringify(o)] for an object [o]. *)
Definition JSON_stringify (v : jsval) : jsstring :=
  default [] (stringify v).

(** ** String methods and regular expressions of the source *)

Definition is_js_space (u : N) : bool :=
  in_range 9 13 u || (u =? 0x20)%N || (u =? 0xA0)%N || (u =? 0x1680)%N
  || in_range 0x2000 0x200A u || (u =? 0x2028)%N || (u =? 0x2029)%N
  || (u =? 0x202F)%N || (u =? 0x205F)%N || (u =? 0x3000)%N || (u =? 0xFEFF)%N.

Fixpoint trim_start (s : jsstring) : jsstring :=
  match s with
  | [] => []
  | u :: r => if is_js_space u then trim_start r else s
  end.

(** [s.trim()]. *)
Definition trim (s : jsstring) : jsstring :=
  rev (trim_start (rev (trim_start s))).

Fixpoint starts_with (p s : jsstring) : bool :=
  match p, s with
  | [], _ => true
  | a :: p', b :: s' => (a =? b)%N && starts_with p' s'
  | _ :: _, [] => false
  end.

(** [s.includes(p)]. *)
Fixpoint includes (p s : jsstring) : bool :=
  starts_with p s ||
  match s with
  | [] => false
  | _ :: s' => includes p s'
  end.

Definition ascii_lower (u : N) : N :=
  if in_range 65 90 u then (u + 32)%N else u.

Definition ascii_upper (u : N) : N :=
  if in_range 97 122 u then (u - 32)%N else u.

(** [/^[A-Z2-7]{52}$/.test(s)]. *)
Definition is_base32_char (u : N) : bool :=
  in_range 65 90 u || in_range 50 55 u.

Definition is_transaction_id (s : jsstring) : bool :=
  (length s =? 52)%nat && forallb is_base32_char s.

(** [s.match(/[a-f0-9]{64}/i)]: the leftmost run of 64 hexadecimal
    digits, in either case; [None] when there is none. *)
Definition hex64_prefix (s : jsstring) : option jsstring :=
  let p := firstn 64 s in
  if (length p =? 64)%nat && forallb is_hex_digit p then Some p else None.

Fixpoint match_hex64 (s : jsstring) : option jsstring :=
  match hex64_prefix s with
  | Some m => Some m
  | None =>
    match s with
    | [] => None
    | _ :: s' => match_hex64 s'
    end
  end.

(** ** SHA-256 (FIPS 180-4)

    [crypto.createHash("sha256")], on 32-bit words kept as [N]. *)

Local Open Scope N_scope.

Definition w32 (x : N) : N := x mod 4294967296.

Definition rotr (n x : N) : N :=
  N.lor (N.shiftr x n) (w32 (N.shiftl x (32 - n))).

Definition sha_ch (x y z : N) : N :=
  N.lxor (N.land x y) (N.land (N.lxor x 4294967295) z).

Definition sha_maj (x y z : N) : N :=
  N.lxor (N.lxor (N.land x y) (N.land x z)) (N.land y z).

Definition big_sigma0 (x : N) : N :=
  N.lxor (N.lxor (rotr 2 x) (rotr 13 x)) (rotr 22 x).

Definition big_sigma1 (x : N) : N :=
  N.lxor (N.lxor (rotr 6 x) (rotr 11 x)) (rotr 25 x).

Definition small_sigma0 (x : N) : N :=
  N.lxor (N.lxor (rotr 7 x) (rotr 18 x)) (N.shiftr x 3).

Definition small_sigma1 (x : N) : N :=
  N.lxor (N.lxor (rotr 17 x) (rotr 19 x)) (N.shiftr x 10).

Definition sha_K : list N :=
  [1116352408; 1899447441; 3049323471; 3921009573; 961987163; 1508970993;
   2453635748; 2870763221; 3624381080; 310598401; 607225278; 1426881987;
   1925078388; 2162078206; 2614888103; 3248222580; 3835390401; 4022224774;
   264347078; 604807628; 770255983; 1249150122; 1555081692; 1996064986;
   2554220882; 2821834349; 2952996808; 3210313671; 3336571891; 3584528711;
   113926993; 338241895; 666307205; 773529912; 1294757372; 1396182291;
   1695183700; 1986661051; 2177026350; 2456956037; 2730485921; 2820302411;
   3259730800; 3345764771; 3516065817; 3600352804; 4094571909; 275423344;
   430227734; 506948616; 659060556; 883997877; 958139571; 1322822218;
   1537002063; 1747873779; 1955562222; 2024104815; 2227730452; 2361852424;
   2428436474; 2756734187; 3204031479; 3329325298].

Definition sha_H0 : list N :=
  [1779033703; 3144134277; 1013904242; 2773480762;
   1359893119; 2600822924; 528734635; 1541459225].

(** Big-endian bytes of a number, [k] of them. *)
Fixpoint be_bytes (k : nat) (x : N) : list N :=
  match k with
  | O => []
  | S k' => (x / 256 ^ N.of_nat k') mod 256 :: be_bytes k' x
  end.

Definition sha_pad (msg : list N) : list N :=
  let len := N.of_nat (length msg) in
  let zeros := N.to_nat ((119 - len mod 64) mod 64) in
  msg ++ 128 :: repeat 0 zeros ++ be_bytes 8 (8 * len).

Fixpoint be_words (bs : list N) : list N :=
  match bs with
  | a :: b :: c :: d :: r => ((a * 256 + b) * 256 + c) * 256 + d :: be_words r
  | _ => []
  end.

(** The message schedule, newest word first: [sched] holds
    W(t-1), W(t-2), ...; [n] more words are appended. *)
Fixpoint sha_schedule (n : nat) (sched : list N) : list N :=
  match n with
  | O => sched
  | S n' =>
    let w := w32 (small_sigma1 (nth 1 sched 0) + nth 6 sched 0
                  + small_sigma0 (nth 14 sched 0) + nth 15 sched 0) in
    sha_schedule n' (w :: sched)
  end.

Definition sha_round (st : list N) (kw : N * N) : list N :=
  match st with
  | [a; b; c; d; e; f; g; h] =>
    let t1 := h + big_sigma1 e + sha_ch e f g + fst kw + snd kw in
    let t2 := big_sigma0 a + sha_maj a b c in
    [w32 (t1 + t2); a; b; c; w32 (d + t1); e; f; g]
  | _ => st
  end.

Definition sha_block (h : list N) (block : list N) : list N :=
  let w := rev (sha_schedule 48 (rev block)) in
  let st := fold_left sha_round (combine sha_K w) h in
  map (fun p => w32 (fst p + snd p)) (combine h st).

Fixpoint chunks16 (fuel : nat) (ws : list N) : list (list N) :=
  match fuel with
  | O => []
  | S f =>
    match ws with
    | [] => []
    | _ => firstn 16 ws :: chunks16 f (skipn 16 ws)
    end
  end.

Definition sha256 (msg : list byte) : list byte :=
  let ws := be_words (sha_pad (map Byte.to_N msg)) in
  let h := fold_left sha_block (chunks16 (length ws) ws) sha_H0 in
  map byte_of_N (flat_map (be_bytes 4) h).

Local Close Scope N_scope.

(** ** What the code takes from its platform

    The case conversions of [String.prototype] follow the Unicode
    tables; on ASCII text they change the 26 letters only. *)

Class Runtime := {
  toLowerCase : jsstring -> jsstring;
  toUpperCase : jsstring -> jsstring;
  toLowerCase_ascii :
    forall s, Forall (fun u => (u < 128)%N) s ->
              toLowerCase s = List.map ascii_lower s;
  toUpperCase_ascii :
    forall s, Forall (fun u => (u < 128)%N) s ->
              toUpperCase s = List.map ascii_upper s;
}.

(** The conversions on ASCII text alone, to run the code on examples. *)
Definition ascii_runtime : Runtime :=
  {| toLowerCase := List.map ascii_lower;
     toUpperCase := List.map ascii_upper;
     toLowerCase_ascii := fun s _ => eq_refl;
     toUpperCase_ascii := fun s _ => eq_refl |}.

(** ** The note codec (algorand.js) *)

Module Codec.
Section WithRuntime.
Context `{RT : Runtime}.

(** A transaction as the indexer returns it.  [note] is the content of
    the note field: the indexer transmits it in base64, and
    [Buffer.from(transaction.note, "base64")] of [decodeNote] gives
    these bytes back.  A note without bytes is the empty text, which is
    falsy as the missing note is. *)
Record LedgerTransaction := {
  note : option (list byte);
  confirmed_round : option Z;
}.

Definition computeSHA256 (fileBuffer : list byte) : jsstring :=
  hex_of_bytes (sha256 fileBuffer).

(** [now] is [new Date().toISOString()]. *)
Definition notePayload (now : jsstring) (hash : jsstring)
  (metadata : list (jsstring * jsval)) : jsval :=
  JObj (obj_set (str "createdAt") (JStr now)
          (obj_spread [(str "app", JStr (str "TrustChain"));
                       (str "hash", JStr hash)] metadata)).

Definition buildTrustChainNote (now : jsstring) (hash : jsstring)
  (metadata : list (jsstring * jsval)) : list byte :=
  utf8_encode (JSON_stringify (notePayload now hash metadata)).

(** [None] is null. *)
Definition decodeNote (transaction : option LedgerTransaction)
  : option jsstring :=
  match transaction with
  | None => None
  | Some t =>
    match note t with
    | None => None
    | Some [] => None
    | Some bs => Some (utf8_decode bs)
    end
  end.

(** [JNull] is null. *)
Definition parseNotePayload (transaction : option LedgerTransaction) : jsval :=
  match decodeNote transaction with
  | None => JNull
  | Some [] => JNull
  | Some noteText =>
    match JSON_parse noteText with
    | Ok v => v
    | Throw _ => JNull
    end
  end.

(** [parsed && typeof parsed.hash === "string"]: only an object has a
    property [hash]. *)
Definition string_hash_of (parsed : jsval) : option jsstring :=
  match get_prop parsed "hash" with
  | JStr h => Some h
  | _ => None
  end.

Definition parseHashFromTransaction (transaction : option LedgerTransaction)
  : option jsstring :=
  match string_hash_of (parseNotePayload transaction) with
  | Some h => Some (toLowerCase h)
  | None =>
    match decodeNote transaction with
    | None => None
    | Some [] => None
    | Some noteText =>
      match match_hex64 noteText with
      | Some m => Some (toLowerCase m)
      | None => None
      end
    end
  end.

(** The fingerprint as the note spells it, before
    [parseHashFromTransaction] puts it in lower case: the string
    property [hash] of the JSON note, or else the first run of 64
    hexadecimal digits of the note text. *)
Definition written_fingerprint (transaction : option LedgerTransaction)
  : option jsstring :=
  match string_hash_of (parseNotePayload transaction) with
  | Some h => Some h
  | None =>
    match decodeNote transaction with
    | None => None
    | Some noteText => match_hex64 noteText
    end
  end.

End WithRuntime.
End Codec.

(** ** The ledger and the process environment

    Every call that leaves the process is recorded in a log; the answer
    to a call may depend on everything that was called before it. *)

Record Account := { addr : jsstring; sk : list byte }.

Record AccountInformation := {
  info_amount : option Z;
  info_min_balance : option Z;
  info_minBalance : option Z;
}.

Record Confirmation := {
  conf_confirmed_round : option Z;
  conf_asset_index : option Z;
}.

Inductive Txn :=
| PaymentTxn (from to : jsstring) (amount : Z) (suggestedParams : jsval)
    (note : list byte)
| AssetCreateTxn (from : jsstring) (suggestedParams : jsval)
    (total decimals : Z) (defaultFrozen : bool)
    (unitName assetName assetURL : jsstring)
    (manager reserve freeze clawback : jsstring) (note : list byte).

Inductive Call :=
| AccountInformationCall (address : jsstring)
| TransactionParamsCall
| SendRawTransactionCall (txn : Txn) (key : list byte)
| WaitForConfirmationCall (txId : jsstring)
| LookupTransactionByIDCall (txId : jsstring).

(** A ledger write is the submission of a signed transaction. *)
Definition is_write (c : Call) : bool :=
  match c with
  | SendRawTransactionCall _ _ => true
  | _ => false
  end.

Record World := {
  env_ALGORAND_MNEMONIC : option jsstring;
  env_ISSUE_MIN_RECOMMENDED_MICROALGOS : option Z;
  mnemonicToSecretKey : jsstring -> exc Account;
  clock : list Call -> jsstring;
  accountInformation : list Call -> jsstring -> exc AccountInformation;
  getTransactionParams : list Call -> exc jsval;
  sendRawTransaction : list Call -> Txn -> list byte -> exc jsstring;
  waitForConfirmation : list Call -> jsstring -> exc Confirmation;
  lookupTransactionByID :
    list Call -> jsstring -> exc (option Codec.LedgerTransaction);
}.

(** A computation reads the log so far and returns its result with the
    log extended by the calls it made. *)
Definition M (A : Type) : Type := list Call -> exc A * list Call.

Definition ret {A} (a : A) : M A := fun log => (Ok a, log).

Definition throw {A} (e : Error) : M A := fun log => (Throw e, log).

Definition bind {A B} (m : M A) (k : A -> M B) : M B :=
  fun log =>
    match m log with
    | (Ok a, log') => k a log'
    | (Throw e, log') => (Throw e, log')
    end.

Definition lift {A} (r : exc A) : M A := fun log => (r, log).

(** An awaited call to the ledger or the indexer. *)
Definition call {A} (c : Call) (answer : list Call -> exc A) : M A :=
  fun log => (answer log, log ++ [c]).

(** Reading the clock is no call. *)
Definition now (W : World) : M jsstring := fun log => (Ok (clock W log), log).

#[global] Instance M_ret : MRet M := @ret.
#[global] Instance M_bind : MBind M := fun A B k m => bind m k.

(** ** Issuing and verifying (algorand.js, routes.js) *)

Module Backend.
Section WithWorld.
Context `{RT : Runtime} (W : World).

Import Codec.

Definition missing_mnemonic : Error :=
  {| message := Some (str
       "ALGORAND_MNEMONIC is required in backend/.env to issue proofs and load issuer history") |}.

(** [!value || !value.trim()] for an environment variable. *)
Definition blank (o : option jsstring) : bool :=
  negb (truthy_str o) || negb (truthy_str (option_map trim o)).

Definition getIssuerAccount : exc Account :=
  match env_ALGORAND_MNEMONIC W with
  | Some mnemonic =>
    if blank (Some mnemonic) then Throw missing_mnemonic
    else mnemonicToSecretKey W mnemonic
  | None => Throw missing_mnemonic
  end.

Definition getIssuerAddress : exc jsstring :=
  match getIssuerAccount with
  | Ok a => Ok (addr a)
  | Throw e => Throw e
  end.

(** [Number(process.env.ISSUE_MIN_RECOMMENDED_MICROALGOS || 350000)]. *)
Definition issueMinRecommendedMicroAlgos : Z :=
  default 350000 (env_ISSUE_MIN_RECOMMENDED_MICROALGOS W).

Record AccountState := {
  address : jsstring;
  amount : Z;
  minBalance : Z;
  spendable : Z;
}.

Definition fetchIssuerAccountState : M AccountState :=
  address ← lift getIssuerAddress;
  account ← call (AccountInformationCall address)
                  (fun log => accountInformation W log address);
  let amount := num_or_zero (num_or_null (info_amount account)) in
  let minBalance :=
    match num_or_null (info_min_balance account) with
    | Some z => z
    | None => num_or_zero (num_or_null (info_minBalance account))
    end in
  ret {| address := address; amount := amount; minBalance := minBalance;
         spendable := Z.max (amount - minBalance) 0 |}.

Record IssuerStatus := {
  st_account : AccountState;
  canIssue : bool;
  requiredForIssue : Z;
  fundingUrl : jsstring;
}.

Definition testnetFundingUrl : jsstring :=
  str "https://lora.algokit.io/testnet/fund".

Definition buildIssuerStatus (accountState : AccountState) : IssuerStatus :=
  {| st_account := accountState;
     canIssue := issueMinRecommendedMicroAlgos <=? amount accountState;
     requiredForIssue := issueMinRecommendedMicroAlgos;
     fundingUrl := testnetFundingUrl |}.

(** The file metadata object that the issue handler passes on;
    [referenceLabel] is a string or null. *)
Record FileMetadata := {
  fileName : jsstring;
  mimeType : option jsstring;
  fileSize : option N;
  referenceLabel : option jsstring;
}.

(** The decimal literal of a file size. *)
Definition number_of_N (n : N) : jsval :=
  JNum (str (DecimalString.NilZero.string_of_uint (N.to_uint n))).

Definition string_or_undefined (o : option jsstring) : jsval :=
  match o with
  | Some s => JStr s
  | None => JUndefined
  end.

(** [x || null] as a property value. *)
Definition string_or_null (o : option jsstring) : jsval :=
  match str_or_null o with
  | Some s => JStr s
  | None => JNull
  end.

Definition proofMetadata (m : FileMetadata) : list (jsstring * jsval) :=
  [(str "type", JStr (str "proof"));
   (str "fileName", JStr (fileName m));
   (str "mimeType", string_or_undefined (mimeType m));
   (str "fileSize", match fileSize m with
                    | Some n => number_of_N n
                    | None => JUndefined
                    end);
   (str "referenceLabel", string_or_null (referenceLabel m))].

Definition asaMetadata (m : FileMetadata) : list (jsstring * jsval) :=
  [(str "type", JStr (str "asa"));
   (str "fileName", JStr (fileName m));
   (str "referenceLabel", string_or_null (referenceLabel m))].

Record ProofTransaction := {
  pt_txId : jsstring;
  pt_confirmedRound : option Z;
  pt_noteHash : jsstring;
}.

Definition createProofTransaction (hash : jsstring)
  (fileMetadata : FileMetadata) : M ProofTransaction :=
  issuer ← lift getIssuerAccount;
  let sender := addr issuer in
  suggestedParams ← call TransactionParamsCall (getTransactionParams W);
  t ← now W;
  let note := buildTrustChainNote t hash (proofMetadata fileMetadata) in
  let transaction := PaymentTxn sender sender 0 suggestedParams note in
  txId ← call (SendRawTransactionCall transaction (sk issuer))
               (fun log => sendRawTransaction W log transaction (sk issuer));
  confirmation ← call (WaitForConfirmationCall txId)
                       (fun log => waitForConfirmation W log txId);
  ret {| pt_txId := txId;
         pt_confirmedRound := conf_confirmed_round confirmation;
         pt_noteHash := hash |}.

Record AssetTransaction := {
  at_txId : jsstring;
  at_assetId : option Z;
  at_confirmedRound : option Z;
}.

Definition mintProofAsset (hash : jsstring) (fileMetadata : FileMetadata)
  : M AssetTransaction :=
  issuer ← lift getIssuerAccount;
  let address := addr issuer in
  suggestedParams ← call TransactionParamsCall (getTransactionParams W);
  t ← now W;
  let note := buildTrustChainNote t hash (asaMetadata fileMetadata) in
  t' ← now W;
  let dayStamp := firstn 10 t' in
  let assetName := str "TrustChain Proof " ++ dayStamp in
  let transaction :=
    AssetCreateTxn address suggestedParams 1 0 false (str "TRUSTPRF") assetName
      (str "https://trustchain.app/proof/" ++ firstn 32 hash)
      address address address address note in
  txId ← call (SendRawTransactionCall transaction (sk issuer))
               (fun log => sendRawTransaction W log transaction (sk issuer));
  confirmation ← call (WaitForConfirmationCall txId)
                       (fun log => waitForConfirmation W log txId);
  ret {| at_txId := txId;
         at_assetId := conf_asset_index confirmation;
         at_confirmedRound := conf_confirmed_round confirmation |}.

Definition fetchTransactionById (transactionId : jsstring)
  : M (option LedgerTransaction) :=
  call (LookupTransactionByIDCall transactionId)
       (fun log => lookupTransactionByID W log transactionId).

(** *** The routes *)

Record File := {
  buffer : option (list byte);
  originalname : jsstring;
  mimetype : option jsstring;
  size : option N;
}.

Record Request := {
  file : option File;
  body_label : option jsstring;
  body_transactionId : option jsstring;
}.

Record IssuedProof := {
  ip_id : jsstring;
  ip_fileName : jsstring;
  ip_referenceLabel : option jsstring;
  ip_mimeType : option jsstring;
  ip_fileSize : option N;
  ip_hash : jsstring;
  ip_transactionId : jsstring;
  ip_transactionRound : option Z;
  ip_assetId : option Z;
  ip_assetTransactionId : jsstring;
  ip_issuedAt : jsstring;
}.

Record Verification := {
  v_status : jsstring;
  v_verified : bool;
  v_transactionId : jsstring;
  v_uploadedHash : jsstring;
  v_onChainHash : jsstring;
  v_confirmedRound : option Z;
}.

Inductive Body :=
| ErrorBody (error : jsstring)
| InsufficientBalanceBody (error issuer : jsstring) (amount requiredForIssue : Z)
    (fundingUrl : jsstring)
| InsufficientFeesBody (error issuer : jsstring) (requiredForIssue : Z)
    (fundingUrl : jsstring)
| IssuedBody (message : jsstring) (proof : IssuedProof)
| VerificationBody (result : Verification).

(** How a handler ends: a JSON response with its status, the error
    handed to [next], or an error thrown out of the [catch] block. *)
Inductive Outcome :=
| Respond (status : Z) (body : Body)
| Next (error : Error)
| Escaped (error : Error).

Definition isInsufficientFundsError (error : Error) : bool :=
  match message error with
  | Some m => includes (str "overspend") (toLowerCase m)
  | None => false
  end.

Definition insufficient_balance_message : jsstring :=
  str "Issuer wallet has insufficient TestNet ALGO balance to issue proof transactions.".

Definition issue_body (req : Request) : M Outcome :=
  match file req with
  | Some f =>
    match buffer f, originalname f with
    | Some fileBuffer, _ :: _ =>
      if blank (env_ALGORAND_MNEMONIC W) then
        ret (Respond 400 (ErrorBody (str
          "ALGORAND_MNEMONIC is missing in backend/.env. Add a funded TestNet mnemonic and restart the backend.")))
      else
        issuerState ← fetchIssuerAccountState;
        if amount issuerState <? issueMinRecommendedMicroAlgos then
          ret (Respond 400
                 (InsufficientBalanceBody insufficient_balance_message
                    (address issuerState) (amount issuerState)
                    issueMinRecommendedMicroAlgos testnetFundingUrl))
        else
          let referenceLabel :=
            str_or_null (Some (trim (str_or (body_label req) []))) in
          let hash := computeSHA256 fileBuffer in
          proofTransaction ← createProofTransaction hash
            {| fileName := originalname f; mimeType := mimetype f;
               fileSize := size f; referenceLabel := referenceLabel |};
          assetTransaction ← mintProofAsset hash
            {| fileName := originalname f; mimeType := None;
               fileSize := None; referenceLabel := referenceLabel |};
          t ← now W;
          ret (Respond 201
                 (IssuedBody (str "Proof issued successfully")
                    {| ip_id := pt_txId proofTransaction;
                       ip_fileName := originalname f;
                       ip_referenceLabel := referenceLabel;
                       ip_mimeType := mimetype f;
                       ip_fileSize := size f;
                       ip_hash := hash;
                       ip_transactionId := pt_txId proofTransaction;
                       ip_transactionRound := pt_confirmedRound proofTransaction;
                       ip_assetId := at_assetId assetTransaction;
                       ip_assetTransactionId := at_txId assetTransaction;
                       ip_issuedAt := t |}))
    | _, _ =>
      ret (Respond 400 (ErrorBody (str "A valid file upload is required")))
    end
  | None => ret (Respond 400 (ErrorBody (str "A valid file upload is required")))
  end.

(** [router.post("/proofs/issue", ...)]: the body inside [try], and the
    [catch] block. *)
Definition issue (req : Request) (log : list Call) : Outcome * list Call :=
  match issue_body req log with
  | (Ok out, log') => (out, log')
  | (Throw error, log') =>
    if isInsufficientFundsError error then
      match getIssuerAddress with
      | Ok issuer =>
        (Respond 400
           (InsufficientFeesBody
              (str "Issuer wallet has insufficient TestNet ALGO balance to pay network fees.")
              issuer issueMinRecommendedMicroAlgos testnetFundingUrl), log')
      | Throw e => (Escaped e, log')
      end
    else (Next error, log')
  end.

Definition verify_body (req : Request) : M Outcome :=
  match file req with
  | Some {| buffer := Some fileBuffer |} =>
    let transactionId :=
      toUpperCase (trim (str_or (body_transactionId req) [])) in
    match transactionId with
    | [] => ret (Respond 400 (ErrorBody (str "Transaction ID is required")))
    | _ :: _ =>
      if negb (is_transaction_id transactionId) then
        ret (Respond 400 (ErrorBody (str "Transaction ID format is invalid")))
      else
        let uploadedHash := computeSHA256 fileBuffer in
        transaction ← fetchTransactionById transactionId;
        match transaction with
        | None =>
          ret (Respond 404
                 (ErrorBody (str "Transaction not found on Algorand TestNet")))
        | Some t =>
          match parseHashFromTransaction transaction with
          | Some (c :: h) =>
            let onChainHash := c :: h in
            let verified := str_eqb uploadedHash onChainHash in
            ret (Respond 200
                   (VerificationBody
                      {| v_status :=
                           if verified then str "VERIFIED" else str "INVALID";
                         v_verified := verified;
                         v_transactionId := transactionId;
                         v_uploadedHash := uploadedHash;
                         v_onChainHash := onChainHash;
                         v_confirmedRound :=
                           num_or_null (confirmed_round t) |}))
          | _ =>
            ret (Respond 422 (ErrorBody (str
              "No TrustChain hash was found in the transaction note field for this transaction")))
          end
        end
    end
  | _ => ret (Respond 400 (ErrorBody (str "A file upload is required")))
  end.

(** [router.post("/proofs/verify", ...)]. *)
Definition verify (req : Request) (log : list Call) : Outcome * list Call :=
  match verify_body req log with
  | (Ok out, log') => (out, log')
  | (Throw error, log') => (Next error, log')
  end.

End WithWorld.
End Backend.

(** ** Worlds to run the handlers in *)

Definition sample_account : Account :=
  {| addr := str "ISSUERADDRESS"; sk := [x01; x02] |}.

Definition sample_time : jsstring := str "2024-05-06T07:08:09.000Z".

(** A ledger that accepts everything, with an issuer that holds
    [amount] of which [minBalance] is reserved, and an indexer that
    answers every lookup with [found]. *)
Definition sample_world (amount minBalance : Z)
  (found : option Codec.LedgerTransaction) : World :=
  {| env_ALGORAND_MNEMONIC := Some (str "abandon ability able");
     env_ISSUE_MIN_RECOMMENDED_MICROALGOS := None;
     mnemonicToSecretKey := fun _ => Ok sample_account;
     clock := fun _ => sample_time;
     accountInformation := fun _ _ =>
       Ok {| info_amount := Some amount;
             info_min_balance := Some minBalance;
             info_minBalance := None |};
     getTransactionParams := fun _ => Ok JNull;
     sendRawTransaction := fun log _ _ =>
       Ok (str "TX" ++ [(48 + N.of_nat (length log))%N]);
     waitForConfirmation := fun _ _ =>
       Ok {| conf_confirmed_round := Some 41; conf_asset_index := Some 77 |};
     lookupTransactionByID := fun _ _ => Ok found |}.

Definition sample_file : Backend.File :=
  {| Backend.buffer := Some [x61; x62; x63];
     Backend.originalname := str "abc.txt";
     Backend.mimetype := Some (str "text/plain");
     Backend.size := Some 3%N |}.

Definition sample_request (transactionId : option jsstring) : Backend.Request :=
  {| Backend.file := Some sample_file;
     Backend.body_label := Some (str " contract ");
     Backend.body_transactionId := transactionId |}.

Definition sample_transaction_id : jsstring :=
  str "ABCDEFGHIJKLMNOPQRSTUVWXYZ234567ABCDEFGHIJKLMNOPQRST".

Definition sample_metadata : Backend.FileMetadata :=
  {| Backend.fileName := str "abc.txt";
     Backend.mimeType := Some (str "text/plain");
     Backend.fileSize := Some 3%N;
     Backend.referenceLabel := Some (str "contract") |}.

(** The marker transaction of the file [abc], as the indexer returns it. *)
Definition sample_marker : Codec.LedgerTransaction :=
  {| Codec.note :=
       Some (Codec.buildTrustChainNote sample_time
               (Codec.computeSHA256 [x61; x62; x63])
               (Backend.proofMetadata sample_metadata));
     Codec.confirmed_round := Some 41 |}.

(** Notes to try the decoder on. *)
Definition bytes_of_ascii (s : string) : list byte :=
  List.map byte_of_ascii (list_ascii_of_string s).

(** The same with every apostrophe read as a double quote, to spell
    JSON texts. *)
Definition json_bytes (s : string) : list byte :=
  List.map (fun b => if Byte.eqb b x27 then x22 else b) (bytes_of_ascii s).

Definition json_text (s : string) : jsstring :=
  List.map (fun u => if (u =? 39)%N then 34%N else u) (str s).

Definition note_only (bs : list byte) : Codec.LedgerTransaction :=
  {| Codec.note := Some bs; Codec.confirmed_round := Some 41 |}.

Definition sample_hex64 : string :=
  "BA7816BF8F01CFEA414140DE5DAE2223B00361A396177A9CB410FF61F20015AD".

(** ** Texts that survive UTF-8, values that survive JSON *)

(** Every code unit is one (below 2^16) and every surrogate is half of
    a pair: the string is the UTF-16 form of some Unicode text. *)
Fixpoint well_formed (s : jsstring) : bool :=
  match s with
  | [] => true
  | u :: r =>
    if is_high_surrogate u then
      match r with
      | v :: r' => is_low_surrogate v && well_formed r'
      | [] => false
      end
    else if is_low_surrogate u then false
    else (u <? 0x10000)%N && well_formed r
  end.

Definition units_ok (s : jsstring) : bool :=
  forallb (fun u => (u <? 0x10000)%N) s.

(** [lit] is a JSON number literal. *)
Fixpoint scan_number (st : num_state) (s : jsstring) : bool :=
  match s with
  | [] => num_final st
  | c :: r =>
    match num_step st c with
    | Some st' => scan_number st' r
    | None => false
    end
  end.

Definition is_number_literal (lit : jsstring) : bool :=
  match lit with
  | [] => false
  | c :: r =>
    if (c =? 45)%N then scan_number NMinus r
    else if (c =? 48)%N then scan_number NZero r
    else if is_digit c then scan_number NInt r
    else false
  end.

(** A value of the program: its strings are sequences of code units and
    its numbers are written as JSON writes them. *)
Fixpoint wf_value (v : jsval) : bool :=
  match v with
  | JNum lit => is_number_literal lit
  | JStr s => units_ok s
  | JArr items => forallb wf_value items
  | JObj props =>
    forallb (fun kv => units_ok (fst kv) && wf_value (snd kv)) props
  | _ => true
  end.

Definition wf_props (props : list (jsstring * jsval)) : bool :=
  forallb (fun kv => units_ok (fst kv) && wf_value (snd kv)) props.

(** What [JSON.parse] reads back from the text of a value: an undefined
    array element has become null and an undefined property is gone. *)
Fixpoint clean (v : jsval) : jsval :=
  match v with
  | JArr items =>
    JArr (List.map (fun x => match x with
                             | JUndefined => JNull
                             | _ => clean x
                             end) items)
  | JObj props =>
    JObj (List.flat_map
            (fun kv => match snd kv with
                       | JUndefined => []
                       | _ => [(fst kv, clean (snd kv))]
                       end) props)
  | _ => v
  end.

(** What may stand after a value in a JSON text. *)
Definition follow_ok (rest : jsstring) : Prop :=
  match rest with
  | [] => True
  | c :: _ => after_number c <> None
  end.

(** The text [text], wherever a value may stand, is read as the value
    [v]: the scanner turns it into tokens that take the parser from
    expecting a value to having [v]. *)
Definition reads_as (text : jsstring) (v : jsval) : Prop :=
  exists t ts,
    t <> TRBracket
    /\ (forall rest, follow_ok rest ->
          lex (text ++ rest) = option_map (app (t :: ts)) (lex rest))
    /\ (forall stk rest,
          parse_run (SValue stk) (t :: ts ++ rest)
          = parse_run (push_value v stk) rest).

(** The property is named [k]. *)
Definition named (k : jsstring) (kv : jsstring * jsval) : bool :=
  str_eqb k (fst kv).

(** The metadata has no property named [hash]. *)
Definition lacks_hash (metadata : list (jsstring * jsval)) : bool :=
  forallb (fun kv => negb (named (str "hash") kv)) metadata.

(** The transaction that carries [note]. *)
Definition carrying (note : list byte) (round : option Z)
  : Codec.LedgerTransaction :=
  {| Codec.note := Some note; Codec.confirmed_round := round |}.

(** A file whose name alone is longer than the 1024 bytes that a note
    of the ledger may hold. *)
Definition long_name : jsstring := repeat 97%N 2000.

Definition long_name_metadata : Backend.FileMetadata :=
  {| Backend.fileName := long_name;
     Backend.mimeType := Some (str "text/plain");
     Backend.fileSize := Some 3%N;
     Backend.referenceLabel := None |}.

Definition long_name_request : Backend.Request :=
  {| Backend.file :=
       Some {| Backend.buffer := Some [x61; x62; x63];
               Backend.originalname := long_name;
               Backend.mimetype := Some (str "text/plain");
               Backend.size := Some 3%N |};
     Backend.body_label := None;
     Backend.body_transactionId := None |}.

(** The call submits a transaction whose note is longer than [bound]. *)
Definition submits_note_over (bound : nat) (c : Call) : bool :=
  match c with
  | SendRawTransactionCall (PaymentTxn _ _ _ _ note) _
  | SendRawTransactionCall (AssetCreateTxn _ _ _ _ _ _ _ _ _ _ _ _ note) _ =>
    (bound <? length note)%nat
  | _ => false
  end.

(** * More of the code

    The routes that read the issuer, the history of the issuer, the
    two entries of the server (server.js, api/index.js) and the
    addresses that the page tries. *)

From Stdlib Require Numbers.DecimalFacts Numbers.DecimalN.

(** ** The routes that read the issuer (routes.js) *)

Module Routes.
Section WithWorld.
Context `{RT : Runtime} (W : World).

Import Codec Backend.

Definition isMissingMnemonicError (error : Error) : bool :=
  match message error with
  | Some m => includes (str "ALGORAND_MNEMONIC") m
  | None => false
  end.

(** The bodies of the two routes; every answer has status 200. *)
Inductive InfoBody :=
| IssuerBody (address : option jsstring) (configurationError : option jsstring)
| StatusBody (address : option jsstring) (amount minBalance spendable : Z)
    (canIssue : bool) (requiredForIssue : Z) (fundingUrl : jsstring)
    (configurationError : option jsstring).

Inductive InfoOutcome :=
| Reply (body : InfoBody)
| Forward (error : Error).

(** [router.get("/issuer", ...)]. *)
Definition issuer : InfoOutcome :=
  match getIssuerAddress W with
  | Ok address => Reply (IssuerBody (Some address) None)
  | Throw error =>
    if isMissingMnemonicError error
    then Reply (IssuerBody None (message error))
    else Forward error
  end.

(** [router.get("/issuer/status", ...)]. *)
Definition issuer_status (log : list Call) : InfoOutcome * list Call :=
  match fetchIssuerAccountState W log with
  | (Ok accountState, log') =>
    let s := buildIssuerStatus W accountState in
    (Reply (StatusBody (Some (address accountState)) (amount accountState)
              (minBalance accountState) (spendable accountState)
              (canIssue s) (requiredForIssue s) (fundingUrl s) None), log')
  | (Throw error, log') =>
    if isMissingMnemonicError error
    then (Reply (StatusBody None 0 0 0 false (issueMinRecommendedMicroAlgos W)
                   testnetFundingUrl (message error)), log')
    else (Forward error, log')
  end.

End WithWorld.
End Routes.

(** ** The transactions of an issuance *)

Definition txn_note (txn : Txn) : list byte :=
  match txn with
  | PaymentTxn _ _ _ _ note => note
  | AssetCreateTxn _ _ _ _ _ _ _ _ _ _ _ _ note => note
  end.

#[global] Instance byte_eq_decision : EqDecision byte := Byte.byte_eq_dec.

(** The call that may stand at place [i] in a run of the issue route,
    for the issuer's account: the balance query, then for the marker
    and for the asset the parameters, the submission and the wait. *)
Definition issue_step_ok (issuer : Account) (i : nat) (c : Call) : bool :=
  match i, c with
  | 0%nat, AccountInformationCall a => str_eqb a (addr issuer)
  | 1%nat, TransactionParamsCall => true
  | 2%nat, SendRawTransactionCall (PaymentTxn from to amount _ _) key =>
    str_eqb from (addr issuer) && str_eqb to (addr issuer) && (amount =? 0)%Z
    && bool_decide (key = sk issuer)
  | 3%nat, WaitForConfirmationCall _ => true
  | 4%nat, TransactionParamsCall => true
  | 5%nat, SendRawTransactionCall
             (AssetCreateTxn from _ total decimals defaultFrozen unitName _ _
                manager reserve freeze clawback _) key =>
    str_eqb from (addr issuer) && (total =? 1)%Z && (decimals =? 0)%Z
    && negb defaultFrozen && str_eqb unitName (str "TRUSTPRF")
    && str_eqb manager (addr issuer) && str_eqb reserve (addr issuer)
    && str_eqb freeze (addr issuer) && str_eqb clawback (addr issuer)
    && bool_decide (key = sk issuer)
  | 6%nat, WaitForConfirmationCall _ => true
  | _, _ => false
  end.

(** The strings of an upload are sequences of code units. *)
Definition wf_file (f : Backend.File) : bool :=
  units_ok (Backend.originalname f)
  && match Backend.mimetype f with
     | Some m => units_ok m
     | None => true
     end.

Definition wf_label (label : option jsstring) : bool :=
  match label with
  | Some l => units_ok l
  | None => true
  end.

(** ** Private addresses (server.js, and the same test in the page) *)

(** At most [k] leading digits of [s], and what follows them. *)
Fixpoint take_digits (k : nat) (s : jsstring) : jsstring * jsstring :=
  match k, s with
  | S k', c :: r =>
    if is_digit c
    then let (ds, rest) := take_digits k' r in (c :: ds, rest)
    else ([], s)
  | _, _ => ([], s)
  end.

(** [(\d{1,3})] at the head of [s], followed by [\.] when [dot]. *)
Definition digit_group (dot : bool) (s : jsstring)
  : option (jsstring * jsstring) :=
  match take_digits 3 s with
  | ([], _) => None
  | (ds, rest) =>
    if dot then
      match rest with
      | c :: rest' => if (c =? 46)%N then Some (ds, rest') else None
      | [] => None
      end
    else Some (ds, rest)
  end.

(** [s.match(/^(\d{1,3})\.(\d{1,3})\.(\d{1,3})\.(\d{1,3})$/)]: the four
    groups. *)
Definition match_dotted_quad (s : jsstring)
  : option (jsstring * jsstring * jsstring * jsstring) :=
  match digit_group true s with
  | Some (g1, r1) =>
    match digit_group true r1 with
    | Some (g2, r2) =>
      match digit_group true r2 with
      | Some (g3, r3) =>
        match digit_group false r3 with
        | Some (g4, []) => Some (g1, g2, g3, g4)
        | _ => None
        end
      | None => None
      end
    | None => None
    end
  | None => None
  end.

(** [Number(ds)] for a string of digits. *)
Definition number_of_digits (ds : jsstring) : N :=
  fold_left (fun acc d => (acc * 10 + (d - 48))%N) ds 0%N.

Definition isPrivateIpv4 (hostname : jsstring) : bool :=
  match match_dotted_quad hostname with
  | None => false
  | Some (g1, g2, _, _) =>
    let a := number_of_digits g1 in
    let b := number_of_digits g2 in
    if (a =? 10)%N || (a =? 127)%N then true
    else if (a =? 192)%N && (b =? 168)%N then true
    else (a =? 172)%N && (16 <=? b)%N && (b <=? 31)%N
  end.

(** One to three digits. *)
Definition is_digit_group (g : jsstring) : bool :=
  (1 <=? length g)%nat && (length g <=? 3)%nat && forallb is_digit g.

(** The test on the first two numbers of the address. *)
Definition private_range (a b : N) : bool :=
  (a =? 10)%N || (a =? 127)%N || ((a =? 192)%N && (b =? 168)%N)
  || ((a =? 172)%N && (16 <=? b)%N && (b <=? 31)%N).

Definition dotted (g1 g2 g3 g4 : jsstring) : jsstring :=
  g1 ++ 46%N :: g2 ++ 46%N :: g3 ++ 46%N :: g4.

(** ** The address of the API *)

(** The serverless entry (api/index.js): [req.url] as it is handed to
    the application. *)
Definition normalize_url (url : jsstring) : jsstring :=
  if starts_with (str "/api") url then url else str "/api" ++ url.

(** [s.replace(/\/+$/, ...)] with the empty string: [s] without its
    trailing slashes. *)
Fixpoint drop_slashes (l : jsstring) : jsstring :=
  match l with
  | c :: l' => if (c =? 47)%N then drop_slashes l' else l
  | [] => []
  end.

Definition strip_slashes (s : jsstring) : jsstring :=
  rev (drop_slashes (rev s)).

(** [s.endsWith(p)]. *)
Definition ends_with (p s : jsstring) : bool :=
  starts_with (rev p) (rev s).

(** [normalizeApiBase] of the page. *)
Definition normalizeApiBase (value : jsstring) : jsstring :=
  let cleaned := strip_slashes (trim value) in
  match cleaned with
  | [] => []
  | _ :: _ =>
    if ends_with (str "/api") cleaned then cleaned
    else if str_eqb cleaned (str "/api") then cleaned
    else cleaned ++ str "/api"
  end.

(** From place [off] on, the calls are the ones of an issuance. *)
Definition follows_protocol (issuer : Account) (off : nat) (calls : list Call)
  : Prop :=
  forall i c, calls !! i = Some c -> issue_step_ok issuer (off + i)%nat c = true.

(** A digit of a digest: [0-9a-f]. *)
Definition is_lower_hex (u : N) : bool := in_range 48 57 u || in_range 97 102 u.

(** [req.file && req.file.buffer && req.file.originalname]: what the
    issue route asks of an upload. *)
Definition valid_upload (req : Backend.Request) : bool :=
  match Backend.file req with
  | Some f =>
    match Backend.buffer f, Backend.originalname f with
    | Some _, _ :: _ => true
    | _, _ => false
    end
  | None => false
  end.

(** [req.file && req.file.buffer]: the content that the verify route
    asks for. *)
Definition content (req : Backend.Request) : option (list byte) :=
  match Backend.file req with
  | Some f => Backend.buffer f
  | None => None
  end.

Definition valid_content (req : Backend.Request) : bool :=
  match content req with
  | Some _ => true
  | None => false
  end.

(** The same ledger for a backend whose mnemonic is blank. *)
Definition blank_world : World :=
  let w := sample_world 500000 100000 None in
  {| env_ALGORAND_MNEMONIC := Some (str "   ");
     env_ISSUE_MIN_RECOMMENDED_MICROALGOS :=
       env_ISSUE_MIN_RECOMMENDED_MICROALGOS w;
     mnemonicToSecretKey := mnemonicToSecretKey w;
     clock := clock w;
     accountInformation := accountInformation w;
     getTransactionParams := getTransactionParams w;
     sendRawTransaction := sendRawTransaction w;
     waitForConfirmation := waitForConfirmation w;
     lookupTransactionByID := lookupTransactionByID w |}.

(** ** The history of the issuer (algorand.js)

    [fetchIssuerTransactionHistory] asks the indexer for the
    transactions of the issuer and summarises each of them.  A property
    read from a note may be any JSON value, and so the summary keeps
    values; whether a number counts as true is the platform's matter
    (it is false for the literals that are read as zero). *)

Module Listing.

(** A transaction of the search, with what the backend reads of it;
    [ix_ledger] holds its note and its confirmed round. *)
Record IndexedTransaction := {
  ix_id : jsstring;
  ix_tx_type : option jsstring;
  ix_round_time : option Z;
  ix_created_asset_index : option Z;
  ix_ledger : Codec.LedgerTransaction;
}.

(** One element of the array that [fetchIssuerTransactionHistory]
    returns; [JNull] is null. *)
Record Summary := {
  s_id : jsstring;
  s_type : option jsstring;
  s_roundTime : option Z;
  s_confirmedRound : option Z;
  s_hash : jsval;
  s_noteType : jsval;
  s_note : jsval;
  s_assetId : option Z;
}.

Section WithPlatform.
Context (number_truthy : jsstring -> bool) (W : World).

Definition truthy (v : jsval) : bool :=
  match v with
  | JUndefined | JNull => false
  | JBool b => b
  | JNum lit => number_truthy lit
  | JStr [] => false
  | JStr (_ :: _) => true
  | JArr _ | JObj _ => true
  end.

(** [parsedNote && parsedNote[k] ? parsedNote[k] : null]. *)
Definition note_property (parsedNote : jsval) (k : string) : jsval :=
  if truthy parsedNote && truthy (get_prop parsedNote k)
  then get_prop parsedNote k
  else JNull.

(** The callback of [.map]. *)
Definition summarise (transaction : IndexedTransaction) : Summary :=
  let parsedNote := Codec.parseNotePayload (Some (ix_ledger transaction)) in
  {| s_id := ix_id transaction;
     s_type := ix_tx_type transaction;
     s_roundTime := num_or_null (ix_round_time transaction);
     s_confirmedRound :=
       num_or_null (Codec.confirmed_round (ix_ledger transaction));
     s_hash := note_property parsedNote "hash";
     s_noteType := note_property parsedNote "type";
     s_note := if truthy parsedNote then parsedNote else JNull;
     s_assetId := num_or_null (ix_created_asset_index transaction) |}.

(** [search address limit] is the answer of
    [indexer.searchForTransactions().address(address).limit(limit).do()]:
    an error, or the [transactions] of the response if it has any. *)
Definition fetchIssuerTransactionHistory
  (search : jsstring -> Z -> exc (option (list IndexedTransaction)))
  (limit : Z) : exc (list Summary) :=
  match Backend.getIssuerAddress W with
  | Ok address =>
    match search address limit with
    | Ok response => Ok (List.map summarise (default [] response))
    | Throw e => Throw e
    end
  | Throw e => Throw e
  end.

End WithPlatform.

(** *** Summaries that are typed as the reconstruction has them

    [deriveProofsFromTransactions] is modelled on transactions whose
    fingerprint and kind are strings or null and whose note has
    strings and a number.  These relations say when a summary is such a
    transaction. *)

Inductive reads_string : jsval -> option jsstring -> Prop :=
| reads_str s : reads_string (JStr s) (Some s)
| reads_null : reads_string JNull None
| reads_undefined : reads_string JUndefined None.

Inductive reads_size : jsval -> option Z -> Prop :=
| reads_number n :
    reads_size (Backend.number_of_N n) (Some (Z.of_N n))
| reads_no_size : reads_size JNull None
| reads_undefined_size : reads_size JUndefined None.

Inductive reads_note : jsval -> option History.Note -> Prop :=
| reads_no_note : reads_note JNull None
| reads_object props n :
    reads_string (get_prop (JObj props) "fileName") (History.note_fileName n) ->
    reads_string (get_prop (JObj props) "referenceLabel")
      (History.note_referenceLabel n) ->
    reads_string (get_prop (JObj props) "mimeType") (History.note_mimeType n) ->
    reads_size (get_prop (JObj props) "fileSize") (History.note_fileSize n) ->
    reads_note (JObj props) (Some n).

Record reads_summary (s : Summary) (t : History.Transaction) : Prop := {
  reads_id : History.id t = s_id s;
  reads_type : History.txType t = s_type s;
  reads_roundTime : History.roundTime t = s_roundTime s;
  reads_confirmedRound : History.confirmedRound t = s_confirmedRound s;
  reads_hash : reads_string (s_hash s) (History.hash t);
  reads_noteType : reads_string (s_noteType s) (History.noteType t);
  reads_the_note : reads_note (s_note s) (History.note t);
  reads_assetId : History.assetId t = s_assetId s;
}.

End Listing.

(** The transactions that a run has submitted, in their order. *)
Definition submitted (calls : list Call) : list Txn :=
  List.flat_map (fun c => match c with
                          | SendRawTransactionCall txn _ => [txn]
                          | _ => []
                          end) calls.

(** The transaction of the reconstruction that an indexed transaction
    is when its note is of kind [kind] for the fingerprint [f] and the
    file [m]. *)
Definition listed (kind : string) (ix : Listing.IndexedTransaction)
  (f : jsstring) (m : Backend.FileMetadata) : History.Transaction :=
  {| History.id := Listing.ix_id ix;
     History.txType := Listing.ix_tx_type ix;
     History.roundTime := num_or_null (Listing.ix_round_time ix);
     History.confirmedRound :=
       num_or_null (Codec.confirmed_round (Listing.ix_ledger ix));
     History.hash := str_or_null (Some f);
     History.noteType := Some (str kind);
     History.note :=
       Some {| History.note_fileName := Some (Backend.fileName m);
               History.note_referenceLabel :=
                 str_or_null (Backend.referenceLabel m);
               History.note_mimeType := Backend.mimeType m;
               History.note_fileSize :=
                 option_map Z.of_N (Backend.fileSize m) |};
     History.assetId := num_or_null (Listing.ix_created_asset_index ix) |}.

(** The file of an asset note: its name and its label. *)
Definition name_and_label (m : Backend.FileMetadata) : Backend.FileMetadata :=
  {| Backend.fileName := Backend.fileName m;
     Backend.mimeType := None;
     Backend.fileSize := None;
     Backend.referenceLabel := Backend.referenceLabel m |}.

(** The strings of the metadata of a file are sequences of code units. *)
Definition wf_file_metadata (m : Backend.FileMetadata) : bool :=
  units_ok (Backend.fileName m)
  && match Backend.mimeType m with
     | Some t => units_ok t
     | None => true
     end
  && wf_label (Backend.referenceLabel m).

(** The two transactions of the issuance of the file [abc] in the
    sample world, as the indexer lists them. *)
Definition sample_indexed_marker : Listing.IndexedTransaction :=
  {| Listing.ix_id := str "TX2";
     Listing.ix_tx_type := Some (str "pay");
     Listing.ix_round_time := Some 1714979289;
     Listing.ix_created_asset_index := None;
     Listing.ix_ledger := sample_marker |}.

Definition sample_indexed_asset : Listing.IndexedTransaction :=
  {| Listing.ix_id := str "TX5";
     Listing.ix_tx_type := Some (str "acfg");
     Listing.ix_round_time := Some 1714979293;
     Listing.ix_created_asset_index := Some 77;
     Listing.ix_ledger :=
       {| Codec.note :=
            Some (Codec.buildTrustChainNote sample_time
                    (Codec.computeSHA256 [x61; x62; x63])
                    (Backend.asaMetadata (name_and_label sample_metadata)));
          Codec.confirmed_round := Some 42 |} |}.

(** An answer of the indexer that lists the two, and a transaction
    whose note is a text with a fingerprint in it. *)
Definition sample_search (address : jsstring) (limit : Z)
  : exc (option (list Listing.IndexedTransaction)) :=
  Ok (Some [sample_indexed_asset; sample_indexed_marker]).

Definition sample_indexed_text : Listing.IndexedTransaction :=
  {| Listing.ix_id := str "TX9";
     Listing.ix_tx_type := Some (str "pay");
     Listing.ix_round_time := Some 1714979300;
     Listing.ix_created_asset_index := None;
     Listing.ix_ledger :=
       note_only (bytes_of_ascii
         "sha256 BA7816BF8F01CFEA414140DE5DAE2223B00361A396177A9CB410FF61F20015AD of abc") |}.

(** ** The addresses that the page tries (the page's script) *)

(** [[...new Set(items)]]: the items without repetition, each at its
    first place. *)
Fixpoint unique_from (seen items : list jsstring) : list jsstring :=
  match items with
  | [] => []
  | x :: rest =>
    if existsb (str_eqb x) seen then unique_from seen rest
    else x :: unique_from (x :: seen) rest
  end.

Definition non_empty (s : jsstring) : bool :=
  match s with
  | [] => false
  | _ :: _ => true
  end.

(** [getFallbackCandidates(current)], where [hostname] and [protocol]
    are those of [window.location]; no [current] is the empty string. *)
Definition getFallbackCandidates (hostname protocol current : jsstring)
  : list jsstring :=
  let currentProtocol :=
    if str_eqb protocol (str "https:") then str "https" else str "http" in
  let isLikelyLocalHost :=
    str_eqb hostname (str "localhost")
    || str_eqb hostname (str "127.0.0.1")
    || ends_with (str ".local") hostname
    || isPrivateIpv4 hostname in
  let local :=
    if isLikelyLocalHost then
      [currentProtocol ++ str "://" ++ hostname ++ str ":4000/api";
       str "http://localhost:4000/api";
       str "http://127.0.0.1:4000/api"]
    else [] in
  let same_origin :=
    match hostname with
    | [] => []
    | _ :: _ => [str "/api"]
    end in
  let candidates :=
    match current with
    | [] => local ++ same_origin
    | _ :: _ => current :: local ++ same_origin
    end in
  unique_from [] (List.filter non_empty (List.map normalizeApiBase candidates)).

(** ** The upload routes as they are registered (routes.js)

    Each of the two is [router.post(path, uploadSingleFile, handler)]:
    the handler runs only when the upload middleware has let the
    request through.  The threshold of the issue route and of the
    status route is
    [Number(process.env.ISSUE_MIN_RECOMMENDED_MICROALGOS || 350000)],
    a number of JavaScript: it is NaN when the text of the variable is
    no number, and then every comparison with it is false. *)

From Stdlib Require QArith.QArith_base.

Module Server.

Import Codec Backend.

(** A number of JavaScript: a rational, an infinity or NaN. *)
Inductive jsnumber :=
| NaN
| Infinity (positive : bool)
| Finite (q : QArith_base.Q).

(** [a >= t] and [a < t] for an integer [a]. *)
Definition at_least (a : Z) (t : jsnumber) : bool :=
  match t with
  | NaN => false
  | Infinity positive => negb positive
  | Finite q =>
    QArith_base.Qnum q <=? a * Z.pos (QArith_base.Qden q)
  end.

Definition below (a : Z) (t : jsnumber) : bool :=
  match t with
  | NaN => false
  | Infinity positive => positive
  | Finite q =>
    a * Z.pos (QArith_base.Qden q) <? QArith_base.Qnum q
  end.

(** What [upload.single("file")] hands to its callback: no error, with
    the request as multer has filled it, or an error of multer with
    its code and its message, or another error. *)
Inductive Uploaded :=
| Parsed (req : Request)
| MulterError (code message : jsstring)
| UploadError (error : Error).

Definition is_oversize (u : Uploaded) : bool :=
  match u with
  | MulterError code _ => str_eqb code (str "LIMIT_FILE_SIZE")
  | _ => false
  end.

Inductive Body :=
| Message (error : jsstring)
| ShortBalance (error issuer : jsstring) (amount : Z)
    (requiredForIssue : jsnumber) (fundingUrl : jsstring)
| ShortFees (error issuer : jsstring) (requiredForIssue : jsnumber)
    (fundingUrl : jsstring)
| Issued (message : jsstring) (proof : IssuedProof)
| Status (address : option jsstring) (amount minBalance spendable : Z)
    (canIssue : bool) (requiredForIssue : jsnumber) (fundingUrl : jsstring)
    (configurationError : option jsstring).

(** A JSON response with its status, the error handed to [next], or an
    error thrown out of a [catch] block. *)
Inductive Outcome :=
| Answer (status : Z) (body : Body)
| Handed (error : Error)
| Thrown (error : Error).

Section WithWorld.
Context `{RT : Runtime} (W : World).

(** [to_number] is [Number] on the text of an environment variable,
    [env_threshold] the text of
    [ISSUE_MIN_RECOMMENDED_MICROALGOS], and [maxFileSizeMb] the text
    that the template gives for
    [Number(process.env.MAX_FILE_SIZE_MB || 10)]. *)
Context (to_number : jsstring -> jsnumber) (env_threshold : option jsstring)
  (maxFileSizeMb : jsstring).

Definition issueMinRecommendedMicroAlgos : jsnumber :=
  match env_threshold with
  | Some (c :: text) => to_number (c :: text)
  | _ => Finite (QArith_base.Qmake 350000 1)
  end.

(** [uploadSingleFile]: the middleware answers with a status and an
    error message, or hands an error on, or lets the request through
    to the handler. *)
Inductive Passage :=
| Refuse (status : Z) (error : jsstring)
| PassOn (error : Error)
| Continue (req : Request).

Definition uploadSingleFile (u : Uploaded) : Passage :=
  match u with
  | Parsed req => Continue req
  | MulterError code message =>
    if str_eqb code (str "LIMIT_FILE_SIZE") then
      Refuse 413 (str "File exceeds the " ++ maxFileSizeMb
                  ++ str "MB size limit")
    else Refuse 400 message
  | UploadError error => PassOn error
  end.

(** [buildIssuerStatus] and [router.get("/issuer/status", ...)]. *)
Definition issuer_status (log : list Call) : Outcome * list Call :=
  match fetchIssuerAccountState W log with
  | (Ok accountState, log') =>
    (Answer 200
       (Status (Some (address accountState)) (amount accountState)
          (minBalance accountState) (spendable accountState)
          (at_least (amount accountState) issueMinRecommendedMicroAlgos)
          issueMinRecommendedMicroAlgos testnetFundingUrl None), log')
  | (Throw error, log') =>
    if Routes.isMissingMnemonicError error
    then (Answer 200
            (Status None 0 0 0 false issueMinRecommendedMicroAlgos
               testnetFundingUrl (message error)), log')
    else (Handed error, log')
  end.

(** The handler of [router.post("/proofs/issue", ...)]: the body inside
    [try]. *)
Definition issue_body (req : Request) : M Outcome :=
  match file req with
  | Some f =>
    match buffer f, originalname f with
    | Some fileBuffer, _ :: _ =>
      if blank (env_ALGORAND_MNEMONIC W) then
        ret (Answer 400 (Message (str
          "ALGORAND_MNEMONIC is missing in backend/.env. Add a funded TestNet mnemonic and restart the backend.")))
      else
        issuerState ← fetchIssuerAccountState W;
        if below (amount issuerState) issueMinRecommendedMicroAlgos then
          ret (Answer 400
                 (ShortBalance insufficient_balance_message
                    (address issuerState) (amount issuerState)
                    issueMinRecommendedMicroAlgos testnetFundingUrl))
        else
          let referenceLabel :=
            str_or_null (Some (trim (str_or (body_label req) []))) in
          let hash := computeSHA256 fileBuffer in
          proofTransaction ← createProofTransaction W hash
            {| fileName := originalname f; mimeType := mimetype f;
               fileSize := size f; referenceLabel := referenceLabel |};
          assetTransaction ← mintProofAsset W hash
            {| fileName := originalname f; mimeType := None;
               fileSize := None; referenceLabel := referenceLabel |};
          t ← now W;
          ret (Answer 201
                 (Issued (str "Proof issued successfully")
                    {| ip_id := pt_txId proofTransaction;
                       ip_fileName := originalname f;
                       ip_referenceLabel := referenceLabel;
                       ip_mimeType := mimetype f;
                       ip_fileSize := size f;
                       ip_hash := hash;
                       ip_transactionId := pt_txId proofTransaction;
                       ip_transactionRound := pt_confirmedRound proofTransaction;
                       ip_assetId := at_assetId assetTransaction;
                       ip_assetTransactionId := at_txId assetTransaction;
                       ip_issuedAt := t |}))
    | _, _ =>
      ret (Answer 400 (Message (str "A valid file upload is required")))
    end
  | None => ret (Answer 400 (Message (str "A valid file upload is required")))
  end.

(** The handler with its [catch] block. *)
Definition issue_handler (req : Request) (log : list Call)
  : Outcome * list Call :=
  match issue_body req log with
  | (Ok out, log') => (out, log')
  | (Throw error, log') =>
    if isInsufficientFundsError error then
      match getIssuerAddress W with
      | Ok issuer =>
        (Answer 400
           (ShortFees
              (str "Issuer wallet has insufficient TestNet ALGO balance to pay network fees.")
              issuer issueMinRecommendedMicroAlgos testnetFundingUrl), log')
      | Throw e => (Thrown e, log')
      end
    else (Handed error, log')
  end.

(** [router.post("/proofs/issue", uploadSingleFile, handler)]. *)
Definition issue_route (u : Uploaded) (log : list Call)
  : Outcome * list Call :=
  match uploadSingleFile u with
  | Refuse status error => (Answer status (Message error), log)
  | PassOn error => (Handed error, log)
  | Continue req => issue_handler req log
  end.

(** [router.post("/proofs/verify", uploadSingleFile, handler)]. *)
Definition verify_route (u : Uploaded) (log : list Call)
  : Backend.Outcome * list Call :=
  match uploadSingleFile u with
  | Refuse status error => (Respond status (ErrorBody error), log)
  | PassOn error => (Next error, log)
  | Continue req => verify W req log
  end.

End WithWorld.
End Server.

(** [Number] as it reads a text that is no number, and an upload that
    multer refuses for its size. *)
Definition no_number (text : jsstring) : Server.jsnumber := Server.NaN.

Definition sample_oversize : Server.Uploaded :=
  Server.MulterError (str "LIMIT_FILE_SIZE") (str "File too large").

(** * Properties *)

(** ** The stable sort *)

Section SortFacts.
Context {A : Type} (key : A -> Z).

Lemma sort_insert_perm (cmp : A -> A -> Z) x l :
  Permutation (sort_insert cmp x l) (x :: l).
Proof.
  induction l as [|y l IH]; simpl; [reflexivity|].
  destruct (cmp x y <=? 0); [reflexivity|].
  rewrite IH. apply perm_swap.
Qed.

Lemma array_sort_perm (cmp : A -> A -> Z) l :
  Permutation (array_sort cmp l) l.
Proof.
  induction l as [|x l IH]; simpl; [reflexivity|].
  rewrite sort_insert_perm. now apply perm_skip.
Qed.

Lemma sort_insert_sorted x l :
  StronglySorted (desc key) l -> StronglySorted (desc key) (sort_insert (desc_by key) x l).
Proof.
  induction 1 as [|y l Hs IH Hy]; simpl.
  - repeat constructor.
  - unfold desc_by at 1. destruct (Z.leb_spec (key y - key x) 0) as [Hle|Hgt].
    + constructor; [now constructor|].
      constructor; [unfold desc; lia|].
      eapply List.Forall_impl; [|exact Hy]. unfold desc. intros; lia.
    + constructor; [exact IH|].
      rewrite sort_insert_perm.
      constructor; [unfold desc; lia|exact Hy].
Qed.

Lemma array_sort_sorted l : StronglySorted (desc key) (array_sort (desc_by key) l).
Proof.
  induction l as [|x l IH]; simpl; [constructor|].
  now apply sort_insert_sorted.
Qed.

Lemma sort_insert_filter k x l :
  List.filter (fun a => key a =? k) (sort_insert (desc_by key) x l)
  = List.filter (fun a => key a =? k) (x :: l).
Proof.
  induction l as [|y l IH]; [reflexivity|].
  cbn [sort_insert]. unfold desc_by at 1.
  destruct (Z.leb_spec (key y - key x) 0) as [Hle|Hgt]; [reflexivity|].
  cbn [List.filter] in *. rewrite IH.
  destruct (Z.eqb_spec (key x) k), (Z.eqb_spec (key y) k); try reflexivity.
  lia.
Qed.

Lemma array_sort_stable k l :
  List.filter (fun a => key a =? k) (array_sort (desc_by key) l)
  = List.filter (fun a => key a =? k) l.
Proof.
  induction l as [|x l IH]; [reflexivity|].
  cbn [array_sort]. rewrite sort_insert_filter.
  cbn [List.filter]. now rewrite IH.
Qed.

Lemma sorted_head_max x l z :
  StronglySorted (desc key) (x :: l) -> In z (x :: l) -> key z <= key x.
Proof.
  intros Hs [->|Hz]; [lia|].
  apply StronglySorted_inv in Hs as [_ Hx].
  rewrite List.Forall_forall in Hx. exact (Hx z Hz).
Qed.

Lemma filter_head_in k (x : A) l l' :
  List.filter (fun a => key a =? k) l = x :: l' -> In x l /\ key x = k.
Proof.
  intros H.
  assert (In x (List.filter (fun a => key a =? k) l)) as Hin
    by (rewrite H; now left).
  apply filter_In in Hin as [Hin Hk]. split; [exact Hin|now apply Z.eqb_eq].
Qed.

(** A sorted array is determined by the order of the elements of each
    key: whatever stable sort the engine runs, it returns what
    [array_sort] returns. *)
Lemma sorted_stable_unique l1 : forall l2,
  StronglySorted (desc key) l1 -> StronglySorted (desc key) l2 ->
  (forall k, List.filter (fun a => key a =? k) l1
             = List.filter (fun a => key a =? k) l2) ->
  l1 = l2.
Proof.
  induction l1 as [|x l1 IH]; intros l2 H1 H2 Hf.
  - destruct l2 as [|y l2]; [reflexivity|].
    specialize (Hf (key y)). cbn in Hf. now rewrite Z.eqb_refl in Hf.
  - destruct l2 as [|y l2].
    { specialize (Hf (key x)). cbn in Hf. now rewrite Z.eqb_refl in Hf. }
    assert (key y <= key x) as Hyx.
    { pose proof (Hf (key y)) as E. cbn [List.filter] in E.
      rewrite (Z.eqb_refl (key y)) in E.
      change (if key x =? key y
              then x :: List.filter (fun a => key a =? key y) l1
              else List.filter (fun a => key a =? key y) l1)
        with (List.filter (fun a => key a =? key y) (x :: l1)) in E.
      apply filter_head_in in E as [Hin _].
      now apply (sorted_head_max x l1 y). }
    assert (key x <= key y) as Hxy.
    { pose proof (Hf (key x)) as E. cbn [List.filter] in E.
      rewrite (Z.eqb_refl (key x)) in E. symmetry in E.
      change (if key y =? key x
              then y :: List.filter (fun a => key a =? key x) l2
              else List.filter (fun a => key a =? key x) l2)
        with (List.filter (fun a => key a =? key x) (y :: l2)) in E.
      apply filter_head_in in E as [Hin _].
      now apply (sorted_head_max y l2 x). }
    assert (key x = key y) as Hk by lia.
    pose proof (Hf (key x)) as E. cbn [List.filter] in E.
    rewrite Z.eqb_refl, <- Hk, Z.eqb_refl in E. injection E as -> E.
    f_equal. apply IH.
    + now apply StronglySorted_inv in H1.
    + now apply StronglySorted_inv in H2.
    + intros k. specialize (Hf k). cbn [List.filter] in Hf.
      destruct (key y =? k); [now injection Hf|exact Hf].
Qed.

Lemma array_sort_unique l l' :
  StronglySorted (desc key) l' ->
  (forall k, List.filter (fun a => key a =? k) l'
             = List.filter (fun a => key a =? k) l) ->
  l' = array_sort (desc_by key) l.
Proof.
  intros Hs Hf. apply sorted_stable_unique; [exact Hs|apply array_sort_sorted|].
  intros k. now rewrite array_sort_stable.
Qed.

End SortFacts.

(** ** History reconstruction *)

Module HistoryFacts.
Import History.

Lemma is_asset_entry_inv t :
  is_asset_entry t = true ->
  exists h a, hash t = Some h /\ assetId t = Some a /\ a <> 0 /\ h <> [].
Proof.
  unfold is_asset_entry. intros H.
  apply andb_prop in H as [H Ha]. apply andb_prop in H as [_ Hh].
  destruct (hash t) as [[|c h]|]; try discriminate.
  destruct (assetId t) as [a|]; try discriminate.
  exists (c :: h), a. repeat split; try discriminate.
  simpl in Ha. destruct (Z.eqb_spec a 0); [discriminate|assumption].
Qed.

Lemma record_asset_entry m t F a :
  is_asset_entry t = true -> hash t = Some F -> assetId t = Some a ->
  record_asset m t = <[F := a]> m.
Proof. intros H Hh Ha. unfold record_asset. now rewrite H, Hh, Ha. Qed.

Lemma record_asset_other m t F :
  (is_asset_entry t = true -> hash t <> Some F) ->
  record_asset m t !! F = m !! F.
Proof.
  intros H. unfold record_asset.
  destruct (is_asset_entry t) eqn:E; [|reflexivity].
  destruct (hash t) as [h|] eqn:Hh; [|reflexivity].
  destruct (assetId t) as [a|]; [|reflexivity].
  apply lookup_insert_ne. intros ->. now apply H.
Qed.

Lemma fold_record_asset_other l : forall m F,
  (forall t, In t l -> is_asset_entry t = true -> hash t <> Some F) ->
  fold_left record_asset l m !! F = m !! F.
Proof.
  induction l as [|t l IH]; intros m F H; [reflexivity|].
  cbn [fold_left]. rewrite IH.
  - apply record_asset_other. intros. apply H; [now left|assumption].
  - intros t' Hin. apply H. now right.
Qed.

(** The lookup finds the asset id of the last asset entry that carries
    the fingerprint. *)
Lemma assetByHash_last pre ta post F a :
  is_asset_entry ta = true -> hash ta = Some F -> assetId ta = Some a ->
  (forall t, In t post -> is_asset_entry t = true -> hash t <> Some F) ->
  assetByHash (pre ++ ta :: post) !! F = Some a.
Proof.
  intros Hta Hh Ha Hpost. unfold assetByHash.
  rewrite fold_left_app. cbn [fold_left].
  rewrite fold_record_asset_other by assumption.
  rewrite (record_asset_entry _ _ F a) by assumption.
  apply lookup_insert_eq.
Qed.

(** Whatever the lookup holds comes from an asset entry of the window. *)
Lemma fold_record_asset_some l : forall m F a,
  fold_left record_asset l m !! F = Some a ->
  m !! F = Some a \/
  exists ta, In ta l /\ is_asset_entry ta = true /\ hash ta = Some F
             /\ assetId ta = Some a.
Proof.
  induction l as [|t l IH]; intros m F a H; [now left|].
  cbn [fold_left] in H. apply IH in H as [H|(ta & Hin & H)].
  - unfold record_asset in H.
    destruct (is_asset_entry t) eqn:E; [|now left].
    destruct (hash t) as [h|] eqn:Hh; [|now left].
    destruct (assetId t) as [b|] eqn:Hb; [|now left].
    destruct (decide (h = F)) as [->|Hne].
    + rewrite lookup_insert_eq in H. injection H as ->.
      right. exists t. repeat split; try assumption. now left.
    + rewrite lookup_insert_ne in H by assumption. now left.
  - right. exists ta. split; [now right|assumption].
Qed.

Lemma assetByHash_some txs F a :
  assetByHash txs !! F = Some a ->
  exists ta, In ta txs /\ is_asset_entry ta = true /\ hash ta = Some F
             /\ assetId ta = Some a.
Proof.
  intros H. apply fold_record_asset_some in H as [H|H]; [|exact H].
  now rewrite lookup_empty in H.
Qed.

Lemma assetByHash_none txs F :
  (forall t, In t txs -> is_asset_entry t = true -> hash t <> Some F) ->
  assetByHash txs !! F = None.
Proof.
  intros H. unfold assetByHash. rewrite fold_record_asset_other by assumption.
  apply lookup_empty.
Qed.

(** A window with an asset entry for [F] splits at the last one. *)
Lemma last_asset_entry txs F :
  (exists ta, In ta txs /\ is_asset_entry ta = true /\ hash ta = Some F) ->
  exists pre ta post,
    txs = pre ++ ta :: post /\ is_asset_entry ta = true /\ hash ta = Some F
    /\ forall t, In t post -> is_asset_entry t = true -> hash t <> Some F.
Proof.
  induction txs as [|t txs IH]; intros (ta & Hin & Hta & Hh); [destruct Hin|].
  destruct (existsb (fun u => is_asset_entry u && bool_decide (hash u = Some F)) txs)
    eqn:E.
  - apply existsb_exists in E as (u & Hu & E).
    apply andb_prop in E as [E1 E2]. apply bool_decide_eq_true in E2.
    destruct IH as (pre & tb & post & -> & H1 & H2 & H3); [now exists u|].
    exists (t :: pre), tb, post. now repeat split.
  - destruct Hin as [->|Hin].
    + exists [], ta, txs. repeat split; try assumption.
      intros u Hu Hasset Hhash.
      assert (existsb (fun u => is_asset_entry u && bool_decide (hash u = Some F)) txs
              = true) as X; [|congruence].
      apply existsb_exists. exists u. split; [assumption|].
      rewrite Hasset. now apply bool_decide_eq_true.
    + assert (existsb (fun u => is_asset_entry u && bool_decide (hash u = Some F)) txs
              = true) as X; [|congruence].
      apply existsb_exists. exists ta. split; [assumption|].
      rewrite Hta. now apply bool_decide_eq_true.
Qed.

Lemma in_derive txs r :
  In r (deriveProofsFromTransactions txs) <->
  exists t, In t txs /\ is_proof_entry t = true
            /\ r = to_record (assetByHash txs) t.
Proof.
  unfold deriveProofsFromTransactions.
  split.
  - intros H. eapply Permutation_in in H; [|apply array_sort_perm].
    unfold mapped_proofs in H. apply in_map_iff in H as (t & <- & Ht).
    apply filter_In in Ht as [Ht1 Ht2]. now exists t.
  - intros (t & Ht1 & Ht2 & ->).
    eapply Permutation_in; [symmetry; apply array_sort_perm|].
    unfold mapped_proofs. apply in_map. now apply filter_In.
Qed.

Lemma asset_lookup_some m F a :
  m !! F = Some a -> a <> 0 -> asset_lookup m (Some F) = Some a.
Proof.
  intros H Ha. unfold asset_lookup, num_or_null. rewrite H. simpl.
  destruct (Z.eqb_spec a 0); [contradiction|reflexivity].
Qed.



(** C9.  The records come sorted by descending confirmation round (the
    key is [transactionRound || 0]), and the records of one round stand
    in the order in which their transactions stand in the window. *)
Theorem derive_sorted_by_round_stable txs :
  StronglySorted (desc round_key) (deriveProofsFromTransactions txs)
  /\ forall k,
       List.filter (fun r => round_key r =? k) (deriveProofsFromTransactions txs)
       = List.filter (fun r => round_key r =? k) (mapped_proofs txs).
Proof.
  split.
  - apply (array_sort_sorted round_key).
  - intros k. apply (array_sort_stable round_key).
Qed.



End HistoryFacts.

(** ** UTF-8 *)

Module Utf8Facts.

Lemma to_N_byte_of_N n : (n < 256)%N -> Byte.to_N (byte_of_N n) = n.
Proof.
  intros H. unfold byte_of_N.
  destruct (Byte.of_N n) as [b|] eqn:E.
  - cbn. now apply Byte.to_of_N.
  - apply Byte.of_N_None_iff in E. lia.
Qed.

Lemma in_range_true lo hi x : (lo <= x <= hi)%N -> in_range lo hi x = true.
Proof.
  intros [H1 H2]. unfold in_range.
  apply andb_true_intro. split; now apply N.leb_le.
Qed.

Lemma in_range_false lo hi x : (x < lo \/ hi < x)%N -> in_range lo hi x = false.
Proof.
  intros H. unfold in_range. apply andb_false_iff.
  destruct H; [left|right]; now apply N.leb_gt.
Qed.

Lemma in_range_spec lo hi x : in_range lo hi x = true <-> (lo <= x <= hi)%N.
Proof.
  unfold in_range. rewrite andb_true_iff, !N.leb_le. reflexivity.
Qed.

Lemma in_range_nspec lo hi x :
  in_range lo hi x = false <-> (x < lo \/ hi < x)%N.
Proof.
  unfold in_range. rewrite andb_false_iff, !N.leb_gt. reflexivity.
Qed.

(** The decoder on each well-formed sequence. *)
Lemma decode_1 b r :
  (Byte.to_N b < 0x80)%N -> utf8_decode (b :: r) = Byte.to_N b :: utf8_decode r.
Proof. intros H. cbn [utf8_decode]. apply N.ltb_lt in H. now rewrite H. Qed.

Lemma decode_2 b0 b1 r :
  (0xC2 <= Byte.to_N b0 <= 0xDF)%N -> (0x80 <= Byte.to_N b1 <= 0xBF)%N ->
  utf8_decode (b0 :: b1 :: r)
  = ((Byte.to_N b0 - 0xC0) * 64 + (Byte.to_N b1 - 0x80))%N :: utf8_decode r.
Proof.
  intros H0 H1. cbn [utf8_decode].
  replace (Byte.to_N b0 <? 0x80)%N with false by (symmetry; apply N.ltb_ge; lia).
  rewrite (in_range_true 0xC2 0xDF) by assumption.
  unfold is_continuation. now rewrite in_range_true by assumption.
Qed.

Lemma decode_3 b0 b1 b2 r :
  (0xE0 <= Byte.to_N b0 <= 0xEF)%N ->
  ((if (Byte.to_N b0 =? 0xE0)%N then 0xA0 else 0x80) <= Byte.to_N b1
   <= (if (Byte.to_N b0 =? 0xED)%N then 0x9F else 0xBF))%N ->
  (0x80 <= Byte.to_N b2 <= 0xBF)%N ->
  utf8_decode (b0 :: b1 :: b2 :: r)
  = ((Byte.to_N b0 - 0xE0) * 4096 + (Byte.to_N b1 - 0x80) * 64
     + (Byte.to_N b2 - 0x80))%N :: utf8_decode r.
Proof.
  intros H0 H1 H2. cbn [utf8_decode].
  replace (Byte.to_N b0 <? 0x80)%N with false by (symmetry; apply N.ltb_ge; lia).
  rewrite (in_range_false 0xC2 0xDF) by lia.
  rewrite (in_range_true 0xE0 0xEF) by assumption.
  rewrite in_range_true by assumption.
  unfold is_continuation. now rewrite in_range_true by assumption.
Qed.

Lemma decode_4 b0 b1 b2 b3 r :
  (0xF0 <= Byte.to_N b0 <= 0xF4)%N ->
  ((if (Byte.to_N b0 =? 0xF0)%N then 0x90 else 0x80) <= Byte.to_N b1
   <= (if (Byte.to_N b0 =? 0xF4)%N then 0x8F else 0xBF))%N ->
  (0x80 <= Byte.to_N b2 <= 0xBF)%N -> (0x80 <= Byte.to_N b3 <= 0xBF)%N ->
  utf8_decode (b0 :: b1 :: b2 :: b3 :: r)
  = units_of_code_point
      ((Byte.to_N b0 - 0xF0) * 262144 + (Byte.to_N b1 - 0x80) * 4096
       + (Byte.to_N b2 - 0x80) * 64 + (Byte.to_N b3 - 0x80))%N
    ++ utf8_decode r.
Proof.
  intros H0 H1 H2 H3. cbn [utf8_decode].
  replace (Byte.to_N b0 <? 0x80)%N with false by (symmetry; apply N.ltb_ge; lia).
  rewrite (in_range_false 0xC2 0xDF) by lia.
  rewrite (in_range_false 0xE0 0xEF) by lia.
  rewrite (in_range_true 0xF0 0xF4) by assumption.
  rewrite in_range_true by assumption.
  unfold is_continuation. now rewrite !in_range_true by assumption.
Qed.

(** Decoding undoes the encoding of a scalar value of the basic plane. *)
Lemma decode_code_point_bmp c r :
  (c < 0x10000)%N -> (c < 0xD800 \/ 0xDFFF < c)%N ->
  utf8_decode (utf8_of_code_point c ++ r) = c :: utf8_decode r.
Proof.
  intros Hc Hs. unfold utf8_of_code_point.
  destruct (N.ltb_spec c 0x80) as [H1|H1].
  - cbn [app]. rewrite decode_1; rewrite to_N_byte_of_N; try lia. reflexivity.
  - destruct (N.ltb_spec c 0x800) as [H2|H2].
    + cbn [app]. rewrite decode_2; rewrite ?to_N_byte_of_N; try lia.
      f_equal. lia.
    + destruct (N.ltb_spec c 0x10000) as [H3|H3]; [|lia].
      cbn [app]. rewrite decode_3; rewrite ?to_N_byte_of_N; try lia.
      * f_equal. lia.
      * destruct (N.eqb_spec (0xE0 + c / 4096) 0xE0),
                 (N.eqb_spec (0xE0 + c / 4096) 0xED); lia.
Qed.

Lemma decode_code_point_pair u v r :
  (0xD800 <= u <= 0xDBFF)%N -> (0xDC00 <= v <= 0xDFFF)%N ->
  utf8_decode
    (utf8_of_code_point (0x10000 + (u - 0xD800) * 1024 + (v - 0xDC00))%N ++ r)
  = u :: v :: utf8_decode r.
Proof.
  intros Hu Hv. unfold utf8_of_code_point.
  set (c := (0x10000 + (u - 0xD800) * 1024 + (v - 0xDC00))%N).
  assert (0x10000 <= c <= 0x10FFFF)%N as Hc by (unfold c; lia).
  destruct (N.ltb_spec c 0x80); [lia|].
  destruct (N.ltb_spec c 0x800); [lia|].
  destruct (N.ltb_spec c 0x10000); [lia|].
  cbn [app]. rewrite decode_4; rewrite ?to_N_byte_of_N; try lia.
  - replace ((0xF0 + c / 262144 - 0xF0) * 262144
             + (0x80 + (c / 4096) mod 64 - 0x80) * 4096
             + (0x80 + (c / 64) mod 64 - 0x80) * 64
             + (0x80 + c mod 64 - 0x80))%N with c by lia.
    unfold units_of_code_point.
    destruct (N.ltb_spec c 0x10000); [lia|].
    cbn [app]. f_equal; [unfold c; lia|]. f_equal. unfold c; lia.
  - destruct (N.eqb_spec (0xF0 + c / 262144) 0xF0),
             (N.eqb_spec (0xF0 + c / 262144) 0xF4); lia.
Qed.

(** Induction that follows the pairs of a string. *)
Lemma pair_induction (P : jsstring -> Prop) :
  P [] -> (forall u, P [u]) ->
  (forall u v s, P s -> P (v :: s) -> P (u :: v :: s)) ->
  forall s, P s.
Proof.
  intros H0 H1 H2 s.
  assert (P s /\ forall u, P (u :: s)) as [H _]; [|exact H].
  induction s as [|v s [IH1 IH2]]; [split; [exact H0|exact H1]|].
  split; [apply IH2|]. intros u. apply H2; [exact IH1|apply IH2].
Qed.

Lemma utf8_encode_plain u r :
  is_high_surrogate u = false -> is_low_surrogate u = false ->
  utf8_encode (u :: r) = utf8_of_code_point u ++ utf8_encode r.
Proof. intros Hh Hl. cbn [utf8_encode]. now rewrite Hh, Hl. Qed.

Lemma utf8_encode_pair u v r :
  is_high_surrogate u = true -> is_low_surrogate v = true ->
  utf8_encode (u :: v :: r)
  = utf8_of_code_point (0x10000 + (u - 0xD800) * 1024 + (v - 0xDC00))%N
    ++ utf8_encode r.
Proof. intros Hh Hl. cbn [utf8_encode]. now rewrite Hh, Hl. Qed.

Lemma well_formed_plain u r :
  is_high_surrogate u = false -> is_low_surrogate u = false ->
  well_formed (u :: r) = (u <? 0x10000)%N && well_formed r.
Proof. intros Hh Hl. cbn [well_formed]. now rewrite Hh, Hl. Qed.

Lemma well_formed_high u r :
  is_high_surrogate u = true ->
  well_formed (u :: r)
  = match r with
    | v :: r' => is_low_surrogate v && well_formed r'
    | [] => false
    end.
Proof. intros Hh. cbn [well_formed]. now rewrite Hh. Qed.

Lemma well_formed_low u r :
  is_high_surrogate u = false -> is_low_surrogate u = true ->
  well_formed (u :: r) = false.
Proof. intros Hh Hl. cbn [well_formed]. now rewrite Hh, Hl. Qed.

Lemma utf8_roundtrip s :
  well_formed s = true -> utf8_decode (utf8_encode s) = s.
Proof.
  induction s as [|u|u v s IH1 IH2] using pair_induction.
  - reflexivity.
  - destruct (is_high_surrogate u) eqn:Hh.
    { now rewrite well_formed_high. }
    destruct (is_low_surrogate u) eqn:Hl.
    { now rewrite well_formed_low. }
    rewrite well_formed_plain, utf8_encode_plain by assumption.
    intros H. apply andb_prop in H as [H _]. apply N.ltb_lt in H.
    apply in_range_nspec in Hh, Hl.
    rewrite decode_code_point_bmp by lia. reflexivity.
  - destruct (is_high_surrogate u) eqn:Hh.
    + rewrite well_formed_high by assumption.
      destruct (is_low_surrogate v) eqn:Hl; [|discriminate].
      cbn [andb]. intros H. rewrite utf8_encode_pair by assumption.
      apply in_range_spec in Hh, Hl.
      rewrite decode_code_point_pair by assumption.
      now rewrite IH1.
    + destruct (is_low_surrogate u) eqn:Hl.
      { now rewrite well_formed_low. }
      rewrite well_formed_plain, utf8_encode_plain by assumption.
      intros H. apply andb_prop in H as [H H'].
      apply N.ltb_lt in H. apply in_range_nspec in Hh, Hl.
      rewrite decode_code_point_bmp by lia. now rewrite IH2.
Qed.

Lemma well_formed_app a b :
  well_formed a = true -> well_formed (a ++ b) = well_formed b.
Proof.
  induction a as [|u|u v s IH1 IH2] using pair_induction.
  - reflexivity.
  - cbn [app]. destruct (is_high_surrogate u) eqn:Hh.
    { now rewrite well_formed_high. }
    destruct (is_low_surrogate u) eqn:Hl.
    { now rewrite well_formed_low. }
    rewrite !well_formed_plain by assumption.
    intros H. apply andb_prop in H as [-> _]. reflexivity.
  - change ((u :: v :: s) ++ b) with (u :: v :: s ++ b).
    destruct (is_high_surrogate u) eqn:Hh.
    + rewrite !well_formed_high by assumption.
      destruct (is_low_surrogate v); [|discriminate]. exact IH1.
    + destruct (is_low_surrogate u) eqn:Hl.
      { now rewrite well_formed_low. }
      rewrite !(well_formed_plain u) by assumption.
      intros H. apply andb_prop in H as [-> H]. cbn [andb]. now apply IH2.
Qed.

End Utf8Facts.

(** ** JSON: what is written is read back *)

Module JsonFacts.
Import Utf8Facts.

Lemma option_map_app_nil {A} (o : option (list A)) : option_map (app []) o = o.
Proof. now destruct o. Qed.

Lemma option_map_app_app {A} (a b : list A) (o : option (list A)) :
  option_map (app a) (option_map (app b) o) = option_map (app (a ++ b)) o.
Proof. destruct o; cbn; [now rewrite app_assoc|reflexivity]. Qed.

Lemma cons_token_app t (ts : list token) o :
  cons_token t (option_map (app ts) o) = option_map (app (t :: ts)) o.
Proof. now destruct o. Qed.

Lemma lex_cons c r :
  lex (c :: r)
  = if is_json_ws c then lex r
    else if (c =? 123)%N then cons_token TLBrace (lex r)
    else if (c =? 125)%N then cons_token TRBrace (lex r)
    else if (c =? 91)%N then cons_token TLBracket (lex r)
    else if (c =? 93)%N then cons_token TRBracket (lex r)
    else if (c =? 44)%N then cons_token TComma (lex r)
    else if (c =? 58)%N then cons_token TColon (lex r)
    else if (c =? 34)%N then lex_string [] r
    else if (c =? 45)%N then lex_number NMinus [c] r
    else if (c =? 48)%N then lex_number NZero [c] r
    else if is_digit c then lex_number NInt [c] r
    else if (c =? 116)%N then
      match r with
      | 114%N :: 117%N :: 101%N :: r' => cons_token TTrue (lex r')
      | _ => None
      end
    else if (c =? 102)%N then
      match r with
      | 97%N :: 108%N :: 115%N :: 101%N :: r' => cons_token TFalse (lex r')
      | _ => None
      end
    else if (c =? 110)%N then
      match r with
      | 117%N :: 108%N :: 108%N :: r' => cons_token TNull (lex r')
      | _ => None
      end
    else None.
Proof. reflexivity. Qed.

(** The characters that may follow a number, one by one. *)
Lemma after_number_cases c ts :
  after_number c = Some ts ->
  (is_json_ws c = true /\ ts = [])
  \/ (c = 44%N /\ ts = [TComma])
  \/ (c = 93%N /\ ts = [TRBracket])
  \/ (c = 125%N /\ ts = [TRBrace]).
Proof.
  unfold after_number. destruct (is_json_ws c); [intros [= <-]; now left|].
  destruct (N.eqb_spec c 44); [intros [= <-]; right; now left|].
  destruct (N.eqb_spec c 93); [intros [= <-]; right; right; now left|].
  destruct (N.eqb_spec c 125); [intros [= <-]; now repeat right|discriminate].
Qed.

Lemma json_ws_cases c :
  is_json_ws c = true -> c = 0x20%N \/ c = 0x09%N \/ c = 0x0A%N \/ c = 0x0D%N.
Proof.
  unfold is_json_ws. intros H.
  repeat (apply orb_prop in H as [H|H]); apply N.eqb_eq in H; auto.
Qed.

Lemma lex_after_number c ts r :
  after_number c = Some ts -> lex (c :: r) = option_map (app ts) (lex r).
Proof.
  intros H. apply after_number_cases in H as [[H ->]|[[-> ->]|[[-> ->]|[-> ->]]]].
  - rewrite lex_cons, H. now rewrite option_map_app_nil.
  - reflexivity.
  - reflexivity.
  - reflexivity.
Qed.

Lemma num_step_after_number st c ts :
  after_number c = Some ts -> num_step st c = None.
Proof.
  intros H. apply after_number_cases in H as [[H _]|[[-> _]|[[-> _]|[-> _]]]].
  - apply json_ws_cases in H as [->|[->|[->| ->]]]; now destruct st.
  - now destruct st.
  - now destruct st.
  - now destruct st.
Qed.

Lemma lex_number_scan r : forall st acc rest,
  scan_number st r = true -> follow_ok rest ->
  lex_number st acc (r ++ rest)
  = option_map (cons (TNumber (rev acc ++ r))) (lex rest).
Proof.
  induction r as [|c r IH]; intros st acc rest Hscan Hrest.
  - cbn [scan_number] in Hscan. rewrite app_nil_r. cbn [app].
    destruct rest as [|c rest].
    + cbn. now rewrite Hscan.
    + cbn [follow_ok] in Hrest.
      destruct (after_number c) as [ts|] eqn:E; [|contradiction].
      cbn [lex_number]. rewrite (num_step_after_number _ _ _ E), Hscan, E.
      rewrite (lex_after_number _ _ _ E). now destruct (lex rest).
  - cbn [scan_number] in Hscan. cbn [app lex_number].
    destruct (num_step st c) as [st'|]; [|discriminate].
    rewrite IH by assumption. cbn [rev]. now rewrite <- app_assoc.
Qed.

Lemma lex_number_literal lit rest :
  is_number_literal lit = true -> follow_ok rest ->
  lex (lit ++ rest) = option_map (cons (TNumber lit)) (lex rest).
Proof.
  destruct lit as [|c r]; [discriminate|]. cbn [is_number_literal app].
  intros H Hrest. rewrite lex_cons.
  destruct (N.eqb_spec c 45) as [->|H45].
  { cbn. now rewrite lex_number_scan. }
  destruct (N.eqb_spec c 48) as [->|H48].
  { cbn. now rewrite lex_number_scan. }
  destruct (is_digit c) eqn:Hd; [|discriminate].
  apply in_range_spec in Hd.
  replace (is_json_ws c) with false.
  2:{ symmetry. unfold is_json_ws.
      repeat (apply orb_false_intro); apply N.eqb_neq; lia. }
  repeat match goal with
  | |- context [(c =? ?k)%N] => destruct (N.eqb_spec c k); [lia|]
  end.
  now rewrite lex_number_scan.
Qed.

(** *** Strings *)

Lemma hex_digit_hex d :
  (d < 16)%N -> is_hex_digit (hex_digit d) = true /\ hex_value (hex_digit d) = d.
Proof.
  intros H. unfold hex_digit, is_hex_digit, hex_value.
  destruct (N.ltb_spec d 10).
  - rewrite (in_range_true 48 57) by lia. split; [reflexivity|lia].
  - rewrite (in_range_false 48 57) by lia.
    rewrite (in_range_true 97 102) by lia. split; [reflexivity|lia].
Qed.

Lemma lex_string_cons acc c r :
  lex_string acc (c :: r)
  = if (c =? 34)%N then cons_token (TString (rev acc)) (lex r)
    else if (c =? 92)%N then
      match r with
      | [] => None
      | e :: r' =>
        if (e =? 117)%N then
          match r' with
          | h1 :: h2 :: h3 :: h4 :: r'' =>
            if is_hex_digit h1 && is_hex_digit h2
               && is_hex_digit h3 && is_hex_digit h4
            then lex_string
                   ((hex_value h1 * 4096 + hex_value h2 * 256
                     + hex_value h3 * 16 + hex_value h4)%N :: acc) r''
            else None
          | _ => None
          end
        else
          match simple_escape e with
          | Some u => lex_string (u :: acc) r'
          | None => None
          end
      end
    else if (c <? 0x20)%N then None
    else lex_string (c :: acc) r.
Proof. reflexivity. Qed.

Lemma lex_string_raw acc u r :
  u <> 34%N -> u <> 92%N -> (0x20 <= u)%N ->
  lex_string acc (u :: r) = lex_string (u :: acc) r.
Proof.
  intros H1 H2 H3. rewrite lex_string_cons.
  destruct (N.eqb_spec u 34); [contradiction|].
  destruct (N.eqb_spec u 92); [contradiction|].
  destruct (N.ltb_spec u 0x20); [lia|reflexivity].
Qed.

Lemma lex_string_unicode_escape acc u r :
  (u < 0x10000)%N ->
  lex_string acc (unicode_escape u ++ r) = lex_string (u :: acc) r.
Proof.
  intros Hu. unfold unicode_escape. cbn [app]. rewrite lex_string_cons.
  cbn [N.eqb Pos.eqb].
  destruct (hex_digit_hex (u / 4096)) as [A1 A2]; [lia|].
  destruct (hex_digit_hex ((u / 256) mod 16)) as [B1 B2]; [lia|].
  destruct (hex_digit_hex ((u / 16) mod 16)) as [C1 C2]; [lia|].
  destruct (hex_digit_hex (u mod 16)) as [D1 D2]; [lia|].
  rewrite A1, A2, B1, B2, C1, C2, D1, D2. cbn [andb].
  f_equal. f_equal. lia.
Qed.

Lemma lex_string_escape_unit acc u r :
  is_high_surrogate u = false -> is_low_surrogate u = false ->
  lex_string acc (escape_unit u ++ r) = lex_string (u :: acc) r.
Proof.
  intros Hh Hl. unfold escape_unit.
  destruct (N.eqb_spec u 8) as [->|?]; [reflexivity|].
  destruct (N.eqb_spec u 9) as [->|?]; [reflexivity|].
  destruct (N.eqb_spec u 10) as [->|?]; [reflexivity|].
  destruct (N.eqb_spec u 12) as [->|?]; [reflexivity|].
  destruct (N.eqb_spec u 13) as [->|?]; [reflexivity|].
  destruct (N.eqb_spec u 34) as [->|?]; [reflexivity|].
  destruct (N.eqb_spec u 92) as [->|?]; [reflexivity|].
  destruct (N.ltb_spec u 0x20).
  - apply lex_string_unicode_escape. lia.
  - cbn [app]. now apply lex_string_raw.
Qed.

Lemma quote_body_plain u r :
  is_high_surrogate u = false -> is_low_surrogate u = false ->
  quote_body (u :: r) = escape_unit u ++ quote_body r.
Proof. intros Hh Hl. cbn [quote_body]. now rewrite Hh, Hl. Qed.

Lemma quote_body_low u r :
  is_high_surrogate u = false -> is_low_surrogate u = true ->
  quote_body (u :: r) = unicode_escape u ++ quote_body r.
Proof. intros Hh Hl. cbn [quote_body]. now rewrite Hh, Hl. Qed.

Lemma quote_body_pair u v r :
  is_high_surrogate u = true -> is_low_surrogate v = true ->
  quote_body (u :: v :: r) = u :: v :: quote_body r.
Proof. intros Hh Hl. cbn [quote_body]. now rewrite Hh, Hl. Qed.

Lemma quote_body_lone u v r :
  is_high_surrogate u = true -> is_low_surrogate v = false ->
  quote_body (u :: v :: r) = unicode_escape u ++ quote_body (v :: r).
Proof. intros Hh Hl. cbn [quote_body]. now rewrite Hh, Hl. Qed.

Lemma quote_body_last u :
  is_high_surrogate u = true -> quote_body [u] = unicode_escape u.
Proof. intros Hh. cbn [quote_body]. now rewrite Hh. Qed.

Lemma surrogate_bounds u :
  is_high_surrogate u = true \/ is_low_surrogate u = true ->
  (0xD800 <= u < 0x10000)%N.
Proof. intros [H|H]; apply in_range_spec in H; lia. Qed.

Lemma lex_string_body s : forall acc rest,
  lex_string acc (quote_body s ++ 34%N :: rest)
  = cons_token (TString (rev acc ++ s)) (lex rest).
Proof.
  induction s as [|u|u v s IH1 IH2] using pair_induction; intros acc rest.
  - cbn [quote_body app]. rewrite lex_string_cons. cbn. now rewrite app_nil_r.
  - assert (lex_string (u :: acc) (34%N :: rest)
            = cons_token (TString (rev acc ++ [u])) (lex rest)) as Hend.
    { rewrite lex_string_cons. reflexivity. }
    destruct (is_high_surrogate u) eqn:Hh.
    { rewrite quote_body_last by assumption.
      rewrite lex_string_unicode_escape; [exact Hend|].
      apply surrogate_bounds. now left. }
    destruct (is_low_surrogate u) eqn:Hl.
    { rewrite quote_body_low by assumption. cbn [quote_body].
      rewrite app_nil_r, lex_string_unicode_escape; [exact Hend|].
      apply surrogate_bounds. now right. }
    rewrite quote_body_plain by assumption. cbn [quote_body].
    rewrite app_nil_r, lex_string_escape_unit by assumption. exact Hend.
  - destruct (is_high_surrogate u) eqn:Hh.
    + destruct (is_low_surrogate v) eqn:Hl.
      * rewrite quote_body_pair by assumption. cbn [app].
        pose proof (surrogate_bounds u (or_introl Hh)).
        pose proof (surrogate_bounds v (or_intror Hl)).
        rewrite !lex_string_raw by lia. rewrite IH1. cbn [rev].
        now rewrite <- !app_assoc.
      * rewrite quote_body_lone by assumption. rewrite <- app_assoc.
        rewrite lex_string_unicode_escape
          by (apply surrogate_bounds; now left).
        rewrite IH2. cbn [rev]. now rewrite <- app_assoc.
    + destruct (is_low_surrogate u) eqn:Hl.
      * rewrite quote_body_low by assumption. rewrite <- app_assoc.
        rewrite lex_string_unicode_escape
          by (apply surrogate_bounds; now right).
        rewrite IH2. cbn [rev]. now rewrite <- app_assoc.
      * rewrite quote_body_plain by assumption. rewrite <- app_assoc.
        rewrite lex_string_escape_unit by assumption.
        rewrite IH2. cbn [rev]. now rewrite <- app_assoc.
Qed.

Lemma lex_quote s rest :
  lex (quote s ++ rest) = cons_token (TString s) (lex rest).
Proof.
  unfold quote. cbn [app]. rewrite lex_cons. cbn [is_json_ws N.eqb Pos.eqb orb].
  rewrite <- app_assoc. cbn [app]. now rewrite lex_string_body.
Qed.

(** *** Values *)

Lemma reads_as_null : reads_as (str "null") JNull.
Proof.
  exists TNull, []. split; [discriminate|]. split; [|reflexivity].
  intros rest _.
  change (str "null" ++ rest) with (110%N :: 117%N :: 108%N :: 108%N :: rest).
  rewrite lex_cons.
  now destruct (lex rest).
Qed.

Lemma reads_as_true : reads_as (str "true") (JBool true).
Proof.
  exists TTrue, []. split; [discriminate|]. split; [|reflexivity].
  intros rest _.
  change (str "true" ++ rest) with (116%N :: 114%N :: 117%N :: 101%N :: rest).
  rewrite lex_cons.
  now destruct (lex rest).
Qed.

Lemma reads_as_false : reads_as (str "false") (JBool false).
Proof.
  exists TFalse, []. split; [discriminate|]. split; [|reflexivity].
  intros rest _.
  change (str "false" ++ rest) with (102%N :: 97%N :: 108%N :: 115%N :: 101%N :: rest).
  rewrite lex_cons.
  now destruct (lex rest).
Qed.

Lemma reads_as_number lit :
  is_number_literal lit = true -> reads_as lit (JNum lit).
Proof.
  intros H. exists (TNumber lit), []. split; [discriminate|].
  split; [|reflexivity]. intros rest Hrest. now apply lex_number_literal.
Qed.

Lemma reads_as_string s : reads_as (quote s) (JStr s).
Proof.
  exists (TString s), []. split; [discriminate|]. split; [|reflexivity].
  intros rest _. apply lex_quote.
Qed.

Lemma join_comma_cons p ps :
  join_comma (p :: ps) = p ++ List.concat (List.map (cons 44%N) ps).
Proof.
  revert p. induction ps as [|q ps IH]; intros p.
  - cbn. now rewrite app_nil_r.
  - change (join_comma (p :: q :: ps)) with (p ++ 44%N :: join_comma (q :: ps)).
    rewrite IH. reflexivity.
Qed.

Lemma parse_run_app st ts rest :
  parse_run st (ts ++ rest)
  = match parse_run st ts with
    | Some st' => parse_run st' rest
    | None => None
    end.
Proof.
  revert st. induction ts as [|t ts IH]; intros st; [reflexivity|].
  cbn [app parse_run]. destruct (parse_step st t); [apply IH|reflexivity].
Qed.

Lemma parse_run_step st t st' ts :
  parse_step st t = Some st' -> parse_run st (t :: ts) = parse_run st' ts.
Proof. intros H. cbn [parse_run]. now rewrite H. Qed.

(** After an element of an array: the elements that remain and the
    closing bracket. *)
Lemma elements_tail texts vals :
  Forall2 reads_as texts vals ->
  exists ts,
    (forall rest,
       lex (List.concat (List.map (cons 44%N) texts) ++ 93%N :: rest)
       = option_map (app ts) (lex rest))
    /\ (forall done stk rest,
          parse_run (SArrAfter done stk) (ts ++ rest)
          = parse_run (push_value (JArr (rev done ++ vals)) stk) rest).
Proof.
  induction 1 as [|text v texts vals (t & ts & Ht & Hlex & Hparse) _
                   (ts' & Hlex' & Hparse')].
  - exists [TRBracket]. split.
    + intros rest. cbn [List.map List.concat app]. rewrite lex_cons. cbn.
      now destruct (lex rest).
    + intros done stk rest. cbn. now rewrite app_nil_r.
  - exists (TComma :: (t :: ts) ++ ts'). split.
    + intros rest. cbn [List.map List.concat app]. rewrite lex_cons.
      cbn [is_json_ws N.eqb Pos.eqb orb]. rewrite <- !app_assoc.
      rewrite Hlex.
      * rewrite Hlex', option_map_app_app. apply cons_token_app.
      * destruct texts; cbn; discriminate.
    + intros done stk rest.
      replace ((TComma :: (t :: ts) ++ ts') ++ rest)
        with (TComma :: t :: ts ++ ts' ++ rest)
        by (cbn [app]; now rewrite <- app_assoc).
      rewrite (parse_run_step _ TComma (SValue (FArr done :: stk)))
        by reflexivity.
      rewrite Hparse. cbn [push_value].
      rewrite Hparse'. cbn [rev]. now rewrite <- app_assoc.
Qed.

Lemma parse_array_start t ts stk :
  t <> TRBracket ->
  parse_run (SArrStart stk) (t :: ts) = parse_run (SValue (FArr [] :: stk)) (t :: ts).
Proof. intros H. cbn [parse_run parse_step]. now destruct t. Qed.

Lemma reads_as_array texts vals :
  Forall2 reads_as texts vals ->
  reads_as (91%N :: join_comma texts ++ [93%N]) (JArr vals).
Proof.
  intros H. destruct H as [|text v texts vals (t & ts & Ht & Hlex & Hparse) H].
  - exists TLBracket, [TRBracket]. split; [discriminate|]. split; [|reflexivity].
    intros rest _. cbn [join_comma app]. rewrite !lex_cons. cbn.
    now destruct (lex rest).
  - destruct (elements_tail _ _ H) as (ts' & Hlex' & Hparse').
    exists TLBracket, ((t :: ts) ++ ts'). split; [discriminate|]. split.
    + intros rest _. rewrite join_comma_cons. cbn [app]. rewrite lex_cons.
      cbn [is_json_ws N.eqb Pos.eqb orb]. rewrite <- !app_assoc. cbn [app].
      rewrite Hlex.
      * rewrite Hlex', option_map_app_app. apply cons_token_app.
      * destruct texts; cbn; discriminate.
    + intros stk rest.
      replace (((t :: ts) ++ ts') ++ rest) with (t :: ts ++ ts' ++ rest)
        by (cbn [app]; now rewrite <- app_assoc).
      rewrite (parse_run_step _ TLBracket (SArrStart stk)) by reflexivity.
      rewrite parse_array_start by assumption.
      rewrite Hparse. cbn [push_value]. apply (Hparse' [v]).
Qed.

(** After a member of an object: the members that remain, each a key,
    the text of its value and the value this text is read as, and the
    closing brace. *)
Lemma members_tail (members : list (jsstring * jsstring * jsval)) :
  Forall (fun m => reads_as (snd (fst m)) (snd m)) members ->
  exists ts,
    (forall rest,
       lex (List.concat
              (List.map (fun m => 44%N :: quote (fst (fst m))
                                    ++ 58%N :: snd (fst m)) members)
            ++ 125%N :: rest)
       = option_map (app ts) (lex rest))
    /\ (forall done stk rest,
          parse_run (SObjAfter done stk) (ts ++ rest)
          = parse_run
              (push_value
                 (JObj (rev done
                        ++ List.map (fun m => (fst (fst m), snd m)) members))
                 stk) rest).
Proof.
  induction 1 as [|[[k text] v] members (t & ts & Ht & Hlex & Hparse) _
                   (ts' & Hlex' & Hparse')].
  - exists [TRBrace]. split.
    + intros rest. cbn [List.map List.concat app]. rewrite lex_cons. cbn.
      now destruct (lex rest).
    + intros done stk rest. cbn. now rewrite app_nil_r.
  - cbn [fst snd] in *.
    exists (TComma :: TString k :: TColon :: (t :: ts) ++ ts'). split.
    + intros rest. cbn [List.map List.concat app fst snd]. rewrite lex_cons.
      cbn [is_json_ws N.eqb Pos.eqb orb]. rewrite <- !app_assoc.
      rewrite lex_quote. cbn [app]. rewrite lex_cons.
      cbn [is_json_ws N.eqb Pos.eqb orb]. rewrite <- ?app_assoc.
      rewrite Hlex.
      * rewrite Hlex', option_map_app_app.
        now destruct (lex rest).
      * destruct members; cbn; discriminate.
    + intros done stk rest.
      replace ((TComma :: TString k :: TColon :: (t :: ts) ++ ts') ++ rest)
        with (TComma :: TString k :: TColon :: t :: ts ++ ts' ++ rest)
        by (cbn [app]; now rewrite <- app_assoc).
      rewrite (parse_run_step _ TComma (SObjKey done stk)) by reflexivity.
      rewrite (parse_run_step _ (TString k) (SColon done k stk)) by reflexivity.
      rewrite (parse_run_step _ TColon (SValue (FObj done k :: stk)))
        by reflexivity.
      rewrite Hparse. cbn [push_value].
      rewrite Hparse'. cbn [rev List.map fst snd]. now rewrite <- app_assoc.
Qed.

Lemma reads_as_object (members : list (jsstring * jsstring * jsval)) :
  Forall (fun m => reads_as (snd (fst m)) (snd m)) members ->
  reads_as
    (123%N :: join_comma
                (List.map (fun m => quote (fst (fst m)) ++ 58%N :: snd (fst m))
                   members) ++ [125%N])
    (JObj (List.map (fun m => (fst (fst m), snd m)) members)).
Proof.
  intros H.
  destruct H as [|[[k text] v] members (t & ts & Ht & Hlex & Hparse) H].
  - exists TLBrace, [TRBrace]. split; [discriminate|]. split; [|reflexivity].
    intros rest _. cbn [List.map join_comma app]. rewrite !lex_cons. cbn.
    now destruct (lex rest).
  - cbn [fst snd] in *. destruct (members_tail _ H) as (ts' & Hlex' & Hparse').
    exists TLBrace, (TString k :: TColon :: (t :: ts) ++ ts').
    split; [discriminate|]. split.
    + intros rest _. cbn [List.map fst snd]. rewrite join_comma_cons.
      rewrite List.map_map. cbn [app]. rewrite lex_cons.
      cbn [is_json_ws N.eqb Pos.eqb orb]. rewrite <- !app_assoc.
      rewrite lex_quote. cbn [app]. rewrite lex_cons.
      cbn [is_json_ws N.eqb Pos.eqb orb]. rewrite <- ?app_assoc.
      rewrite Hlex.
      * rewrite Hlex', option_map_app_app.
        now destruct (lex rest).
      * destruct members; cbn; discriminate.
    + intros stk rest.
      replace ((TString k :: TColon :: (t :: ts) ++ ts') ++ rest)
        with (TString k :: TColon :: t :: ts ++ ts' ++ rest)
        by (cbn [app]; now rewrite <- app_assoc).
      rewrite (parse_run_step _ TLBrace (SObjStart stk)) by reflexivity.
      rewrite (parse_run_step _ (TString k) (SColon [] k stk)) by reflexivity.
      rewrite (parse_run_step _ TColon (SValue (FObj [] k :: stk)))
        by reflexivity.
      rewrite Hparse. cbn [push_value]. apply (Hparse' [(k, v)]).
Qed.

(** A text that is read as a value is a JSON text of this value. *)
Lemma JSON_parse_reads text v : reads_as text v -> JSON_parse text = Ok v.
Proof.
  intros (t & ts & _ & Hlex & Hparse). unfold JSON_parse.
  specialize (Hlex [] I). rewrite app_nil_r in Hlex. rewrite Hlex.
  cbn [lex option_map]. rewrite app_nil_r.
  specialize (Hparse [] []). rewrite app_nil_r in Hparse.
  now rewrite Hparse.
Qed.

(** *** Well-formed texts *)

Lemma well_formed_ascii s :
  Forall (fun u => (u < 0xD800)%N) s -> well_formed s = true.
Proof.
  induction 1 as [|u s Hu _ IH]; [reflexivity|].
  rewrite well_formed_plain by (apply in_range_false; lia).
  rewrite IH. apply andb_true_intro. split; [apply N.ltb_lt; lia|reflexivity].
Qed.

Lemma well_formed_app_true a b :
  well_formed a = true -> well_formed b = true -> well_formed (a ++ b) = true.
Proof. intros Ha Hb. now rewrite well_formed_app. Qed.

Lemma hex_digit_small d : (d < 16)%N -> (hex_digit d < 0xD800)%N.
Proof. intros H. unfold hex_digit. destruct (N.ltb_spec d 10); lia. Qed.

Lemma well_formed_unicode_escape u :
  (u < 0x10000)%N -> well_formed (unicode_escape u) = true.
Proof.
  intros Hu. apply well_formed_ascii. unfold unicode_escape.
  repeat constructor; try apply hex_digit_small; lia.
Qed.

Lemma well_formed_escape_unit u :
  is_high_surrogate u = false -> is_low_surrogate u = false ->
  (u < 0x10000)%N -> well_formed (escape_unit u) = true.
Proof.
  intros Hh Hl Hu. unfold escape_unit.
  repeat match goal with
  | |- context [(u =? ?k)%N] => destruct (N.eqb_spec u k); [reflexivity|]
  end.
  destruct (N.ltb_spec u 0x20); [now apply well_formed_unicode_escape|].
  rewrite well_formed_plain by assumption.
  apply andb_true_intro. split; [now apply N.ltb_lt|reflexivity].
Qed.

Lemma units_ok_cons u s :
  units_ok (u :: s) = true <-> (u < 0x10000)%N /\ units_ok s = true.
Proof.
  unfold units_ok. cbn [forallb]. rewrite andb_true_iff, N.ltb_lt. reflexivity.
Qed.

Lemma well_formed_quote_body s :
  units_ok s = true -> well_formed (quote_body s) = true.
Proof.
  induction s as [|u|u v s IH1 IH2] using pair_induction.
  - reflexivity.
  - intros H. apply units_ok_cons in H as [Hu _].
    destruct (is_high_surrogate u) eqn:Hh.
    { rewrite quote_body_last by assumption.
      now apply well_formed_unicode_escape. }
    destruct (is_low_surrogate u) eqn:Hl.
    { rewrite quote_body_low by assumption. cbn [quote_body].
      rewrite app_nil_r. now apply well_formed_unicode_escape. }
    rewrite quote_body_plain by assumption. cbn [quote_body].
    rewrite app_nil_r. now apply well_formed_escape_unit.
  - intros H. apply units_ok_cons in H as [Hu H].
    pose proof H as Hvs. apply units_ok_cons in H as [Hv Hs].
    destruct (is_high_surrogate u) eqn:Hh.
    + destruct (is_low_surrogate v) eqn:Hl.
      * rewrite quote_body_pair by assumption.
        rewrite well_formed_high by assumption. rewrite Hl. now apply IH1.
      * rewrite quote_body_lone by assumption.
        apply well_formed_app_true; [now apply well_formed_unicode_escape|].
        now apply IH2.
    + destruct (is_low_surrogate u) eqn:Hl.
      * rewrite quote_body_low by assumption.
        apply well_formed_app_true; [now apply well_formed_unicode_escape|].
        now apply IH2.
      * rewrite quote_body_plain by assumption.
        apply well_formed_app_true; [now apply well_formed_escape_unit|].
        now apply IH2.
Qed.

Lemma well_formed_quote s : units_ok s = true -> well_formed (quote s) = true.
Proof.
  intros H. unfold quote.
  change (34%N :: quote_body s ++ [34%N])
    with ([34%N] ++ quote_body s ++ [34%N]).
  apply well_formed_app_true; [reflexivity|].
  apply well_formed_app_true; [now apply well_formed_quote_body|reflexivity].
Qed.

Lemma num_step_ascii st c st' : num_step st c = Some st' -> (c < 0xD800)%N.
Proof.
  assert (is_digit c = true -> (c < 0xD800)%N) as Hd.
  { intros H. apply in_range_spec in H. lia. }
  destruct st; cbn [num_step];
    repeat match goal with
    | |- context [(c =? ?k)%N] => destruct (N.eqb_spec c k); [intros _; lia|]
    | |- context [is_digit c] => destruct (is_digit c); [intros _; now apply Hd|]
    | |- context [orb _ _] => cbn [orb]
    end; discriminate.
Qed.

Lemma scan_number_ascii s : forall st,
  scan_number st s = true -> Forall (fun u => (u < 0xD800)%N) s.
Proof.
  induction s as [|c s IH]; intros st H; [constructor|].
  cbn [scan_number] in H. destruct (num_step st c) as [st'|] eqn:E;
    [|discriminate].
  constructor; [now apply num_step_ascii in E|now apply (IH st')].
Qed.

Lemma well_formed_number lit :
  is_number_literal lit = true -> well_formed lit = true.
Proof.
  intros H. apply well_formed_ascii. destruct lit as [|c r]; [constructor|].
  cbn [is_number_literal] in H.
  destruct (N.eqb_spec c 45).
  { constructor; [lia|now apply scan_number_ascii in H]. }
  destruct (N.eqb_spec c 48).
  { constructor; [lia|now apply scan_number_ascii in H]. }
  destruct (is_digit c) eqn:Hd; [|discriminate].
  apply in_range_spec in Hd.
  constructor; [lia|now apply scan_number_ascii in H].
Qed.

Lemma well_formed_concat parts :
  Forall (fun p => well_formed p = true) parts ->
  well_formed (List.concat parts) = true.
Proof.
  induction 1 as [|p parts Hp _ IH]; [reflexivity|].
  cbn [List.concat]. now apply well_formed_app_true.
Qed.

Lemma well_formed_join parts :
  Forall (fun p => well_formed p = true) parts ->
  well_formed (join_comma parts) = true.
Proof.
  intros H. destruct H as [|p parts Hp H]; [reflexivity|].
  rewrite join_comma_cons. apply well_formed_app_true; [assumption|].
  apply well_formed_concat. apply Forall_map.
  eapply List.Forall_impl; [|exact H]. intros q Hq. cbn beta.
  change (44%N :: q) with ([44%N] ++ q). now apply well_formed_app_true.
Qed.

Lemma well_formed_bracket (o c : N) body :
  (o < 0xD800)%N -> (c < 0xD800)%N -> well_formed body = true ->
  well_formed (o :: body ++ [c]) = true.
Proof.
  intros Ho Hc H. change (o :: body ++ [c]) with ([o] ++ body ++ [c]).
  apply well_formed_app_true; [apply well_formed_ascii; now repeat constructor|].
  apply well_formed_app_true; [assumption|].
  apply well_formed_ascii; now repeat constructor.
Qed.

(** *** Every value *)

Lemma jsval_nested_ind (P : jsval -> Prop) :
  P JUndefined -> P JNull -> (forall b, P (JBool b)) ->
  (forall lit, P (JNum lit)) -> (forall s, P (JStr s)) ->
  (forall items, Forall P items -> P (JArr items)) ->
  (forall props, Forall (fun kv => P (snd kv)) props -> P (JObj props)) ->
  forall v, P v.
Proof.
  intros Hu Hn Hb Hnum Hs Ha Ho.
  refine (fix IH (v : jsval) : P v :=
            match v with
            | JUndefined => Hu
            | JNull => Hn
            | JBool b => Hb b
            | JNum lit => Hnum lit
            | JStr s => Hs s
            | JArr items =>
              Ha items
                 ((fix go (l : list jsval) : Forall P l :=
                     match l with
                     | [] => @List.Forall_nil _ _
                     | x :: l' => @List.Forall_cons _ _ x l' (IH x) (go l')
                     end) items)
            | JObj props =>
              Ho props
                 ((fix go (l : list (jsstring * jsval))
                     : Forall (fun kv => P (snd kv)) l :=
                     match l with
                     | [] => @List.Forall_nil _ _
                     | kv :: l' => @List.Forall_cons _ _ kv l' (IH (snd kv)) (go l')
                     end) props)
            end).
Qed.

Lemma undefined_or_not v : v = JUndefined \/ v <> JUndefined.
Proof. destruct v; (now left) || (right; discriminate). Qed.

Lemma stringify_defined v : v <> JUndefined -> exists t, stringify v = Some t.
Proof. destruct v as [| |[|]| | | |]; intros H; try contradiction; eauto. Qed.

Lemma stringify_array items :
  stringify (JArr items)
  = Some (91%N :: join_comma
                    (List.map (fun x => default (str "null") (stringify x))
                       items)
          ++ [93%N]).
Proof. reflexivity. Qed.

Lemma stringify_object props :
  stringify (JObj props)
  = Some (123%N :: join_comma
                     (List.flat_map
                        (fun kv => match stringify (snd kv) with
                                   | Some t => [quote (fst kv) ++ 58%N :: t]
                                   | None => []
                                   end) props)
          ++ [125%N]).
Proof. reflexivity. Qed.

Lemma clean_array items :
  clean (JArr items)
  = JArr (List.map (fun x => match x with
                             | JUndefined => JNull
                             | _ => clean x
                             end) items).
Proof. reflexivity. Qed.

Lemma clean_object props :
  clean (JObj props)
  = JObj (List.flat_map
            (fun kv => match snd kv with
                       | JUndefined => []
                       | _ => [(fst kv, clean (snd kv))]
                       end) props).
Proof. reflexivity. Qed.

(** The text of a well-formed value is well-formed and is read as the
    value, cleaned of what is undefined. *)
Lemma stringify_reads v :
  wf_value v = true ->
  forall text, stringify v = Some text ->
               reads_as text (clean v) /\ well_formed text = true.
Proof.
  induction v as [| |b|lit|s|items IH|props IH] using jsval_nested_ind;
    intros Hwf text Htext.
  - discriminate.
  - injection Htext as <-. split; [apply reads_as_null|reflexivity].
  - destruct b; injection Htext as <-.
    + split; [apply reads_as_true|reflexivity].
    + split; [apply reads_as_false|reflexivity].
  - injection Htext as <-. cbn [wf_value] in Hwf.
    split; [now apply reads_as_number|now apply well_formed_number].
  - injection Htext as <-. cbn [wf_value] in Hwf.
    split; [apply reads_as_string|now apply well_formed_quote].
  - rewrite stringify_array in Htext. apply (inj Some) in Htext. subst text.
    cbn [wf_value] in Hwf. rewrite clean_array.
    assert (Forall2 reads_as
              (List.map (fun x => default (str "null") (stringify x)) items)
              (List.map (fun x => match x with
                                  | JUndefined => JNull
                                  | _ => clean x
                                  end) items)
            /\ Forall (fun p => well_formed p = true)
                 (List.map (fun x => default (str "null") (stringify x)) items))
      as [H1 H2].
    { induction IH as [|x items Hx _ IHitems]; [split; constructor|].
      cbn [forallb] in Hwf. apply andb_prop in Hwf as [Hwx Hwf].
      destruct (IHitems Hwf) as [G1 G2]. cbn [List.map].
      destruct (undefined_or_not x) as [->|Hne].
      - cbn [stringify default]. split.
        + constructor; [apply reads_as_null|assumption].
        + constructor; [reflexivity|assumption].
      - destruct (stringify_defined x Hne) as [t Ht].
        destruct (Hx Hwx t Ht) as [R W]. rewrite Ht. cbn [default].
        split.
        + constructor; [|assumption]. now destruct x.
        + constructor; assumption. }
    split; [now apply reads_as_array|].
    apply well_formed_bracket; [lia|lia|now apply well_formed_join].
  - rewrite stringify_object in Htext. apply (inj Some) in Htext. subst text.
    cbn [wf_value] in Hwf. rewrite clean_object.
    assert (exists members : list (jsstring * jsstring * jsval),
              List.flat_map
                (fun kv => match stringify (snd kv) with
                           | Some t => [quote (fst kv) ++ 58%N :: t]
                           | None => []
                           end) props
              = List.map (fun m => quote (fst (fst m)) ++ 58%N :: snd (fst m))
                  members
              /\ List.flat_map
                   (fun kv => match snd kv with
                              | JUndefined => []
                              | _ => [(fst kv, clean (snd kv))]
                              end) props
                 = List.map (fun m => (fst (fst m), snd m)) members
              /\ Forall (fun m => reads_as (snd (fst m)) (snd m)) members
              /\ Forall (fun p => well_formed p = true)
                   (List.map (fun m => quote (fst (fst m))
                                         ++ 58%N :: snd (fst m)) members))
      as (members & E1 & E2 & H1 & H2).
    { induction IH as [|[k x] props Hx _ IHprops].
      { exists []. repeat split; constructor. }
      cbn [forallb fst snd] in Hwf. apply andb_prop in Hwf as [Hkx Hwf].
      apply andb_prop in Hkx as [Hk Hwx].
      destruct (IHprops Hwf) as (members & E1 & E2 & G1 & G2).
      cbn [List.flat_map fst snd] in *.
      destruct (undefined_or_not x) as [->|Hne].
      - exists members. cbn [stringify app]. auto.
      - destruct (stringify_defined x Hne) as [t Ht].
        destruct (Hx Hwx t Ht) as [R W]. rewrite Ht.
        exists ((k, t, clean x) :: members). cbn [List.map fst snd app].
        rewrite E1. repeat split.
        + destruct x; try contradiction; now rewrite E2.
        + now constructor.
        + constructor; [|assumption].
          apply well_formed_app_true; [now apply well_formed_quote|].
          change (58%N :: t) with ([58%N] ++ t).
          now apply well_formed_app_true. }
    rewrite E1, E2.
    split; [now apply reads_as_object|].
    apply well_formed_bracket; [lia|lia|now apply well_formed_join].
Qed.

(** [JSON.parse(JSON.stringify(v))], also through the bytes of a
    buffer. *)
Lemma JSON_parse_stringify v text :
  wf_value v = true -> stringify v = Some text ->
  JSON_parse text = Ok (clean v)
  /\ utf8_decode (utf8_encode text) = text.
Proof.
  intros Hwf Htext. destruct (stringify_reads v Hwf text Htext) as [R W].
  split; [now apply JSON_parse_reads|now apply utf8_roundtrip].
Qed.

End JsonFacts.

(** ** The note codec *)

Module CodecFacts.
Import Utf8Facts JsonFacts Codec.

Lemma prop_last_none k props :
  List.filter (named k) props = [] -> prop_last k props = None.
Proof.
  induction props as [|[k1 v1] props IH]; [reflexivity|].
  cbn [List.filter prop_last]. unfold named at 1. cbn [fst].
  destruct (str_eqb k k1); intros H; [discriminate|].
  now rewrite IH.
Qed.

Lemma prop_last_only k props kv :
  List.filter (named k) props = [kv] -> prop_last k props = Some (snd kv).
Proof.
  induction props as [|[k1 v1] props IH]; [discriminate|].
  cbn [List.filter prop_last]. unfold named at 1. cbn [fst].
  destruct (str_eqb k k1) eqn:E.
  - intros [= <- H]. now rewrite prop_last_none.
  - intros H. now rewrite IH.
Qed.

Lemma filter_obj_set k k' v props :
  str_eqb k k' = false ->
  List.filter (named k) (obj_set k' v props) = List.filter (named k) props.
Proof.
  intros Hne. induction props as [|[k1 v1] props IH].
  - cbn. unfold named. cbn. now rewrite Hne.
  - cbn [obj_set]. destruct (str_eqb k' k1) eqn:E.
    + apply bool_decide_eq_true in E. subst k1.
      cbn [List.filter]. unfold named. cbn [fst]. now rewrite Hne.
    + cbn [List.filter]. now rewrite IH.
Qed.

Lemma filter_obj_spread k base extra :
  forallb (fun kv => negb (named k kv)) extra = true ->
  List.filter (named k) (obj_spread base extra) = List.filter (named k) base.
Proof.
  unfold obj_spread. revert base.
  induction extra as [|[k1 v1] extra IH]; intros base H; [reflexivity|].
  cbn [forallb] in H. apply andb_prop in H as [H1 H].
  cbn [fold_left fst snd]. rewrite IH by assumption.
  apply filter_obj_set. unfold named in H1. cbn [fst] in H1.
  now destruct (str_eqb k k1).
Qed.

Lemma filter_clean k props :
  List.filter (named k)
    (List.flat_map (fun kv => match snd kv with
                              | JUndefined => []
                              | _ => [(fst kv, clean (snd kv))]
                              end) props)
  = List.flat_map (fun kv => match snd kv with
                             | JUndefined => []
                             | _ => [(fst kv, clean (snd kv))]
                             end) (List.filter (named k) props).
Proof.
  induction props as [|[k1 v1] props IH]; [reflexivity|].
  cbn [List.flat_map List.filter fst snd]. rewrite List.filter_app, IH.
  unfold named at 2. cbn [fst].
  destruct (str_eqb k k1) eqn:E.
  - cbn [List.flat_map fst snd].
    destruct v1; cbn [List.filter app named fst]; unfold named;
      cbn [fst]; rewrite ?E; reflexivity.
  - destruct v1; cbn [List.filter app named fst]; unfold named;
      cbn [fst]; rewrite ?E; reflexivity.
Qed.

Lemma wf_obj_set k v props :
  units_ok k = true -> wf_value v = true -> wf_props props = true ->
  wf_props (obj_set k v props) = true.
Proof.
  intros Hk Hv. unfold wf_props.
  induction props as [|[k1 v1] props IH]; intros H.
  - cbn [obj_set forallb fst snd]. now rewrite Hk, Hv.
  - cbn [obj_set]. cbn [forallb] in H. apply andb_prop in H as [H1 H].
    destruct (str_eqb k k1).
    + cbn [forallb fst snd]. now rewrite Hk, Hv, H.
    + cbn [forallb]. now rewrite H1, IH.
Qed.

Lemma wf_obj_spread base extra :
  wf_props base = true -> wf_props extra = true ->
  wf_props (obj_spread base extra) = true.
Proof.
  unfold obj_spread. revert base.
  induction extra as [|[k1 v1] extra IH]; intros base Hb He; [exact Hb|].
  unfold wf_props in He. cbn [forallb fst snd] in He.
  apply andb_prop in He as [H1 He]. apply andb_prop in H1 as [Hk Hv].
  cbn [fold_left fst snd]. apply IH; [|exact He].
  now apply wf_obj_set.
Qed.

(** C6, as it is stated, fails on two of its cases.  A JSON note
    without the property [hash] is returned as the object it is; bytes
    that are no UTF-8 are read with U+FFFD in the place of what is
    ill-formed, and the text that results can be JSON.  The reader of
    the fingerprint, too, returns one for a JSON note without [hash]
    when the text of the note holds 64 hexadecimal digits. *)
Lemma decode_not_always_null :
  parseNotePayload (Some (note_only (json_bytes "{'a':1}")))
  = JObj [(str "a", JNum (str "1"))]
  /\ parseNotePayload (Some (note_only [x22; xff; x22])) = JStr [0xFFFD%N]
  /\ parseHashFromTransaction (RT := ascii_runtime)
       (Some (note_only (json_bytes
          "{'id':'BA7816BF8F01CFEA414140DE5DAE2223B00361A396177A9CB410FF61F20015AD'}")))
     = Some (str "ba7816bf8f01cfea414140de5dae2223b00361a396177a9cb410ff61f20015ad").
Proof. repeat split; vm_compute; reflexivity. Qed.

(** The digests of the empty buffer and of [abc]. *)
Example computeSHA256_empty :
  computeSHA256 []
  = str "e3b0c44298fc1c149afbf4c8996fb92427ae41e4649b934ca495991b7852b855".
Proof. vm_compute. reflexivity. Qed.

Example computeSHA256_abc :
  computeSHA256 [x61; x62; x63]
  = str "ba7816bf8f01cfea414140de5dae2223b00361a396177a9cb410ff61f20015ad".
Proof. vm_compute. reflexivity. Qed.

Section WithRuntime.
Context `{RT : Runtime}.

Lemma hex_digit_lower n :
  (n < 16)%N ->
  (hex_digit n < 128)%N /\ ascii_lower (hex_digit n) = hex_digit n.
Proof.
  intros H. unfold hex_digit, ascii_lower, in_range.
  destruct (N.ltb_spec n 10).
  - split; [lia|].
    destruct (N.leb_spec 65 (48 + n)); [|reflexivity].
    destruct (N.leb_spec (48 + n) 90); [lia|reflexivity].
  - split; [lia|].
    destruct (N.leb_spec 65 (87 + n)); [|reflexivity].
    destruct (N.leb_spec (87 + n) 90); [lia|reflexivity].
Qed.

Lemma byte_nibbles b : (Byte.to_N b / 16 < 16)%N /\ (Byte.to_N b mod 16 < 16)%N.
Proof.
  pose proof (Byte.to_N_bounded b) as Hb. split.
  - apply N.Div0.div_lt_upper_bound. lia.
  - apply N.mod_lt. lia.
Qed.

(** A digest is written in lower case: the conversion leaves it as it is. *)
Lemma computeSHA256_lower fileBuffer :
  toLowerCase (computeSHA256 fileBuffer) = computeSHA256 fileBuffer.
Proof.
  unfold computeSHA256. generalize (sha256 fileBuffer) as bs. intros bs.
  assert (Forall (fun u => (u < 128)%N) (hex_of_bytes bs)
          /\ List.map ascii_lower (hex_of_bytes bs) = hex_of_bytes bs) as [H1 H2].
  { induction bs as [|b bs [IH1 IH2]]; [split; [constructor|reflexivity]|].
    unfold hex_of_bytes in *. cbn [List.map List.concat hex_of_byte app].
    destruct (byte_nibbles b) as [Hhi Hlo].
    destruct (hex_digit_lower _ Hhi) as [A1 A2].
    destruct (hex_digit_lower _ Hlo) as [B1 B2].
    split; [repeat constructor; assumption|].
    cbn [List.map]. now rewrite A2, B2, IH2. }
  rewrite toLowerCase_ascii by assumption. exact H2.
Qed.

Lemma parseHash_written transaction :
  parseHashFromTransaction transaction
  = option_map toLowerCase (written_fingerprint transaction).
Proof.
  unfold parseHashFromTransaction, written_fingerprint.
  destruct (string_hash_of (parseNotePayload transaction)); [reflexivity|].
  destruct (decodeNote transaction) as [[|c text]|]; reflexivity.
Qed.

Lemma wf_notePayload now f m :
  units_ok f = true -> units_ok now = true -> wf_props m = true ->
  wf_value (notePayload now f m) = true.
Proof.
  intros Hf Hn Hm. unfold notePayload. cbn [wf_value].
  apply wf_obj_set; [reflexivity|exact Hn|].
  apply wf_obj_spread; [|exact Hm].
  unfold wf_props. cbn [forallb fst snd wf_value]. now rewrite Hf.
Qed.

Lemma utf8_encode_nonempty u s : utf8_encode (u :: s) <> [].
Proof.
  assert (forall c r, utf8_of_code_point c ++ r <> []) as H.
  { intros c r. unfold utf8_of_code_point.
    destruct (c <? 0x80)%N; [discriminate|].
    destruct (c <? 0x800)%N; [discriminate|].
    destruct (c <? 0x10000)%N; discriminate. }
  cbn [utf8_encode]. destruct (is_high_surrogate u).
  - destruct s as [|v s]; [discriminate|].
    destruct (is_low_surrogate v); apply H.
  - destruct (is_low_surrogate u); apply H.
Qed.

Lemma decodeNote_carrying bs round :
  bs <> [] -> decodeNote (Some (carrying bs round)) = Some (utf8_decode bs).
Proof. destruct bs; [contradiction|reflexivity]. Qed.

(** What the decoder makes of a note that the encoder built. *)
Lemma note_roundtrip_text now f m round :
  units_ok f = true -> units_ok now = true -> wf_props m = true ->
  exists text,
    stringify (notePayload now f m) = Some text
    /\ decodeNote (Some (carrying (buildTrustChainNote now f m) round))
       = Some text
    /\ parseNotePayload (Some (carrying (buildTrustChainNote now f m) round))
       = clean (notePayload now f m).
Proof.
  intros Hf Hn Hm.
  pose proof (wf_notePayload now f m Hf Hn Hm) as Hwf.
  destruct (stringify_defined (notePayload now f m)) as [text Htext];
    [discriminate|].
  destruct (JSON_parse_stringify _ _ Hwf Htext) as [Hparse Hutf].
  exists text. split; [exact Htext|].
  assert (exists c r, text = c :: r) as (c & r & ->).
  { unfold notePayload in Htext. rewrite stringify_object in Htext.
    apply (inj Some) in Htext. subst text. eauto. }
  assert (decodeNote (Some (carrying (buildTrustChainNote now f m) round))
          = Some (c :: r)) as Hdec.
  { unfold buildTrustChainNote, JSON_stringify. rewrite Htext.
    change (default [] (Some (c :: r))) with (c :: r).
    rewrite decodeNote_carrying by apply utf8_encode_nonempty.
    now rewrite Hutf. }
  split; [exact Hdec|].
  unfold parseNotePayload. now rewrite Hdec, Hparse.
Qed.

Lemma note_hash now f m :
  lacks_hash m = true ->
  string_hash_of (clean (notePayload now f m)) = Some f.
Proof.
  intros Hm. unfold notePayload, string_hash_of, get_prop.
  rewrite clean_object.
  rewrite (prop_last_only _ _ (str "hash", JStr f)); [reflexivity|].
  rewrite filter_clean, filter_obj_set by reflexivity.
  now rewrite filter_obj_spread by exact Hm.
Qed.

(** Whatever string is encoded as the fingerprint, the decoder returns
    it in lower case. *)
Lemma note_roundtrip_lower now f m round :
  units_ok f = true -> units_ok now = true -> wf_props m = true ->
  lacks_hash m = true ->
  parseHashFromTransaction
    (Some (carrying (buildTrustChainNote now f m) round))
  = Some (toLowerCase f).
Proof.
  intros Hf Hn Hm Hh.
  destruct (note_roundtrip_text now f m round Hf Hn Hm) as (text & _ & _ & Hp).
  unfold parseHashFromTransaction. rewrite Hp, note_hash by assumption.
  reflexivity.
Qed.

Lemma utf8_of_code_point_length c :
  (1 <= length (utf8_of_code_point c))%nat
  /\ ((0x10000 <= c)%N -> length (utf8_of_code_point c) = 4%nat).
Proof.
  unfold utf8_of_code_point.
  destruct (N.ltb_spec c 0x80); [cbn; split; intros; lia|].
  destruct (N.ltb_spec c 0x800); [cbn; split; intros; lia|].
  destruct (N.ltb_spec c 0x10000); cbn; split; intros; lia.
Qed.

(** The bytes are never fewer than the code units. *)
Lemma utf8_encode_length (s : jsstring) :
  (length s <= length (utf8_encode s))%nat.
Proof.
  induction s as [|u|u v s IH1 IH2] using pair_induction.
  - reflexivity.
  - cbn [utf8_encode].
    destruct (is_high_surrogate u); [cbn; lia|].
    destruct (is_low_surrogate u); rewrite length_app;
      pose proof (proj1 (utf8_of_code_point_length u));
      pose proof (proj1 (utf8_of_code_point_length REPLACEMENT)); cbn [length];
      lia.
  - destruct (is_high_surrogate u) eqn:Hh.
    + destruct (is_low_surrogate v) eqn:Hl.
      * rewrite utf8_encode_pair by assumption. rewrite length_app.
        apply in_range_spec in Hh, Hl.
        rewrite (proj2 (utf8_of_code_point_length _)) by lia.
        cbn [length]. lia.
      * assert (utf8_encode (u :: v :: s)
                = utf8_of_code_point REPLACEMENT ++ utf8_encode (v :: s)) as ->.
        { change (utf8_encode (u :: v :: s))
            with (if is_high_surrogate u
                  then if is_low_surrogate v
                       then utf8_of_code_point
                              (0x10000 + (u - 0xD800) * 1024 + (v - 0xDC00))%N
                            ++ utf8_encode s
                       else utf8_of_code_point REPLACEMENT
                            ++ utf8_encode (v :: s)
                  else if is_low_surrogate u
                       then utf8_of_code_point REPLACEMENT
                            ++ utf8_encode (v :: s)
                       else utf8_of_code_point u ++ utf8_encode (v :: s)).
          now rewrite Hh, Hl. }
        rewrite length_app.
        change (length (utf8_of_code_point REPLACEMENT)) with 3%nat.
        cbn [length] in *. lia.
    + assert (utf8_encode (u :: v :: s)
              = utf8_of_code_point (if is_low_surrogate u then REPLACEMENT else u)
                ++ utf8_encode (v :: s)) as ->.
      { destruct (is_low_surrogate u) eqn:Hl.
        - change (utf8_encode (u :: v :: s))
            with (if is_high_surrogate u
                  then if is_low_surrogate v
                       then utf8_of_code_point
                              (0x10000 + (u - 0xD800) * 1024 + (v - 0xDC00))%N
                            ++ utf8_encode s
                       else utf8_of_code_point REPLACEMENT
                            ++ utf8_encode (v :: s)
                  else if is_low_surrogate u
                       then utf8_of_code_point REPLACEMENT
                            ++ utf8_encode (v :: s)
                       else utf8_of_code_point u ++ utf8_encode (v :: s)).
          now rewrite Hh, Hl.
        - now apply utf8_encode_plain. }
      rewrite length_app.
      pose proof (proj1 (utf8_of_code_point_length
                           (if is_low_surrogate u then REPLACEMENT else u))).
      cbn [length] in *. lia.
Qed.

Lemma join_comma_length p parts :
  In p parts -> (length p <= length (join_comma parts))%nat.
Proof.
  intros H. destruct parts as [|q parts]; [destruct H|].
  rewrite join_comma_cons, length_app. destruct H as [->|H]; [lia|].
  enough (length p <= length (List.concat (List.map (cons 44%N) parts)))%nat
    by lia.
  induction parts as [|r parts IH]; [destruct H|].
  cbn [List.map List.concat]. rewrite length_app. cbn [length].
  destruct H as [->|H]; [lia|]. specialize (IH H). lia.
Qed.

Lemma quote_body_letters n : quote_body (repeat 97%N n) = repeat 97%N n.
Proof.
  induction n as [|n IH]; [reflexivity|].
  cbn [repeat]. rewrite quote_body_plain by reflexivity. now rewrite IH.
Qed.

Lemma note_length_unbounded now f n :
  (n < length (buildTrustChainNote now f
                 [(str "fileName", JStr (repeat 97%N n))]))%nat.
Proof.
  unfold buildTrustChainNote, JSON_stringify.
  eapply Nat.lt_le_trans; [|apply utf8_encode_length].
  change (notePayload now f [(str "fileName", JStr (repeat 97%N n))])
    with (JObj [(str "app", JStr (str "TrustChain")); (str "hash", JStr f);
                (str "fileName", JStr (repeat 97%N n));
                (str "createdAt", JStr now)]).
  rewrite stringify_object.
  set (parts := List.flat_map _ _).
  set (p := quote (str "fileName") ++ 58%N :: quote (repeat 97%N n)).
  assert (In p parts) as Hin.
  { subst parts p. cbn [List.flat_map stringify fst snd app].
    right. right. left. reflexivity. }
  assert (n < length p)%nat as Hlen.
  { subst p. rewrite length_app. cbn [length]. unfold quote at 2.
    cbn [length]. rewrite length_app, quote_body_letters, repeat_length. lia. }
  apply join_comma_length in Hin.
  change (default [] (Some ?x)) with x. cbn [length]. rewrite length_app. lia.
Qed.

(** C2, as the code has it.  [buildTrustChainNote] has no size check
    and no way to fail: it returns the UTF-8 bytes of the whole JSON
    text of the note, which read back as this text and as the note;
    and the bytes are as many as the metadata make them, beyond every
    bound. *)
Theorem buildTrustChainNote_complete now f m :
  units_ok f = true -> units_ok now = true -> wf_props m = true ->
  utf8_decode (buildTrustChainNote now f m)
  = JSON_stringify (notePayload now f m)
  /\ JSON_parse (utf8_decode (buildTrustChainNote now f m))
     = Ok (clean (notePayload now f m))
  /\ forall n,
       (n < length (buildTrustChainNote now f
                      [(str "fileName", JStr (repeat 97%N n))]))%nat.
Proof.
  intros Hf Hn Hm.
  pose proof (wf_notePayload now f m Hf Hn Hm) as Hwf.
  destruct (stringify_defined (notePayload now f m)) as [text Htext];
    [discriminate|].
  destruct (JSON_parse_stringify _ _ Hwf Htext) as [Hparse Hutf].
  unfold buildTrustChainNote, JSON_stringify. rewrite Htext.
  change (default [] (Some text)) with text. rewrite Hutf.
  split; [reflexivity|]. split; [exact Hparse|].
  intros n. apply note_length_unbounded.
Qed.

Lemma computeSHA256_units_ok fileBuffer :
  units_ok (computeSHA256 fileBuffer) = true.
Proof.
  unfold computeSHA256. generalize (sha256 fileBuffer) as bs. intros bs.
  unfold units_ok, hex_of_bytes.
  induction bs as [|b bs IH]; [reflexivity|].
  cbn [List.map List.concat hex_of_byte app forallb]. rewrite IH.
  destruct (byte_nibbles b) as [Hhi Hlo].
  destruct (hex_digit_lower _ Hhi) as [A _].
  destruct (hex_digit_lower _ Hlo) as [B _].
  apply andb_true_intro. split; [apply N.ltb_lt; lia|].
  apply andb_true_intro. split; [apply N.ltb_lt; lia|reflexivity].
Qed.

(** The note of a digest reads back as this digest. *)
Lemma digest_roundtrip now fileBuffer m round :
  units_ok now = true -> wf_props m = true -> lacks_hash m = true ->
  parseHashFromTransaction
    (Some (carrying (buildTrustChainNote now (computeSHA256 fileBuffer) m)
             round))
  = Some (computeSHA256 fileBuffer).
Proof.
  intros Hn Hm Hh.
  rewrite note_roundtrip_lower
    by (try apply computeSHA256_units_ok; assumption).
  now rewrite computeSHA256_lower.
Qed.

(** C5.  A fingerprint is a digest in lower-case hexadecimal digits.
    For every string [f] in lower case, and so for every fingerprint,
    and every metadata (which has no property named [hash]), the
    fingerprint that is read from the note built of [f] and the
    metadata is [f] itself. *)
Theorem note_roundtrip now f m round :
  units_ok f = true -> units_ok now = true -> wf_props m = true ->
  lacks_hash m = true -> toLowerCase f = f ->
  parseHashFromTransaction
    (Some (carrying (buildTrustChainNote now f m) round))
  = Some f.
Proof.
  intros Hf Hn Hm Hh Hlow.
  destruct (note_roundtrip_text now f m round Hf Hn Hm)
    as (text & Htext & Hdecoded & Hparsed).
  unfold parseHashFromTransaction.
  rewrite Hparsed, (note_hash now f m Hh).
  now rewrite Hlow.
Qed.

(** C6, as the code has it.  [parseNotePayload] is total: the error of
    [JSON.parse] is caught.  It returns null for a missing transaction,
    a missing or empty note, and every note whose bytes, read as UTF-8
    with U+FFFD for what is ill-formed, are not a JSON text; these
    notes apart it returns null only for the JSON text [null].  In
    every other case it returns the value that [JSON.parse] gives for
    the text of the note, whatever the bytes (the text is their
    reading as UTF-8, well-formed or not) and whatever the value (with
    or without the property [hash]); in particular a note that holds
    the JSON text of a value gives this value back. *)
Theorem parseNotePayload_returns transaction :
  (parseNotePayload transaction = JNull <->
   decodeNote transaction = None
   \/ exists noteText,
        decodeNote transaction = Some noteText
        /\ ((exists e, JSON_parse noteText = Throw e)
            \/ JSON_parse noteText = Ok JNull))
  /\ (decodeNote transaction = None <->
      transaction = None
      \/ exists t, transaction = Some t /\ (note t = None \/ note t = Some []))
  /\ (forall t b bs,
        transaction = Some t -> note t = Some (b :: bs) ->
        decodeNote transaction = Some (utf8_decode (b :: bs)))
  /\ (forall noteText v,
        decodeNote transaction = Some noteText ->
        JSON_parse noteText = Ok v ->
        parseNotePayload transaction = v)
  /\ (forall t v text,
        transaction = Some t -> wf_value v = true ->
        stringify v = Some text -> note t = Some (utf8_encode text) ->
        parseNotePayload transaction = clean v).
Proof.
  assert (forall noteText v,
            decodeNote transaction = Some noteText ->
            JSON_parse noteText = Ok v ->
            parseNotePayload transaction = v) as Hvalue.
  { intros noteText v E P. unfold parseNotePayload. rewrite E.
    destruct noteText as [|c text]; [discriminate P|]. now rewrite P. }
  assert (forall t b bs,
            transaction = Some t -> note t = Some (b :: bs) ->
            decodeNote transaction = Some (utf8_decode (b :: bs))) as Htext.
  { intros t b bs -> E. unfold decodeNote. now rewrite E. }
  split_and!.
  - unfold parseNotePayload.
    destruct (decodeNote transaction) as [[|c text]|] eqn:E.
    + split; [|reflexivity]. intros _. right. exists []. split; [reflexivity|].
      left. eexists. reflexivity.
    + destruct (JSON_parse (c :: text)) as [v|e] eqn:P.
      * split.
        -- intros ->. right. exists (c :: text). now split; [|right].
        -- intros [H|(text' & [= <-] & [[e H]|H])]; congruence.
      * split; [|reflexivity]. intros _. right. exists (c :: text).
        split; [reflexivity|]. left. now exists e.
    + split; [|reflexivity]. intros _. now left.
  - unfold decodeNote. destruct transaction as [t|].
    + destruct (note t) as [[|b bs]|] eqn:E.
      * split; [|reflexivity]. intros _. right. exists t. now split; [|right].
      * split; [discriminate|].
        intros [H|(t' & [= <-] & [H|H])]; congruence.
      * split; [|reflexivity]. intros _. right. exists t. now split; [|left].
    + split; [|reflexivity]. intros _. now left.
  - exact Htext.
  - exact Hvalue.
  - intros t v text Ht Hwf Hs Hn.
    destruct (JSON_parse_stringify v text Hwf Hs) as [P R].
    destruct text as [|u s]; [discriminate P|].
    destruct (utf8_encode (u :: s)) as [|b bs] eqn:Eb;
      [now destruct (utf8_encode_nonempty u s)|].
    apply (Hvalue (u :: s)); [|exact P].
    rewrite (Htext t b bs Ht Hn). now rewrite R.
Qed.

Lemma hex64_prefix_here h post :
  length h = 64%nat -> forallb is_hex_digit h = true ->
  hex64_prefix (h ++ post) = Some h.
Proof.
  intros Hlen Hhex. unfold hex64_prefix.
  rewrite firstn_app, Hlen, Nat.sub_diag, firstn_O, app_nil_r.
  rewrite firstn_all2 by lia. now rewrite Hlen, Hhex.
Qed.

(** The scan returns the leftmost run of 64 hexadecimal digits. *)
Lemma match_hex64_leftmost pre h post :
  length h = 64%nat -> forallb is_hex_digit h = true ->
  (forall k, (k < length pre)%nat ->
             hex64_prefix (skipn k (pre ++ h ++ post)) = None) ->
  match_hex64 (pre ++ h ++ post) = Some h.
Proof.
  intros Hlen Hhex. induction pre as [|c pre IH]; intros Hleft.
  - cbn [app]. destruct (h ++ post) as [|c s] eqn:E.
    + destruct h; discriminate.
    + rewrite <- E. clear E. destruct h as [|d h']; [discriminate|].
      cbn [match_hex64 app].
      change (d :: h' ++ post) with ((d :: h') ++ post).
      now rewrite hex64_prefix_here.
  - cbn [app match_hex64].
    assert (hex64_prefix (c :: pre ++ h ++ post) = None) as ->
      by (apply (Hleft 0%nat); cbn; lia).
    apply IH. intros k Hk. apply (Hleft (S k)). cbn. lia.
Qed.

Lemma hex_digits_ascii h :
  forallb is_hex_digit h = true -> Forall (fun u => (u < 128)%N) h.
Proof.
  intros H. apply List.Forall_forall. intros u Hu.
  rewrite forallb_forall in H. specialize (H u Hu).
  unfold is_hex_digit, in_range in H.
  repeat (apply orb_prop in H as [H|H]);
    apply andb_prop in H as [_ H]; apply N.leb_le in H; lia.
Qed.

(** C7.  When the text of a note is not JSON and holds a run of 64
    hexadecimal digits, with no such run beginning further to the left,
    the fingerprint that is read is this run in lower case, and there
    is no note payload: every other field is absent. *)
Theorem fallback_recovers_bare_fingerprint t bs e pre h post :
  note t = Some bs ->
  JSON_parse (utf8_decode bs) = Throw e ->
  utf8_decode bs = pre ++ h ++ post ->
  length h = 64%nat -> forallb is_hex_digit h = true ->
  (forall k, (k < length pre)%nat ->
             hex64_prefix (skipn k (pre ++ h ++ post)) = None) ->
  parseHashFromTransaction (Some t) = Some (List.map ascii_lower h)
  /\ parseNotePayload (Some t) = JNull.
Proof.
  intros Hnote Hbad Htext Hlen Hhex Hleft.
  assert (parseNotePayload (Some t) = JNull) as Hnull.
  { unfold parseNotePayload, decodeNote. rewrite Hnote.
    destruct bs as [|b bs']; [reflexivity|].
    destruct (utf8_decode (b :: bs')); [reflexivity|]. now rewrite Hbad. }
  split; [|exact Hnull].
  unfold parseHashFromTransaction. rewrite Hnull. cbn.
  unfold decodeNote. rewrite Hnote.
  destruct bs as [|b bs'].
  { cbn in Htext. destruct pre; destruct h; discriminate. }
  rewrite Htext.
  pose proof (match_hex64_leftmost pre h post Hlen Hhex Hleft) as Hm.
  destruct (pre ++ h ++ post) as [|c s] eqn:E.
  { destruct pre; destruct h; discriminate. }
  rewrite Hm. f_equal. apply toLowerCase_ascii. now apply hex_digits_ascii.
Qed.

End WithRuntime.

(** C2, as it is stated, fails: for a file name of 2000 letters the
    encoder returns a note of more than 1024 bytes, all of it, and the
    issue handler submits this note to the ledger. *)
Lemma note_exceeds_capacity :
  (1024 < length (buildTrustChainNote sample_time
                    (computeSHA256 [x61; x62; x63])
                    (Backend.proofMetadata long_name_metadata)))%nat
  /\ utf8_decode
       (buildTrustChainNote sample_time
          (computeSHA256 [x61; x62; x63])
          (Backend.proofMetadata long_name_metadata))
     = JSON_stringify
         (notePayload sample_time
            (computeSHA256 [x61; x62; x63])
            (Backend.proofMetadata long_name_metadata))
  /\ existsb (submits_note_over 1024)
       (snd (Backend.issue (RT := ascii_runtime)
               (sample_world 500000 100000 None) long_name_request []))
     = true.
Proof.
  split; [apply Nat.ltb_lt; vm_compute; reflexivity|].
  split; vm_compute; reflexivity.
Qed.

Lemma buildTrustChainNote_complete_witness :
  utf8_decode
    (buildTrustChainNote sample_time
       (computeSHA256 [x61; x62; x63]) (Backend.proofMetadata sample_metadata))
  = JSON_stringify
      (notePayload sample_time
         (computeSHA256 [x61; x62; x63])
         (Backend.proofMetadata sample_metadata)).
Proof.
  refine (proj1 (buildTrustChainNote_complete
                   sample_time (computeSHA256 [x61; x62; x63])
                   (Backend.proofMetadata sample_metadata) _ _ _)).
  - vm_compute; reflexivity.
  - vm_compute; reflexivity.
  - vm_compute; reflexivity.
Defined.

Lemma note_roundtrip_witness :
  parseHashFromTransaction (RT := ascii_runtime)
    (Some (carrying
             (buildTrustChainNote sample_time
                (computeSHA256 [x61; x62; x63])
                (Backend.proofMetadata sample_metadata))
             (Some 41)))
  = Some (computeSHA256 [x61; x62; x63]).
Proof.
  apply (note_roundtrip (RT := ascii_runtime)).
  - vm_compute; reflexivity.
  - vm_compute; reflexivity.
  - vm_compute; reflexivity.
  - vm_compute; reflexivity.
  - vm_compute; reflexivity.
Defined.

Lemma fallback_recovers_bare_fingerprint_witness :
  parseHashFromTransaction (RT := ascii_runtime)
    (Some (note_only (bytes_of_ascii
       "sha256 BA7816BF8F01CFEA414140DE5DAE2223B00361A396177A9CB410FF61F20015AD of abc")))
  = Some (str "ba7816bf8f01cfea414140de5dae2223b00361a396177a9cb410ff61f20015ad").
Proof.
  refine (proj1 (fallback_recovers_bare_fingerprint (RT := ascii_runtime)
                   (note_only (bytes_of_ascii
                      "sha256 BA7816BF8F01CFEA414140DE5DAE2223B00361A396177A9CB410FF61F20015AD of abc"))
                   _ SyntaxError (str "sha256 ") (str sample_hex64)
                   (str " of abc") _ _ _ _ _ _)).
  - reflexivity.
  - vm_compute; reflexivity.
  - vm_compute; reflexivity.
  - reflexivity.
  - reflexivity.
  - intros k Hk.
    do 7 (destruct k as [|k]; [vm_compute; reflexivity|]).
    cbn in Hk. lia.
Defined.

Lemma parseNotePayload_returns_witness :
  parseNotePayload (Some (note_only (json_bytes "{'a':"))) = JNull
  /\ parseNotePayload (Some (note_only [x22; xff; x22])) = JStr [0xFFFD%N].
Proof.
  split.
  - apply (proj1 (parseNotePayload_returns
                    (Some (note_only (json_bytes "{'a':"))))).
    right. exists (json_text "{'a':"). split; [reflexivity|].
    left. eexists. reflexivity.
  - destruct (parseNotePayload_returns (Some (note_only [x22; xff; x22])))
      as (_ & _ & _ & H & _).
    apply (H [34%N; 0xFFFD%N; 34%N]); reflexivity.
Defined.

End CodecFacts.

(** ** The request handlers *)

Module BackendFacts.
Import Codec Backend CodecFacts.

Section WithWorld.
Context `{RT : Runtime} (W : World).


Lemma blank_mnemonic_no_account :
  blank (env_ALGORAND_MNEMONIC W) = true ->
  getIssuerAccount W = Throw missing_mnemonic.
Proof.
  unfold getIssuerAccount. destruct (env_ALGORAND_MNEMONIC W); [|reflexivity].
  now intros ->.
Qed.

(** What [fetchIssuerAccountState] does when it returns: one balance
    query for the issuer's address, and the issuer is configured. *)
Lemma fetchIssuerAccountState_ok log st log1 :
  fetchIssuerAccountState W log = (Ok st, log1) ->
  log1 = log ++ [AccountInformationCall (address st)]
  /\ blank (env_ALGORAND_MNEMONIC W) = false.
Proof.
  unfold fetchIssuerAccountState, getIssuerAddress.
  unfold mbind, M_bind, bind, lift, call, mret, M_ret, ret.
  destruct (blank (env_ALGORAND_MNEMONIC W)) eqn:Hb.
  - rewrite blank_mnemonic_no_account by assumption. discriminate.
  - destruct (getIssuerAccount W) as [a|e]; [|discriminate].
    destruct (accountInformation W log (addr a)) as [info|e]; [|discriminate].
    intros [= <- <-]. split; reflexivity.
Qed.

Lemma is_transaction_id_nonempty s : is_transaction_id s = true -> s <> [].
Proof. now intros H ->. Qed.

(** C3.  For an uploaded file and a transaction that the indexer finds
    and whose note spells a fingerprint, the answer is an ordinary
    response (status 200) whose verdict is VERIFIED when the digest of
    the file and the fingerprint of the note are equal up to letter
    case, and INVALID when they are not. *)
Theorem verify_verdict req log f fileBuffer tid t raw :
  file req = Some f -> buffer f = Some fileBuffer ->
  tid = toUpperCase (trim (str_or (body_transactionId req) [])) ->
  is_transaction_id tid = true ->
  lookupTransactionByID W log tid = Ok (Some t) ->
  written_fingerprint (Some t) = Some raw ->
  toLowerCase raw <> [] ->
  let uploaded := computeSHA256 fileBuffer in
  let verified := bool_decide (toLowerCase uploaded = toLowerCase raw) in
  verify W req log
  = (Respond 200
       (VerificationBody
          {| v_status := if verified then str "VERIFIED" else str "INVALID";
             v_verified := verified;
             v_transactionId := tid;
             v_uploadedHash := uploaded;
             v_onChainHash := toLowerCase raw;
             v_confirmedRound := num_or_null (confirmed_round t) |}),
     log ++ [LookupTransactionByIDCall tid]).
Proof.
  intros Hf Hbuf Htid Hok Hfound Hraw Hne uploaded verified.
  subst uploaded verified. rewrite computeSHA256_lower.
  unfold verify, verify_body. rewrite Hf. destruct f as [b name mime sz].
  simpl in Hbuf. subst b. rewrite <- Htid.
  destruct tid as [|c tid']; [discriminate|]. rewrite Hok. cbn [negb].
  unfold mbind, M_bind, bind, fetchTransactionById, call. rewrite Hfound.
  rewrite parseHash_written, Hraw. cbn [option_map].
  destruct (toLowerCase raw) as [|d h]; [contradiction|]. reflexivity.
Qed.

(** The status route and the issue route apply one test: the issuer can
    issue when its whole amount reaches the threshold. *)
Lemma canIssue_is_the_guard st :
  canIssue (buildIssuerStatus W st)
  = negb (amount st <? issueMinRecommendedMicroAlgos W).
Proof.
  unfold buildIssuerStatus. cbn [canIssue].
  destruct (Z.leb_spec (issueMinRecommendedMicroAlgos W) (amount st)),
           (Z.ltb_spec (amount st) (issueMinRecommendedMicroAlgos W));
    try reflexivity; lia.
Qed.

(** C1, as the code has it.  The balance that is compared with the
    threshold is the whole amount the issuer holds; the minimum balance
    is not taken off.  When that amount is below the threshold, the
    only call a request makes is the balance query: nothing is
    submitted.  A request with a valid upload is answered with status
    400 and the insufficient-balance body. *)
Theorem issue_aborts_below_threshold req log st log1 :
  fetchIssuerAccountState W log = (Ok st, log1) ->
  amount st < issueMinRecommendedMicroAlgos W ->
  (exists out log',
     issue W req log = (out, log')
     /\ (log' = log \/ log' = log ++ [AccountInformationCall (address st)]))
  /\ (forall f fileBuffer,
        file req = Some f -> buffer f = Some fileBuffer ->
        originalname f <> [] ->
        issue W req log
        = (Respond 400
             (InsufficientBalanceBody insufficient_balance_message
                (address st) (amount st) (issueMinRecommendedMicroAlgos W)
                testnetFundingUrl),
           log ++ [AccountInformationCall (address st)])).
Proof.
  intros Hfetch Hlow.
  destruct (fetchIssuerAccountState_ok _ _ _ Hfetch) as [-> Hb].
  assert (forall f fileBuffer,
        file req = Some f -> buffer f = Some fileBuffer ->
        originalname f <> [] ->
        issue W req log
        = (Respond 400
             (InsufficientBalanceBody insufficient_balance_message
                (address st) (amount st) (issueMinRecommendedMicroAlgos W)
                testnetFundingUrl),
           log ++ [AccountInformationCall (address st)])) as Hvalid.
  { intros f fileBuffer Hf Hbuf Hname. unfold issue, issue_body.
    rewrite Hf, Hbuf. destruct (originalname f) as [|c name]; [contradiction|].
    rewrite Hb. unfold mbind, M_bind, bind at 1. rewrite Hfetch.
    apply Z.ltb_lt in Hlow. rewrite Hlow. reflexivity. }
  split; [|exact Hvalid].
  destruct (file req) as [f|] eqn:Hf.
  - destruct (buffer f) as [fileBuffer|] eqn:Hbuf.
    + destruct (originalname f) as [|c name] eqn:Hname.
      * do 2 eexists. split; [|left; reflexivity].
        unfold issue, issue_body. rewrite Hf, Hbuf, Hname. reflexivity.
      * do 2 eexists. split; [|right; reflexivity].
        apply (Hvalid f fileBuffer); congruence.
    + do 2 eexists. split; [|left; reflexivity].
      unfold issue, issue_body. rewrite Hf, Hbuf. reflexivity.
  - do 2 eexists. split; [|left; reflexivity].
    unfold issue, issue_body. rewrite Hf. reflexivity.
Qed.

End WithWorld.

(** C1, as it is stated, fails: an issuer that holds 400000 with a
    minimum balance of 100000 has 300000 to spend, which is below the
    threshold of 350000, and the proof is issued all the same, with two
    submitted transactions. *)
Lemma issue_ignores_minimum_balance :
  fetchIssuerAccountState (sample_world 400000 100000 None) []
  = (Ok {| address := str "ISSUERADDRESS"; amount := 400000;
           minBalance := 100000; spendable := 300000 |},
     [AccountInformationCall (str "ISSUERADDRESS")])
  /\ 400000 - 100000
     < issueMinRecommendedMicroAlgos (sample_world 400000 100000 None)
  /\ (exists proof,
        fst (issue (RT := ascii_runtime) (sample_world 400000 100000 None)
               (sample_request None) [])
        = Respond 201 (IssuedBody (str "Proof issued successfully") proof))
  /\ length (List.filter is_write
               (snd (issue (RT := ascii_runtime)
                       (sample_world 400000 100000 None)
                       (sample_request None) []))) = 2%nat.
Proof.
  split; [vm_compute; reflexivity|].
  split; [vm_compute; reflexivity|].
  split; [eexists|]; vm_compute; reflexivity.
Qed.

Lemma issue_aborts_below_threshold_witness :
  issue (RT := ascii_runtime) (sample_world 100000 100000 None)
    (sample_request None) []
  = (Respond 400
       (InsufficientBalanceBody insufficient_balance_message
          (str "ISSUERADDRESS") 100000 350000 testnetFundingUrl),
     [AccountInformationCall (str "ISSUERADDRESS")]).
Proof.
  refine (proj2 (issue_aborts_below_threshold (RT := ascii_runtime)
                   (sample_world 100000 100000 None) (sample_request None) []
                   {| address := str "ISSUERADDRESS"; amount := 100000;
                      minBalance := 100000; spendable := 0 |}
                   [AccountInformationCall (str "ISSUERADDRESS")] _ _)
                sample_file [x61; x62; x63] _ _ _).
  - reflexivity.
  - reflexivity.
  - reflexivity.
  - reflexivity.
  - discriminate.
Defined.

Lemma verify_verdict_witness :
  verify (RT := ascii_runtime) (sample_world 500000 100000 (Some sample_marker))
    (sample_request (Some (str "  abcdefghijklmnopqrstuvwxyz234567abcdefghijklmnopqrst ")))
    []
  = (Respond 200
       (VerificationBody
          {| v_status := str "VERIFIED";
             v_verified := true;
             v_transactionId := sample_transaction_id;
             v_uploadedHash :=
               str "ba7816bf8f01cfea414140de5dae2223b00361a396177a9cb410ff61f20015ad";
             v_onChainHash :=
               str "ba7816bf8f01cfea414140de5dae2223b00361a396177a9cb410ff61f20015ad";
             v_confirmedRound := Some 41 |}),
     [LookupTransactionByIDCall sample_transaction_id]).
Proof.
  apply (verify_verdict (RT := ascii_runtime)
           (sample_world 500000 100000 (Some sample_marker))
           (sample_request (Some (str "  abcdefghijklmnopqrstuvwxyz234567abcdefghijklmnopqrst ")))
           [] sample_file [x61; x62; x63] sample_transaction_id sample_marker
           (str "ba7816bf8f01cfea414140de5dae2223b00361a396177a9cb410ff61f20015ad")).
  - reflexivity.
  - reflexivity.
  - vm_compute; reflexivity.
  - reflexivity.
  - reflexivity.
  - vm_compute; reflexivity.
  - discriminate.
Defined.


End BackendFacts.

(** * The metadata of a note *)

Module MetadataFacts.

Import Codec Backend.

(** A number that is read out in decimal is a JSON number. *)
Lemma scan_digits d :
  scan_number NInt (str (NilEmpty.string_of_uint d)) = true.
Proof. induction d; [reflexivity|exact IHd..]. Qed.

Lemma normal_is_number_literal d :
  Decimal.unorm d = d ->
  is_number_literal (str (NilZero.string_of_uint d)) = true.
Proof.
  intros H. destruct d; try apply scan_digits; [reflexivity|].
  rewrite DecimalFacts.unorm_D0 in H. unfold Decimal.unorm in H.
  destruct (Decimal.nzhead d) eqn:E; try discriminate.
  - now injection H as <-.
  - exfalso. rewrite H in E. now apply DecimalFacts.nzhead_nonzero in E.
Qed.

Lemma number_of_N_wf n : wf_value (number_of_N n) = true.
Proof.
  unfold number_of_N. cbn [wf_value]. apply normal_is_number_literal.
  rewrite <- (DecimalN.Unsigned.of_to n) at 2.
  symmetry. rewrite DecimalN.Unsigned.to_of.
  rewrite <- (DecimalN.Unsigned.to_of (N.to_uint n)), DecimalN.Unsigned.of_to.
  reflexivity.
Qed.

Lemma forallb_trim_start (P : N -> bool) s :
  forallb P s = true -> forallb P (trim_start s) = true.
Proof.
  induction s as [|u s IH]; [reflexivity|]. intros H. cbn [trim_start].
  destruct (is_js_space u); [|assumption].
  apply IH. cbn [forallb] in H. now apply andb_prop in H.
Qed.

Lemma forallb_rev {A} (P : A -> bool) l :
  forallb P l = true -> forallb P (rev l) = true.
Proof.
  rewrite !forallb_forall. intros H x Hx. apply H. now apply in_rev.
Qed.

(** Trimming keeps a property of all the code units. *)
Lemma forallb_trim (P : N -> bool) s :
  forallb P s = true -> forallb P (trim s) = true.
Proof.
  intros H. unfold trim.
  now apply forallb_rev, forallb_trim_start, forallb_rev, forallb_trim_start.
Qed.

Lemma string_or_null_wf o :
  wf_label o = true -> wf_value (string_or_null o) = true.
Proof.
  unfold string_or_null, str_or_null.
  destruct o as [[|u l]|]; try reflexivity. intros H. exact H.
Qed.

Lemma label_wf o :
  wf_label o = true ->
  wf_label (str_or_null (Some (trim (str_or o [])))) = true.
Proof.
  intros H. unfold str_or_null.
  destruct (truthy_str _); [|reflexivity].
  cbn [wf_label]. apply forallb_trim.
  destruct o as [[|u l]|]; try reflexivity. exact H.
Qed.

(** The metadata of the two notes are values that JSON can carry, and
    none of their properties is named [hash]. *)
Lemma proofMetadata_wf m :
  units_ok (fileName m) = true ->
  match mimeType m with Some t => units_ok t | None => true end = true ->
  wf_label (referenceLabel m) = true ->
  wf_props (proofMetadata m) = true /\ lacks_hash (proofMetadata m) = true.
Proof.
  intros Hn Hm Hl. split; [|reflexivity].
  unfold wf_props, proofMetadata. cbn [forallb fst snd wf_value].
  rewrite Hn, (string_or_null_wf _ Hl).
  replace (wf_value (string_or_undefined (mimeType m))) with true
    by (destruct (mimeType m); [symmetry; exact Hm|reflexivity]).
  replace (wf_value match fileSize m with
                    | Some n => number_of_N n
                    | None => JUndefined
                    end) with true
    by (destruct (fileSize m); [symmetry; apply number_of_N_wf|reflexivity]).
  reflexivity.
Qed.

Lemma asaMetadata_wf m :
  units_ok (fileName m) = true ->
  wf_label (referenceLabel m) = true ->
  wf_props (asaMetadata m) = true /\ lacks_hash (asaMetadata m) = true.
Proof.
  intros Hn Hl. split; [|reflexivity].
  unfold wf_props, asaMetadata. cbn [forallb fst snd wf_value].
  now rewrite Hn, (string_or_null_wf _ Hl).
Qed.

End MetadataFacts.

(** * The shape of a digest *)

Module DigestFacts.

Lemma sha_round_length st kw : length st = 8%nat -> length (sha_round st kw) = 8%nat.
Proof.
  intros H. destruct st as [|a [|b [|c [|d [|e [|f [|g [|h [|x st]]]]]]]]];
    try discriminate. reflexivity.
Qed.

Lemma sha_rounds_length kws st :
  length st = 8%nat -> length (fold_left sha_round kws st) = 8%nat.
Proof.
  revert st. induction kws as [|kw kws IH]; intros st H; [assumption|].
  cbn [fold_left]. apply IH. now apply sha_round_length.
Qed.

Lemma sha_block_length h block :
  length h = 8%nat -> length (sha_block h block) = 8%nat.
Proof.
  intros H. unfold sha_block.
  rewrite length_map, length_combine, sha_rounds_length, H by assumption.
  reflexivity.
Qed.

Lemma sha_blocks_length blocks h :
  length h = 8%nat -> length (fold_left sha_block blocks h) = 8%nat.
Proof.
  revert h. induction blocks as [|b blocks IH]; intros h H; [assumption|].
  cbn [fold_left]. apply IH. now apply sha_block_length.
Qed.

Lemma be_bytes_length k x : length (be_bytes k x) = k.
Proof. induction k as [|k IH]; [reflexivity|]. cbn [be_bytes length]. now rewrite IH. Qed.

Lemma flat_map_be_bytes_length h :
  length (flat_map (be_bytes 4) h) = (4 * length h)%nat.
Proof.
  induction h as [|x h IH]; [reflexivity|].
  cbn [flat_map]. rewrite length_app, be_bytes_length, IH. cbn [length]. lia.
Qed.

(** A digest has 32 bytes, whatever the message. *)
Lemma sha256_length msg : length (sha256 msg) = 32%nat.
Proof.
  unfold sha256. rewrite length_map, flat_map_be_bytes_length.
  rewrite sha_blocks_length; reflexivity.
Qed.

Lemma hex_of_bytes_length bs : length (hex_of_bytes bs) = (2 * length bs)%nat.
Proof.
  induction bs as [|b bs IH]; [reflexivity|].
  unfold hex_of_bytes in *. cbn [List.map List.concat hex_of_byte app length].
  rewrite IH. lia.
Qed.


Lemma hex_digit_shape n : (n < 16)%N -> is_lower_hex (hex_digit n) = true.
Proof.
  intros H. unfold is_lower_hex, hex_digit, in_range.
  destruct (N.ltb_spec n 10).
  - apply orb_true_iff. left. apply andb_true_iff. split; apply N.leb_le; lia.
  - apply orb_true_iff. right. apply andb_true_iff. split; apply N.leb_le; lia.
Qed.

Lemma hex_of_bytes_shape bs : forallb is_lower_hex (hex_of_bytes bs) = true.
Proof.
  induction bs as [|b bs IH]; [reflexivity|].
  unfold hex_of_bytes in *. cbn [List.map List.concat hex_of_byte app forallb].
  pose proof (Byte.to_N_bounded b) as Hb.
  rewrite !hex_digit_shape, IH; [reflexivity| |].
  - apply N.mod_lt. lia.
  - apply N.Div0.div_lt_upper_bound. lia.
Qed.

Lemma lower_hex_is_hex h :
  forallb is_lower_hex h = true -> forallb is_hex_digit h = true.
Proof.
  rewrite !forallb_forall. intros H x Hx. specialize (H x Hx).
  unfold is_hex_digit. unfold is_lower_hex in H. now rewrite H.
Qed.

(** X11.  A digest is written as 64 characters, each a digit or a letter
    from a to f in lower case; the scan for a fingerprint finds a
    digest as it is. *)
Theorem computeSHA256_shape fileBuffer :
  length (Codec.computeSHA256 fileBuffer) = 64%nat
  /\ forallb is_lower_hex (Codec.computeSHA256 fileBuffer) = true
  /\ match_hex64 (Codec.computeSHA256 fileBuffer)
     = Some (Codec.computeSHA256 fileBuffer).
Proof.
  unfold Codec.computeSHA256.
  pose proof (hex_of_bytes_length (sha256 fileBuffer)) as HL.
  rewrite sha256_length in HL.
  pose proof (hex_of_bytes_shape (sha256 fileBuffer)) as HS.
  split_and!; [exact HL|exact HS|].
  pose proof (CodecFacts.match_hex64_leftmost [] (hex_of_bytes (sha256 fileBuffer)) []
                HL (lower_hex_is_hex _ HS)) as H.
  cbn [app] in H. rewrite app_nil_r in H. apply H.
  intros k Hk. cbn in Hk. lia.
Qed.

Lemma computeSHA256_nonempty fileBuffer : Codec.computeSHA256 fileBuffer <> [].
Proof.
  intros H. pose proof (hex_of_bytes_length (sha256 fileBuffer)) as HL.
  rewrite sha256_length in HL. unfold Codec.computeSHA256 in H.
  now rewrite H in HL.
Qed.

End DigestFacts.

(** * The issue route, call by call *)

Module ProtocolFacts.

Ltac run :=
  unfold mbind, M_bind, bind, lift, call, now, mret, M_ret, ret.

Section WithWorld.
Context `{RT : Runtime} (W : World).

Import Codec Backend.

(** The [catch] block of the issue route makes no call. *)
Lemma issue_log req log : snd (issue W req log) = snd (issue_body W req log).
Proof.
  unfold issue. destruct (issue_body W req log) as [[out|e] log']; [reflexivity|].
  destruct (isInsufficientFundsError e); [|reflexivity].
  now destruct (getIssuerAddress W).
Qed.

Lemma str_eqb_refl s : str_eqb s s = true.
Proof. now apply bool_decide_eq_true. Qed.

Lemma same_key (k : list byte) : bool_decide (k = k) = true.
Proof. now apply bool_decide_eq_true. Qed.

Lemma follows_protocol_app issuer off c1 c2 :
  follows_protocol issuer off c1 ->
  follows_protocol issuer (off + length c1) c2 ->
  follows_protocol issuer off (c1 ++ c2).
Proof.
  intros H1 H2 i c Hi. apply lookup_app_Some in Hi as [Hi|[Hle Hi]].
  - now apply H1.
  - apply H2 in Hi.
    now replace (off + i)%nat with (off + length c1 + (i - length c1))%nat
      by lia.
Qed.

Lemma follows_protocol_prefix issuer off calls full :
  calls `prefix_of` full -> follows_protocol issuer off full ->
  follows_protocol issuer off calls.
Proof.
  intros [rest ->] H i c Hi. apply H. now apply lookup_app_l_Some.
Qed.

Lemma protocol_bounds issuer calls :
  follows_protocol issuer 0 calls ->
  (length calls <= 7)%nat /\ (length (List.filter is_write calls) <= 2)%nat.
Proof.
  intros H.
  assert (forall i c, calls !! i = Some c -> (i < 7)%nat
                      /\ (is_write c = true -> i = 2%nat \/ i = 5%nat)) as Hi.
  { intros i c Hc. apply H in Hc. cbn [Nat.add] in Hc.
    do 7 (destruct i as [|i]; [split; [lia|]; destruct c; try discriminate; auto|]).
    discriminate. }
  split.
  - destruct (Nat.le_gt_cases (length calls) 7) as [|Hlt]; [assumption|].
    destruct (lookup_lt_is_Some_2 calls 7 Hlt) as [c Hc].
    apply Hi in Hc. lia.
  - assert (forall k, (k < length calls)%nat -> k <> 2%nat -> k <> 5%nat ->
                      exists c, calls !! k = Some c /\ is_write c = false) as Hno.
    { intros k Hk H2 H5. destruct (lookup_lt_is_Some_2 calls k Hk) as [c Hc].
      exists c. split; [assumption|]. destruct (is_write c) eqn:E; [|reflexivity].
      destruct (Hi k c Hc) as [_ Hw]. destruct (Hw E); contradiction. }
    assert (length calls <= 7)%nat as Hlen.
    { destruct (Nat.le_gt_cases (length calls) 7) as [|Hlt]; [assumption|].
      destruct (lookup_lt_is_Some_2 calls 7 Hlt) as [c Hc].
      apply Hi in Hc. lia. }
    clear Hno H.
    destruct calls as [|c0 [|c1 [|c2 [|c3 [|c4 [|c5 [|c6 [|c7 rest]]]]]]]];
      cbn [length] in Hlen; try lia; clear Hlen.
    all: cbn [List.filter].
    all: repeat match goal with
         | |- context [if is_write ?c then _ else _] =>
           destruct (is_write c) eqn:?
         end.
    all: cbn [List.filter length]; try lia.
    all: exfalso.
    all: try (destruct (proj2 (Hi 0%nat c0 eq_refl)); [assumption|discriminate..]).
    all: try (destruct (proj2 (Hi 1%nat c1 eq_refl)); [assumption|discriminate..]).
    all: try (destruct (proj2 (Hi 3%nat c3 eq_refl)); [assumption|discriminate..]).
    all: try (destruct (proj2 (Hi 4%nat c4 eq_refl)); [assumption|discriminate..]).
    all: try (destruct (proj2 (Hi 6%nat c6 eq_refl)); [assumption|discriminate..]).
Qed.


Lemma fetch_state_calls issuer log :
  getIssuerAccount W = Ok issuer ->
  exists r,
    fetchIssuerAccountState W log
    = (r, log ++ [AccountInformationCall (addr issuer)])
    /\ forall st, r = Ok st -> address st = addr issuer.
Proof.
  intros HA. unfold fetchIssuerAccountState, getIssuerAddress. run.
  rewrite HA.
  destruct (accountInformation W log (addr issuer)) as [info|e];
    eexists; (split; [reflexivity|]); [|discriminate].
  now intros st [= <-].
Qed.

Lemma fetch_state_unconfigured e log :
  getIssuerAccount W = Throw e ->
  fetchIssuerAccountState W log = (Throw e, log).
Proof.
  intros HA. unfold fetchIssuerAccountState, getIssuerAddress. run.
  now rewrite HA.
Qed.

(** What [createProofTransaction] does: the parameters, the submission
    of the marker and the wait for it, as far as the calls succeed. *)
Lemma createProofTransaction_run issuer hash m log :
  getIssuerAccount W = Ok issuer ->
  exists r calls sp txId,
    let log1 := log ++ [TransactionParamsCall] in
    let txn :=
      PaymentTxn (addr issuer) (addr issuer) 0 sp
        (buildTrustChainNote (clock W log1) hash (proofMetadata m)) in
    let full := [TransactionParamsCall;
                 SendRawTransactionCall txn (sk issuer);
                 WaitForConfirmationCall txId] in
    createProofTransaction W hash m log = (r, log ++ calls)
    /\ calls `prefix_of` full
    /\ (forall pt, r = Ok pt ->
          calls = full /\ pt_txId pt = txId
          /\ sendRawTransaction W log1 txn (sk issuer) = Ok txId
          /\ exists conf,
               waitForConfirmation W
                 (log1 ++ [SendRawTransactionCall txn (sk issuer)]) txId
               = Ok conf
               /\ pt_confirmedRound pt = conf_confirmed_round conf).
Proof.
  intros HA. unfold createProofTransaction. run. rewrite HA.
  destruct (getTransactionParams W log) as [sp|e].
  2: { exists (Throw e), [TransactionParamsCall], JNull, [].
       split_and!; [reflexivity|now eexists|discriminate]. }
  cbn beta iota.
  match goal with
  | |- context [sendRawTransaction W ?l ?t ?k] =>
    set (txn := t); destruct (sendRawTransaction W l txn k) as [txId|e] eqn:Hs
  end.
  2: { exists (Throw e),
         [TransactionParamsCall; SendRawTransactionCall txn (sk issuer)], sp, [].
       rewrite <- app_assoc.
       split_and!; [reflexivity|now eexists|discriminate]. }
  cbn beta iota.
  match goal with
  | |- context [waitForConfirmation W ?l ?t] =>
    destruct (waitForConfirmation W l t) as [conf|e] eqn:Hw
  end.
  all: eexists _, [TransactionParamsCall; SendRawTransactionCall txn (sk issuer);
                   WaitForConfirmationCall txId], sp, txId.
  all: rewrite <- !app_assoc.
  all: split_and!; [reflexivity|reflexivity|try discriminate].
  intros pt [= <-]. split_and!; try reflexivity; [exact Hs|].
  exists conf. split; [|reflexivity]. rewrite <- Hw. now rewrite <- app_assoc.
Qed.

(** What [mintProofAsset] does. *)
Lemma mintProofAsset_run issuer hash m log :
  getIssuerAccount W = Ok issuer ->
  exists r calls sp txId,
    let log1 := log ++ [TransactionParamsCall] in
    let txn :=
      AssetCreateTxn (addr issuer) sp 1 0 false (str "TRUSTPRF")
        (str "TrustChain Proof " ++ firstn 10 (clock W log1))
        (str "https://trustchain.app/proof/" ++ firstn 32 hash)
        (addr issuer) (addr issuer) (addr issuer) (addr issuer)
        (buildTrustChainNote (clock W log1) hash (asaMetadata m)) in
    let full := [TransactionParamsCall;
                 SendRawTransactionCall txn (sk issuer);
                 WaitForConfirmationCall txId] in
    mintProofAsset W hash m log = (r, log ++ calls)
    /\ calls `prefix_of` full
    /\ (forall a, r = Ok a ->
          calls = full /\ at_txId a = txId
          /\ sendRawTransaction W log1 txn (sk issuer) = Ok txId
          /\ exists conf,
               waitForConfirmation W
                 (log1 ++ [SendRawTransactionCall txn (sk issuer)]) txId
               = Ok conf
               /\ at_assetId a = conf_asset_index conf).
Proof.
  intros HA. unfold mintProofAsset. run. rewrite HA.
  destruct (getTransactionParams W log) as [sp|e].
  2: { exists (Throw e), [TransactionParamsCall], JNull, [].
       split_and!; [reflexivity|now eexists|discriminate]. }
  cbn beta iota.
  match goal with
  | |- context [sendRawTransaction W ?l ?t ?k] =>
    set (txn := t); destruct (sendRawTransaction W l txn k) as [txId|e] eqn:Hs
  end.
  2: { exists (Throw e),
         [TransactionParamsCall; SendRawTransactionCall txn (sk issuer)], sp, [].
       rewrite <- app_assoc.
       split_and!; [reflexivity|now eexists|discriminate]. }
  cbn beta iota.
  match goal with
  | |- context [waitForConfirmation W ?l ?t] =>
    destruct (waitForConfirmation W l t) as [conf|e] eqn:Hw
  end.
  all: eexists _, [TransactionParamsCall; SendRawTransactionCall txn (sk issuer);
                   WaitForConfirmationCall txId], sp, txId.
  all: rewrite <- !app_assoc.
  all: split_and!; [reflexivity|reflexivity|try discriminate].
  intros a [= <-]. split_and!; try reflexivity; [exact Hs|].
  exists conf. split; [|reflexivity]. rewrite <- Hw. now rewrite <- app_assoc.
Qed.

Lemma marker_calls_follow issuer sp note txId :
  follows_protocol issuer 1
    [TransactionParamsCall;
     SendRawTransactionCall
       (PaymentTxn (addr issuer) (addr issuer) 0 sp note) (sk issuer);
     WaitForConfirmationCall txId].
Proof.
  intros [|[|[|i]]] c; [now intros [= <-]| |now intros [= <-]|discriminate].
  intros [= <-]. cbn [issue_step_ok Nat.add].
  now rewrite !str_eqb_refl, same_key.
Qed.

Lemma asset_calls_follow issuer sp name url note txId :
  follows_protocol issuer 4
    [TransactionParamsCall;
     SendRawTransactionCall
       (AssetCreateTxn (addr issuer) sp 1 0 false (str "TRUSTPRF") name url
          (addr issuer) (addr issuer) (addr issuer) (addr issuer) note)
       (sk issuer);
     WaitForConfirmationCall txId].
Proof.
  intros [|[|[|i]]] c; [now intros [= <-]| |now intros [= <-]|discriminate].
  intros [= <-]. cbn [issue_step_ok Nat.add].
  now rewrite !str_eqb_refl, same_key.
Qed.


(** The run of the issue route for a valid upload and a configured
    issuer: the calls it makes are the first ones of the seven of an
    issuance, and it answers after the first (the balance is short) or
    after the last (the proof is issued). *)
Lemma issue_body_run req log f fileBuffer issuer :
  file req = Some f -> buffer f = Some fileBuffer -> originalname f <> [] ->
  blank (env_ALGORAND_MNEMONIC W) = false ->
  getIssuerAccount W = Ok issuer ->
  exists r calls sp1 tx1 sp2 tx2,
    let hash := computeSHA256 fileBuffer in
    let label := str_or_null (Some (trim (str_or (body_label req) []))) in
    let acc := AccountInformationCall (addr issuer) in
    let marker :=
      PaymentTxn (addr issuer) (addr issuer) 0 sp1
        (buildTrustChainNote (clock W (log ++ [acc; TransactionParamsCall]))
           hash
           (proofMetadata
              {| fileName := originalname f; mimeType := mimetype f;
                 fileSize := size f; referenceLabel := label |})) in
    let sent := [acc; TransactionParamsCall;
                 SendRawTransactionCall marker (sk issuer);
                 WaitForConfirmationCall tx1; TransactionParamsCall] in
    let asset :=
      AssetCreateTxn (addr issuer) sp2 1 0 false (str "TRUSTPRF")
        (str "TrustChain Proof " ++ firstn 10 (clock W (log ++ sent)))
        (str "https://trustchain.app/proof/" ++ firstn 32 hash)
        (addr issuer) (addr issuer) (addr issuer) (addr issuer)
        (buildTrustChainNote (clock W (log ++ sent)) hash
           (asaMetadata
              {| fileName := originalname f; mimeType := None;
                 fileSize := None; referenceLabel := label |})) in
    let full := sent ++ [SendRawTransactionCall asset (sk issuer);
                         WaitForConfirmationCall tx2] in
    issue_body W req log = (r, log ++ calls)
    /\ calls `prefix_of` full
    /\ forall out, r = Ok out ->
         (exists st,
            amount st < issueMinRecommendedMicroAlgos W
            /\ calls = [acc]
            /\ out = Respond 400
                       (InsufficientBalanceBody insufficient_balance_message
                          (addr issuer) (amount st)
                          (issueMinRecommendedMicroAlgos W) testnetFundingUrl))
         \/ (exists conf1 conf2,
               calls = full
               /\ sendRawTransaction W (log ++ [acc; TransactionParamsCall])
                    marker (sk issuer) = Ok tx1
               /\ waitForConfirmation W
                    (log ++ [acc; TransactionParamsCall;
                             SendRawTransactionCall marker (sk issuer)]) tx1
                  = Ok conf1
               /\ sendRawTransaction W (log ++ sent) asset (sk issuer) = Ok tx2
               /\ waitForConfirmation W
                    (log ++ sent ++ [SendRawTransactionCall asset (sk issuer)])
                    tx2
                  = Ok conf2
               /\ out = Respond 201
                          (IssuedBody (str "Proof issued successfully")
                             {| ip_id := tx1;
                                ip_fileName := originalname f;
                                ip_referenceLabel := label;
                                ip_mimeType := mimetype f;
                                ip_fileSize := size f;
                                ip_hash := hash;
                                ip_transactionId := tx1;
                                ip_transactionRound := conf_confirmed_round conf1;
                                ip_assetId := conf_asset_index conf2;
                                ip_assetTransactionId := tx2;
                                ip_issuedAt := clock W (log ++ full) |})).
Proof.
  intros Hf Hb Hname Hblank HA. unfold issue_body. rewrite Hf, Hb, Hblank.
  destruct (originalname f) as [|u name] eqn:Hn; [contradiction|].
  rewrite <- Hn. clear Hname.
  set (hash := computeSHA256 fileBuffer).
  set (label := str_or_null _).
  run.
  destruct (fetch_state_calls issuer log HA) as (r & -> & Hst).
  destruct r as [st|e].
  2: { exists (Throw e), [AccountInformationCall (addr issuer)], JNull, [], JNull, [].
       split_and!; [reflexivity|now eexists|discriminate]. }
  specialize (Hst st eq_refl).
  destruct (Z.ltb_spec (amount st) (issueMinRecommendedMicroAlgos W)) as [Hlt|Hge].
  { eexists _, [AccountInformationCall (addr issuer)], JNull, [], JNull, [].
    split_and!; [reflexivity|now eexists|].
    intros out [= <-]. left. exists st. now rewrite Hst. }
  match goal with
  | |- context [createProofTransaction W ?h ?m ?l] =>
    destruct (createProofTransaction_run issuer h m l HA)
      as (r1 & c1 & sp1 & tx1 & -> & P1 & K1)
  end.
  rewrite <- !app_assoc in *. cbn [app] in *.
  destruct r1 as [pt|e].
  2: { exists (Throw e), (AccountInformationCall (addr issuer) :: c1), sp1, tx1,
         JNull, [].
       split_and!; [reflexivity| |discriminate].
       destruct P1 as [rest P1]. eexists (rest ++ _).
       cbn [app]. rewrite (app_assoc c1), <- P1. reflexivity. }
  destruct (K1 pt eq_refl) as (Hc1 & Hid & Hs1 & conf1 & Hw1 & Hr1).
  clear K1 P1. subst c1.
  cbn [app].
  match goal with
  | |- context [mintProofAsset W ?h ?m ?l] =>
    destruct (mintProofAsset_run issuer h m l HA)
      as (r2 & c2 & sp2 & tx2 & -> & P2 & K2)
  end.
  rewrite <- !app_assoc in *. cbn [app] in *.
  destruct r2 as [a|e].
  2: { eexists (Throw e), (_ :: _ :: _ :: _ :: c2), sp1, tx1, sp2, tx2.
       split_and!; [reflexivity| |discriminate].
       destruct P2 as [rest P2]. exists rest.
       cbn [app]. rewrite <- P2. reflexivity. }
  destruct (K2 a eq_refl) as (Hc2 & Hid2 & Hs2 & conf2 & Hw2 & Hr2).
  clear K2 P2. subst c2.
  eexists _, _, sp1, tx1, sp2, tx2.
  split_and!; [reflexivity|reflexivity|].
  intros out [= <-]. right. exists conf1, conf2.
  split_and!; try reflexivity; try assumption.
  rewrite Hid, Hid2, Hr1, Hr2. reflexivity.
Qed.

End WithWorld.
End ProtocolFacts.

(** * What the issue route does and answers *)

Module IssueFacts.
Import ProtocolFacts.
Section WithWorld.
Context `{RT : Runtime} (W : World).

Import Codec Backend.

(** What the [catch] block makes of an error. *)
Lemma issue_of_throw req log e log' :
  issue_body W req log = (Throw e, log') ->
  issue W req log
  = (if isInsufficientFundsError e then
       match getIssuerAddress W with
       | Ok issuer =>
         Respond 400
           (InsufficientFeesBody
              (str "Issuer wallet has insufficient TestNet ALGO balance to pay network fees.")
              issuer (issueMinRecommendedMicroAlgos W) testnetFundingUrl)
       | Throw e' => Escaped e'
       end
     else Next e, log').
Proof.
  intros H. unfold issue. rewrite H.
  destruct (isInsufficientFundsError e); [|reflexivity].
  now destruct (getIssuerAddress W).
Qed.

Lemma issue_of_ok req log out log' :
  issue_body W req log = (Ok out, log') -> issue W req log = (out, log').
Proof. intros H. unfold issue. now rewrite H. Qed.

(** A request is answered at once, or it is a valid upload for a
    configured mnemonic. *)
Lemma issue_body_early req log :
  valid_upload req = false \/ blank (env_ALGORAND_MNEMONIC W) = true ->
  exists msg, issue_body W req log = (Ok (Respond 400 (ErrorBody msg)), log).
Proof.
  unfold valid_upload, issue_body.
  destruct (file req) as [f|]; [|eexists; reflexivity].
  destruct (buffer f) as [fileBuffer|]; [|eexists; reflexivity].
  destruct (originalname f) as [|u name]; [eexists; reflexivity|].
  intros [H|H]; [discriminate|]. rewrite H. eexists; reflexivity.
Qed.

Lemma valid_upload_inv req :
  valid_upload req = true ->
  exists f fileBuffer,
    file req = Some f /\ buffer f = Some fileBuffer /\ originalname f <> [].
Proof.
  unfold valid_upload. destruct (file req) as [f|]; [|discriminate].
  destruct (buffer f) as [fileBuffer|] eqn:Hb; [|discriminate].
  destruct (originalname f) eqn:Hn; [discriminate|].
  intros _. exists f, fileBuffer. rewrite Hn. now split_and!.
Qed.

Lemma issue_body_unconfigured req log e :
  valid_upload req = true -> blank (env_ALGORAND_MNEMONIC W) = false ->
  getIssuerAccount W = Throw e ->
  issue_body W req log = (Throw e, log).
Proof.
  intros Hv Hb HA. destruct (valid_upload_inv req Hv) as (f & fb & Hf & Hfb & Hn).
  unfold issue_body. rewrite Hf, Hfb, Hb.
  destruct (originalname f); [contradiction|].
  run. now rewrite (fetch_state_unconfigured W e log HA).
Qed.

(** X1.  Whatever the request and whatever the ledger answers, the issue
    route adds to the log at most seven calls, of which at most two are
    submissions; and the calls it adds are, in this order, the ones of
    an issuance for the configured issuer, as far as it gets: the
    balance, then the parameters, the marker transaction (a payment of
    the issuer to itself of nothing, signed with the issuer's key) and
    the wait for it, then the parameters, the creation of the asset
    (one unit, no decimals, all four roles with the issuer) and the
    wait for it. *)
Theorem issue_follows_protocol req log :
  exists calls,
    snd (issue W req log) = log ++ calls
    /\ (length calls <= 7)%nat
    /\ (length (List.filter is_write calls) <= 2)%nat
    /\ (calls = [] \/
        exists issuer,
          getIssuerAccount W = Ok issuer /\ follows_protocol issuer 0 calls).
Proof.
  rewrite issue_log.
  assert (forall calls, calls = [] ->
            snd (issue_body W req log) = log ++ calls ->
            exists calls,
              snd (issue_body W req log) = log ++ calls
              /\ (length calls <= 7)%nat
              /\ (length (List.filter is_write calls) <= 2)%nat
              /\ (calls = [] \/
                  exists issuer,
                    getIssuerAccount W = Ok issuer
                    /\ follows_protocol issuer 0 calls)) as Hnone.
  { intros calls -> H. exists []. split_and!; [exact H|cbn; lia..|now left]. }
  destruct (valid_upload req) eqn:Hv.
  2: { destruct (issue_body_early req log (or_introl Hv)) as [msg H].
       apply (Hnone [] eq_refl). now rewrite H, app_nil_r. }
  destruct (blank (env_ALGORAND_MNEMONIC W)) eqn:Hb.
  { destruct (issue_body_early req log (or_intror Hb)) as [msg H].
    apply (Hnone [] eq_refl). now rewrite H, app_nil_r. }
  destruct (getIssuerAccount W) as [issuer|e] eqn:HA.
  2: { apply (Hnone [] eq_refl).
       now rewrite (issue_body_unconfigured req log e Hv Hb HA), app_nil_r. }
  destruct (valid_upload_inv req Hv) as (f & fb & Hf & Hfb & Hn).
  destruct (issue_body_run W req log f fb issuer Hf Hfb Hn Hb HA)
    as (r & calls & sp1 & tx1 & sp2 & tx2 & Hrun & Hpre & _).
  cbv zeta in Hrun, Hpre.
  assert (follows_protocol issuer 0 calls) as Hp.
  { eapply follows_protocol_prefix; [exact Hpre|].
    apply (follows_protocol_app issuer 0 [AccountInformationCall (addr issuer)]).
    { intros [|i] c; [intros [= <-]|discriminate]. cbn. apply str_eqb_refl. }
    apply (follows_protocol_app issuer 1 [_; _; _]);
      [apply marker_calls_follow|apply asset_calls_follow]. }
  exists calls. rewrite Hrun. cbn [snd].
  destruct (protocol_bounds issuer calls Hp) as [B1 B2].
  split_and!; [reflexivity|exact B1|exact B2|].
  right. exists issuer. now split.
Qed.


(** The outcomes of a valid upload for a configured mnemonic. *)
(** X3.  A proof is reported as issued (status 201) only after the whole
    issuance: the log has grown by the seven calls, the ledger has
    accepted the marker and the asset and has confirmed both, and the
    response holds the digest of the uploaded file, the identifiers that
    the ledger returned for the two transactions, the round of the
    marker and the asset index of the asset's confirmation. *)
Theorem issue_success_means_confirmed req log status msg p log' :
  issue W req log = (Respond status (IssuedBody msg p), log') ->
  exists issuer f fileBuffer marker asset conf1 conf2,
    let sent := [AccountInformationCall (addr issuer); TransactionParamsCall;
                 SendRawTransactionCall marker (sk issuer);
                 WaitForConfirmationCall (ip_transactionId p);
                 TransactionParamsCall] in
    status = 201
    /\ getIssuerAccount W = Ok issuer
    /\ file req = Some f /\ buffer f = Some fileBuffer
    /\ log' = log ++ sent ++ [SendRawTransactionCall asset (sk issuer);
                              WaitForConfirmationCall (ip_assetTransactionId p)]
    /\ sendRawTransaction W
         (log ++ [AccountInformationCall (addr issuer); TransactionParamsCall])
         marker (sk issuer) = Ok (ip_transactionId p)
    /\ waitForConfirmation W
         (log ++ [AccountInformationCall (addr issuer); TransactionParamsCall;
                  SendRawTransactionCall marker (sk issuer)])
         (ip_transactionId p) = Ok conf1
    /\ sendRawTransaction W (log ++ sent) asset (sk issuer)
       = Ok (ip_assetTransactionId p)
    /\ waitForConfirmation W
         (log ++ sent ++ [SendRawTransactionCall asset (sk issuer)])
         (ip_assetTransactionId p) = Ok conf2
    /\ ip_hash p = computeSHA256 fileBuffer
    /\ ip_id p = ip_transactionId p
    /\ ip_fileName p = originalname f
    /\ ip_transactionRound p = conf_confirmed_round conf1
    /\ ip_assetId p = conf_asset_index conf2.
Proof.
  intros H.
  destruct (valid_upload req) eqn:Hv.
  2: { destruct (issue_body_early req log (or_introl Hv)) as [m Hb].
       rewrite (issue_of_ok _ _ _ _ Hb) in H. discriminate. }
  destruct (blank (env_ALGORAND_MNEMONIC W)) eqn:Hb.
  { destruct (issue_body_early req log (or_intror Hb)) as [m Hb'].
    rewrite (issue_of_ok _ _ _ _ Hb') in H. discriminate. }
  destruct (getIssuerAccount W) as [issuer|e] eqn:HA.
  2: { rewrite (issue_of_throw _ _ _ _ (issue_body_unconfigured req log e Hv Hb HA))
         in H.
       destruct (isInsufficientFundsError e); [|discriminate].
       unfold getIssuerAddress in H. rewrite HA in H. discriminate. }
  destruct (valid_upload_inv req Hv) as (f & fb & Hf & Hfb & Hn).
  destruct (issue_body_run W req log f fb issuer Hf Hfb Hn Hb HA)
    as (r & calls & sp1 & tx1 & sp2 & tx2 & Hrun & _ & Hout).
  cbv zeta in Hrun, Hout.
  destruct r as [out|e].
  2: { rewrite (issue_of_throw _ _ _ _ Hrun) in H.
       destruct (isInsufficientFundsError e); [|discriminate].
       unfold getIssuerAddress in H. rewrite HA in H. discriminate. }
  rewrite (issue_of_ok _ _ _ _ Hrun) in H. injection H as -> <-.
  destruct (Hout _ eq_refl)
    as [(st & _ & _ & [=])|(c1 & c2 & -> & S1 & W1 & S2 & W2 & E)].
  pose proof (f_equal (fun o => match o with
                               | Respond s _ => s
                               | _ => 0
                               end) E) as Es.
  pose proof (f_equal (fun o => match o with
                               | Respond _ (IssuedBody _ q) => q
                               | _ => p
                               end) E) as Ep.
  cbn beta iota in Es, Ep. clear E. subst status p.
  cbn [ip_transactionId ip_assetTransactionId ip_hash
    ip_id ip_fileName ip_transactionRound ip_assetId].
  eexists issuer, f, fb, _, _, c1, c2. cbv zeta.
  split_and!; try reflexivity; try assumption.
Qed.

(** A valid upload with a mnemonic that cannot be read. *)
Lemma issue_unreadable_mnemonic req log e :
  valid_upload req = true -> blank (env_ALGORAND_MNEMONIC W) = false ->
  getIssuerAccount W = Throw e ->
  issue W req log
  = (if isInsufficientFundsError e then Escaped e else Next e, log).
Proof.
  intros Hv Hb HA.
  rewrite (issue_of_throw _ _ _ _ (issue_body_unconfigured req log e Hv Hb HA)).
  unfold getIssuerAddress. now rewrite HA.
Qed.


(** The notes of the transactions that the issue route submits are
    built of the digest of the upload and of the metadata of one of the
    two kinds. *)
Lemma submitted_notes req log f fileBuffer calls txn key :
  (forall l, units_ok (clock W l) = true) ->
  file req = Some f -> buffer f = Some fileBuffer ->
  wf_file f = true -> wf_label (body_label req) = true ->
  snd (issue W req log) = log ++ calls ->
  In (SendRawTransactionCall txn key) calls ->
  exists t m,
    txn_note txn = buildTrustChainNote t (computeSHA256 fileBuffer) m
    /\ units_ok t = true /\ wf_props m = true /\ lacks_hash m = true.
Proof.
  intros Hclock Hf Hfb Hwf Hl Hlog Hin. rewrite issue_log in Hlog.
  assert (snd (issue_body W req log) = log -> False) as Hnone.
  { intros E. rewrite E in Hlog. rewrite <- (app_nil_r log) in Hlog at 1.
    apply app_inv_head in Hlog. subst calls. destruct Hin. }
  destruct (valid_upload req) eqn:Hv.
  2: { destruct (issue_body_early req log (or_introl Hv)) as [m Hb].
       exfalso. apply Hnone. now rewrite Hb. }
  destruct (blank (env_ALGORAND_MNEMONIC W)) eqn:Hb.
  { destruct (issue_body_early req log (or_intror Hb)) as [m Hb'].
    exfalso. apply Hnone. now rewrite Hb'. }
  destruct (getIssuerAccount W) as [issuer|e] eqn:HA.
  2: { exfalso. apply Hnone.
       now rewrite (issue_body_unconfigured req log e Hv Hb HA). }
  destruct (valid_upload_inv req Hv) as (f' & fb' & Hf' & Hfb' & Hn).
  rewrite Hf in Hf'. injection Hf' as <-.
  rewrite Hfb in Hfb'. injection Hfb' as <-.
  destruct (issue_body_run W req log f fileBuffer issuer Hf Hfb Hn Hb HA)
    as (r & calls' & sp1 & tx1 & sp2 & tx2 & Hrun & [rest Hpre] & _).
  cbv zeta in Hrun, Hpre. rewrite Hrun in Hlog. cbn [snd] in Hlog.
  apply app_inv_head in Hlog. subst calls'.
  assert (In (SendRawTransactionCall txn key) (calls ++ rest)) as Hin'
    by (apply in_or_app; now left).
  rewrite <- Hpre in Hin'. clear Hpre Hin Hrun.
  apply andb_prop in Hwf as [Hname Hmime].
  pose proof (MetadataFacts.label_wf _ Hl) as Hlabel.
  cbn [app In] in Hin'.
  destruct Hin' as [H|[H|[H|[H|[H|[H|[H|[]]]]]]]]; try discriminate.
  - injection H as <- _. cbn [txn_note].
    eexists _, _. split; [reflexivity|]. split; [apply Hclock|].
    now apply MetadataFacts.proofMetadata_wf.
  - injection H as <- _. cbn [txn_note].
    eexists _, _. split; [reflexivity|]. split; [apply Hclock|].
    now apply MetadataFacts.asaMetadata_wf.
Qed.

(** X4.  Every transaction that the issue route submits, the marker and
    the asset alike, carries a note from which the fingerprint that is
    read back is the digest of the uploaded file. *)
Theorem issue_notes_carry_digest req log f fileBuffer calls txn key round :
  (forall l, units_ok (clock W l) = true) ->
  file req = Some f -> buffer f = Some fileBuffer ->
  wf_file f = true -> wf_label (body_label req) = true ->
  snd (issue W req log) = log ++ calls ->
  In (SendRawTransactionCall txn key) calls ->
  parseHashFromTransaction (Some (carrying (txn_note txn) round))
  = Some (computeSHA256 fileBuffer).
Proof.
  intros Hclock Hf Hfb Hwf Hl Hlog Hin.
  destruct (submitted_notes req log f fileBuffer calls txn key
              Hclock Hf Hfb Hwf Hl Hlog Hin) as (t & m & -> & Ht & Hm & Hh).
  now apply CodecFacts.digest_roundtrip.
Qed.

(** X5.  Issuing and verifying fit together.  When the indexer returns
    a transaction whose note is the note of a transaction that the
    issue route submitted for a file, the verify route answers for the
    same content VERIFIED, and for every content INVALID unless its
    digest is the digest of the issued file. *)
Theorem issued_transaction_verifies
  req log f fileBuffer calls txn key req' f' fileBuffer' tid t log2 :
  (forall l, units_ok (clock W l) = true) ->
  file req = Some f -> buffer f = Some fileBuffer ->
  wf_file f = true -> wf_label (body_label req) = true ->
  snd (issue W req log) = log ++ calls ->
  In (SendRawTransactionCall txn key) calls ->
  file req' = Some f' -> buffer f' = Some fileBuffer' ->
  toUpperCase (trim (str_or (body_transactionId req') [])) = tid ->
  is_transaction_id tid = true ->
  lookupTransactionByID W log2 tid = Ok (Some t) ->
  note t = Some (txn_note txn) ->
  let verified :=
    bool_decide (computeSHA256 fileBuffer' = computeSHA256 fileBuffer) in
  verify W req' log2
  = (Respond 200
       (VerificationBody
          {| v_status := if verified then str "VERIFIED" else str "INVALID";
             v_verified := verified;
             v_transactionId := tid;
             v_uploadedHash := computeSHA256 fileBuffer';
             v_onChainHash := computeSHA256 fileBuffer;
             v_confirmedRound := num_or_null (confirmed_round t) |}),
     log2 ++ [LookupTransactionByIDCall tid]).
Proof.
  intros Hclock Hf Hfb Hwf Hl Hlog Hin Hf' Hfb' Htid Hid Hfound Hnote verified.
  destruct (submitted_notes req log f fileBuffer calls txn key
              Hclock Hf Hfb Hwf Hl Hlog Hin) as (now & m & E & Ht & Hm & Hh).
  assert (parseHashFromTransaction (Some t) = Some (computeSHA256 fileBuffer))
    as Hparse.
  { destruct t as [n r]. cbn [note] in Hnote. subst n. rewrite E.
    apply (CodecFacts.digest_roundtrip now fileBuffer m r Ht Hm Hh). }
  unfold verify, verify_body. rewrite Hf'.
  destruct f' as [b' n' m' s']. cbn [buffer] in Hfb'. subst b'.
  rewrite Htid.
  destruct tid as [|c tid']; [discriminate|].
  rewrite Hid. cbn [negb]. unfold fetchTransactionById. run.
  rewrite Hfound. cbn beta iota. rewrite Hparse.
  destruct (computeSHA256 fileBuffer) as [|d h] eqn:Ed;
    [now apply DigestFacts.computeSHA256_nonempty in Ed|].
  reflexivity.
Qed.

End WithWorld.

Lemma issue_success_means_confirmed_witness :
  exists p,
    fst (Backend.issue (RT := ascii_runtime) (sample_world 500000 100000 None)
           (sample_request None) [])
    = Backend.Respond 201
        (Backend.IssuedBody (str "Proof issued successfully") p)
    /\ Backend.ip_hash p = Codec.computeSHA256 [x61; x62; x63].
Proof.
  destruct (Backend.issue (RT := ascii_runtime)
              (sample_world 500000 100000 None) (sample_request None) [])
    as [out l] eqn:E.
  assert (exists p, out = Backend.Respond 201
                            (Backend.IssuedBody (str "Proof issued successfully") p))
    as [p ->].
  { apply (f_equal fst) in E. cbn [fst] in E. rewrite <- E.
    eexists. vm_compute. reflexivity. }
  exists p. split; [reflexivity|].
  destruct (issue_success_means_confirmed (RT := ascii_runtime)
              _ _ _ _ _ _ _ E)
    as (issuer & f & fb & marker & asset & c1 & c2 & H).
  cbv zeta in H.
  destruct H as (_ & _ & Hf & Hb & _ & _ & _ & _ & _ & Hh & _).
  rewrite Hh. injection Hf as <-. cbn in Hb. now injection Hb as <-.
Defined.

Lemma issue_notes_carry_digest_witness :
  Codec.parseHashFromTransaction (RT := ascii_runtime) (Some sample_marker)
  = Some (Codec.computeSHA256 [x61; x62; x63]).
Proof.
  refine (issue_notes_carry_digest (RT := ascii_runtime)
            (sample_world 500000 100000 None) (sample_request None) []
            sample_file [x61; x62; x63]
            (snd (Backend.issue (RT := ascii_runtime)
                    (sample_world 500000 100000 None) (sample_request None) []))
            (PaymentTxn (str "ISSUERADDRESS") (str "ISSUERADDRESS") 0 JNull
               (Codec.buildTrustChainNote sample_time
                  (Codec.computeSHA256 [x61; x62; x63])
                  (Backend.proofMetadata sample_metadata)))
            [x01; x02] (Some 41) _ _ _ _ _ _ _).
  - intros l. reflexivity.
  - reflexivity.
  - reflexivity.
  - reflexivity.
  - reflexivity.
  - reflexivity.
  - vm_compute. right. right. left. reflexivity.
Defined.

Lemma issued_transaction_verifies_witness :
  exists v,
    Backend.verify (RT := ascii_runtime)
      (sample_world 500000 100000 (Some sample_marker))
      (sample_request
         (Some (str " abcdefghijklmnopqrstuvwxyz234567abcdefghijklmnopqrst")))
      []
    = (Backend.Respond 200 (Backend.VerificationBody v),
       [LookupTransactionByIDCall sample_transaction_id])
    /\ Backend.v_verified v = true.
Proof.
  eexists. split.
  - refine (issued_transaction_verifies (RT := ascii_runtime)
              (sample_world 500000 100000 (Some sample_marker))
              (sample_request None) []
              sample_file [x61; x62; x63]
              (snd (Backend.issue (RT := ascii_runtime)
                      (sample_world 500000 100000 (Some sample_marker))
                      (sample_request None) []))
              (PaymentTxn (str "ISSUERADDRESS") (str "ISSUERADDRESS") 0 JNull
                 (Codec.buildTrustChainNote sample_time
                    (Codec.computeSHA256 [x61; x62; x63])
                    (Backend.proofMetadata sample_metadata)))
              [x01; x02] _ sample_file [x61; x62; x63]
              sample_transaction_id sample_marker []
              _ _ _ _ _ _ _ _ _ _ _ _ _).
    + intros l. reflexivity.
    + reflexivity.
    + reflexivity.
    + reflexivity.
    + reflexivity.
    + reflexivity.
    + vm_compute. right. right. left. reflexivity.
    + reflexivity.
    + reflexivity.
    + reflexivity.
    + reflexivity.
    + reflexivity.
    + reflexivity.
  - vm_compute. reflexivity.
Defined.

End IssueFacts.

(** * What the verify route does and answers *)

Module VerifyFacts.
Import ProtocolFacts.
Section WithWorld.
Context `{RT : Runtime} (W : World).

Import Codec Backend.

(** The run of the verify route, case by case. *)
Lemma verify_run req log :
  let tid := toUpperCase (trim (str_or (body_transactionId req) [])) in
  (exists msg, verify W req log = (Respond 400 (ErrorBody msg), log)
               /\ (valid_content req = false \/ is_transaction_id tid = false))
  \/ (exists fileBuffer,
        content req = Some fileBuffer /\ is_transaction_id tid = true
        /\ snd (verify W req log) = log ++ [LookupTransactionByIDCall tid]
        /\ match lookupTransactionByID W log tid with
           | Throw e => fst (verify W req log) = Next e
           | Ok None =>
             exists msg, fst (verify W req log) = Respond 404 (ErrorBody msg)
           | Ok (Some t) =>
             match parseHashFromTransaction (Some t) with
             | Some (c :: h) =>
               let verified := str_eqb (computeSHA256 fileBuffer) (c :: h) in
               fst (verify W req log)
               = Respond 200
                   (VerificationBody
                      {| v_status :=
                           if verified then str "VERIFIED" else str "INVALID";
                         v_verified := verified;
                         v_transactionId := tid;
                         v_uploadedHash := computeSHA256 fileBuffer;
                         v_onChainHash := c :: h;
                         v_confirmedRound := num_or_null (confirmed_round t) |})
             | _ =>
               exists msg, fst (verify W req log) = Respond 422 (ErrorBody msg)
             end
           end).
Proof.
  intros tid. unfold verify, verify_body, valid_content, content.
  destruct (file req) as [[[fileBuffer|] name mime sz]|];
    try (left; eexists; split; [reflexivity|now left]).
  fold tid.
  destruct tid as [|c tid'] eqn:Etid;
    [left; eexists; split; [reflexivity|now right]|].
  rewrite <- Etid.
  destruct (is_transaction_id tid) eqn:Hid;
    [|left; eexists; split; [reflexivity|now right]].
  right. exists fileBuffer. split; [reflexivity|]. split; [reflexivity|].
  cbn [negb]. unfold fetchTransactionById. run.
  destruct (lookupTransactionByID W log tid) as [[t|]|e];
    [|split; [reflexivity|eexists; reflexivity]|split; reflexivity].
  cbn beta iota.
  destruct (parseHashFromTransaction (Some t)) as [[|d h]|];
    (split; [reflexivity|]); try (eexists; reflexivity).
Qed.


(** X7.  The verify route never writes: it leaves the log as it is, or
    adds to it one lookup, of an identifier of 52 characters of the
    base-32 alphabet, which is the identifier of the request trimmed
    and in upper case. *)
Theorem verify_reads_only req log :
  snd (verify W req log) = log
  \/ exists tid,
       tid = toUpperCase (trim (str_or (body_transactionId req) []))
       /\ is_transaction_id tid = true
       /\ snd (verify W req log) = log ++ [LookupTransactionByIDCall tid].
Proof.
  destruct (verify_run req log) as [(msg & -> & _)|(fb & _ & Hid & Hlog & _)].
  - now left.
  - right. eexists. split; [reflexivity|]. now split.
Qed.

(** X8.  A verdict is sound.  When the verify route answers with a
    verdict, the status is 200, the content was uploaded and its digest
    is the one reported, the indexer was asked once and returned a
    transaction for the reported identifier, the reported fingerprint
    is the one that is read from the note of this transaction, and the
    content is reported as verified exactly when the two are the same
    string. *)
Theorem verify_verdict_sound req log status v log' :
  verify W req log = (Respond status (VerificationBody v), log') ->
  exists fileBuffer t,
    status = 200
    /\ content req = Some fileBuffer
    /\ v_uploadedHash v = computeSHA256 fileBuffer
    /\ v_transactionId v
       = toUpperCase (trim (str_or (body_transactionId req) []))
    /\ is_transaction_id (v_transactionId v) = true
    /\ log' = log ++ [LookupTransactionByIDCall (v_transactionId v)]
    /\ lookupTransactionByID W log (v_transactionId v) = Ok (Some t)
    /\ parseHashFromTransaction (Some t) = Some (v_onChainHash v)
    /\ v_confirmedRound v = num_or_null (confirmed_round t)
    /\ (v_verified v = true <-> v_uploadedHash v = v_onChainHash v)
    /\ v_status v = (if v_verified v then str "VERIFIED" else str "INVALID").
Proof.
  intros H.
  destruct (verify_run req log) as [(msg & E & _)|(fb & Hc & Hid & Hlog & Hout)].
  { rewrite E in H. discriminate. }
  rewrite H in Hlog, Hout. cbn [fst snd] in Hlog, Hout.
  set (tid := toUpperCase (trim (str_or (body_transactionId req) []))) in *.
  destruct (lookupTransactionByID W log tid) as [[t|]|e] eqn:Hfound.
  - destruct (parseHashFromTransaction (Some t)) as [[|c h]|] eqn:Hp;
      [destruct Hout as [msg [=]]| |destruct Hout as [msg [=]]].
    cbv zeta in Hout.
    pose proof (f_equal (fun o => match o with
                                 | Respond s _ => s
                                 | _ => 0
                                 end) Hout) as Es.
    pose proof (f_equal (fun o => match o with
                                 | Respond _ (VerificationBody q) => q
                                 | _ => v
                                 end) Hout) as Ev.
    cbn beta iota in Es, Ev. clear Hout. subst status v.
    cbn [v_uploadedHash v_transactionId v_onChainHash v_confirmedRound
         v_verified v_status].
    exists fb, t. split_and!; try reflexivity; try assumption.
    unfold str_eqb. apply bool_decide_eq_true.
  - destruct Hout as [msg [=]].
  - discriminate.
Qed.

End WithWorld.

Lemma verify_verdict_sound_witness :
  exists v,
    fst (Backend.verify (RT := ascii_runtime)
           (sample_world 500000 100000 (Some sample_marker))
           (sample_request (Some (str "abcdefghijklmnopqrstuvwxyz234567abcdefghijklmnopqrst  ")))
           [])
    = Backend.Respond 200 (Backend.VerificationBody v)
    /\ Codec.parseHashFromTransaction (RT := ascii_runtime) (Some sample_marker)
       = Some (Backend.v_onChainHash v).
Proof.
  destruct (Backend.verify (RT := ascii_runtime)
              (sample_world 500000 100000 (Some sample_marker))
              (sample_request (Some (str "abcdefghijklmnopqrstuvwxyz234567abcdefghijklmnopqrst  ")))
              [])
    as [out l] eqn:E.
  assert (exists v, out = Backend.Respond 200 (Backend.VerificationBody v))
    as [v ->].
  { apply (f_equal fst) in E. cbn [fst] in E. rewrite <- E.
    eexists. vm_compute. reflexivity. }
  exists v. split; [reflexivity|].
  destruct (verify_verdict_sound (RT := ascii_runtime) _ _ _ _ _ _ E)
    as (fb & t & _ & _ & _ & _ & _ & _ & Hfound & Hparse & _).
  cbn [lookupTransactionByID sample_world] in Hfound.
  injection Hfound as <-. exact Hparse.
Defined.

End VerifyFacts.

(** * The routes that read the issuer: what they report *)

Module RouteFacts.
Import ProtocolFacts.
Section WithWorld.
Context `{RT : Runtime} (W : World).

Import Codec Backend Routes.

Lemma missing_mnemonic_is_missing :
  isMissingMnemonicError missing_mnemonic = true.
Proof. vm_compute. reflexivity. Qed.

Lemma blank_means_missing :
  blank (env_ALGORAND_MNEMONIC W) = true ->
  getIssuerAccount W = Throw missing_mnemonic.
Proof.
  unfold getIssuerAccount. destruct (env_ALGORAND_MNEMONIC W); [|reflexivity].
  now intros ->.
Qed.

Lemma fetch_state_spendable log st log' :
  fetchIssuerAccountState W log = (Ok st, log') ->
  spendable st = Z.max (amount st - minBalance st) 0.
Proof.
  unfold fetchIssuerAccountState, getIssuerAddress. run.
  destruct (getIssuerAccount W) as [issuer|e]; [|discriminate].
  destruct (accountInformation W log (addr issuer)); [|discriminate].
  now intros [= <- _].
Qed.

(** X12.  What the status route reports.  It asks the ledger at most
    once, for the balance.  The spendable amount is never negative; the
    required amount is the configured threshold; an answer without a
    configuration error names the issuer, reports as spendable the
    amount less the minimum balance (or 0), and says that the issuer
    can issue exactly when the whole amount reaches the threshold. *)
Theorem status_report log a amt mb sp can required url err log' :
  issuer_status W log
  = (Reply (StatusBody a amt mb sp can required url err), log') ->
  0 <= sp
  /\ required = issueMinRecommendedMicroAlgos W
  /\ url = testnetFundingUrl
  /\ (err = None ->
      (exists issuer, getIssuerAccount W = Ok issuer /\ a = Some (addr issuer)
                      /\ log' = log ++ [AccountInformationCall (addr issuer)])
      /\ sp = Z.max (amt - mb) 0
      /\ (can = true <-> required <= amt))
  /\ (err <> None -> a = None /\ can = false /\ amt = 0 /\ sp = 0).
Proof.
  unfold issuer_status.
  destruct (fetchIssuerAccountState W log) as [[st|e] l] eqn:Hfetch.
  - pose proof (fetch_state_spendable _ _ _ Hfetch) as Hsp.
    intros [= <- <- <- <- <- <- <- <- <-].
    split_and!; try reflexivity; [rewrite Hsp; lia| |congruence].
    intros _. split_and!; [|exact Hsp|].
    + destruct (getIssuerAccount W) as [issuer|e] eqn:HA.
      * destruct (fetch_state_calls W issuer log HA) as (r & Hr & Hst).
        rewrite Hfetch in Hr. injection Hr as <- ->.
        exists issuer. now rewrite (Hst st eq_refl).
      * rewrite (fetch_state_unconfigured W e log HA) in Hfetch. discriminate.
    + unfold buildIssuerStatus. cbn [canIssue requiredForIssue].
      apply Z.leb_le.
  - destruct (isMissingMnemonicError e) eqn:Hm; [|discriminate].
    intros [= <- <- <- <- <- <- <- <- <-].
    split_and!; try reflexivity.
    + intros E. unfold isMissingMnemonicError in Hm. now rewrite E in Hm.
    + intros _. now split_and!.
Qed.

Lemma createProofTransaction_asks issuer hash m log :
  getIssuerAccount W = Ok issuer ->
  exists r rest,
    createProofTransaction W hash m log
    = (r, log ++ TransactionParamsCall :: rest).
Proof.
  intros HA.
  destruct (createProofTransaction_run W issuer hash m log HA)
    as (r & calls & sp & tx & Hrun & [rest Hpre] & _).
  cbv zeta in Hrun, Hpre. exists r.
  destruct calls as [|c calls].
  - exfalso. revert Hrun. unfold createProofTransaction. run. rewrite HA.
    rewrite app_nil_r.
    destruct (getTransactionParams W log);
      [destruct (sendRawTransaction W _ _ _);
       [destruct (waitForConfirmation W _ _)|]|];
      intros [= _ E]; apply (f_equal length) in E;
      rewrite ?length_app in E; cbn [length] in E; lia.
  - injection Hpre as <- _. now exists calls.
Qed.

End WithWorld.

Lemma status_report_witness :
  Routes.issuer_status (sample_world 400000 100000 None) []
  = (Routes.Reply
       (Routes.StatusBody (Some (str "ISSUERADDRESS")) 400000 100000 300000
          true 350000 Backend.testnetFundingUrl None),
     [AccountInformationCall (str "ISSUERADDRESS")])
  /\ 300000 = Z.max (400000 - 100000) 0
  /\ (true = true <-> 350000 <= 400000).
Proof.
  assert (Routes.issuer_status (sample_world 400000 100000 None) []
          = (Routes.Reply
               (Routes.StatusBody (Some (str "ISSUERADDRESS")) 400000 100000
                  300000 true 350000 Backend.testnetFundingUrl None),
             [AccountInformationCall (str "ISSUERADDRESS")])) as E
      by reflexivity.
  split; [exact E|].
  destruct (status_report _ _ _ _ _ _ _ _ _ _ _ E) as (_ & _ & _ & H & _).
  destruct (H eq_refl) as (_ & H1 & H2). split; [exact H1|exact H2].
Defined.

End RouteFacts.

(** * The scan for a fingerprint *)

Module ScanFacts.
Section WithRuntime.
Context `{RT : Runtime}.

Import Codec.

Lemma hex64_prefix_some s m :
  hex64_prefix s = Some m ->
  length m = 64%nat /\ forallb is_hex_digit m = true
  /\ exists post, s = m ++ post.
Proof.
  unfold hex64_prefix.
  destruct ((length (firstn 64 s) =? 64)%nat && forallb is_hex_digit (firstn 64 s))
    eqn:E; [|discriminate].
  intros [= <-]. apply andb_prop in E as [E1 E2]. apply Nat.eqb_eq in E1.
  split_and!; [assumption|assumption|].
  exists (skipn 64 s). symmetry. apply firstn_skipn.
Qed.

(** What the scan returns is a run of 64 hexadecimal digits of the
    text, and no run begins before it. *)
Lemma match_hex64_some s m :
  match_hex64 s = Some m ->
  length m = 64%nat /\ forallb is_hex_digit m = true
  /\ exists pre post,
       s = pre ++ m ++ post
       /\ forall k, (k < length pre)%nat -> hex64_prefix (skipn k s) = None.
Proof.
  induction s as [|c s IH]; cbn [match_hex64].
  - destruct (hex64_prefix []) eqn:E; [|discriminate].
    intros [= ->]. destruct (hex64_prefix_some _ _ E) as (H1 & H2 & post & H3).
    split_and!; [assumption..|]. exists [], post. split; [exact H3|].
    intros k Hk. cbn in Hk. lia.
  - destruct (hex64_prefix (c :: s)) eqn:E.
    + intros [= ->]. destruct (hex64_prefix_some _ _ E) as (H1 & H2 & post & H3).
      split_and!; [assumption..|]. exists [], post. split; [exact H3|].
      intros k Hk. cbn in Hk. lia.
    + intros H. destruct (IH H) as (H1 & H2 & pre & post & -> & Hleft).
      split_and!; [assumption..|]. exists (c :: pre), post.
      split; [reflexivity|].
      intros [|k] Hk; [exact E|]. apply Hleft. cbn in Hk. lia.
Qed.

Lemma match_hex64_none s :
  match_hex64 s = None -> forall k, hex64_prefix (skipn k s) = None.
Proof.
  induction s as [|c s IH]; cbn [match_hex64].
  - intros _ [|k]; reflexivity.
  - destruct (hex64_prefix (c :: s)) eqn:E; [discriminate|].
    intros H [|k]; [exact E|]. now apply IH.
Qed.

Lemma lower_of_hex m :
  forallb is_hex_digit m = true ->
  forallb is_lower_hex (List.map ascii_lower m) = true.
Proof.
  induction m as [|c m IH]; [reflexivity|]. cbn [forallb List.map].
  intros H. apply andb_prop in H as [Hc Hm]. rewrite (IH Hm), andb_true_r.
  clear IH Hm. unfold is_hex_digit, is_lower_hex, ascii_lower, in_range in *.
  repeat match goal with
         | |- context [(?a <=? ?b)%N] => destruct (N.leb_spec a b)
         | H : context [(?a <=? ?b)%N] |- _ => destruct (N.leb_spec a b)
         end; cbn in *; try reflexivity; try discriminate; lia.
Qed.

(** X15.  The fingerprint that the scan recovers.  When the note has no
    string property [hash] (it is not JSON, or JSON without one), a
    fingerprint is read exactly when the text of the note holds a run of
    64 hexadecimal digits; it is then the leftmost such run, in lower
    case: 64 characters, digits and letters from a to f. *)
Theorem scanned_fingerprint t :
  string_hash_of (parseNotePayload t) = None ->
  (forall h,
     parseHashFromTransaction t = Some h ->
     length h = 64%nat /\ forallb is_lower_hex h = true
     /\ exists text pre m post,
          decodeNote t = Some text /\ text = pre ++ m ++ post
          /\ h = List.map ascii_lower m
          /\ forall k, (k < length pre)%nat ->
                       hex64_prefix (skipn k text) = None)
  /\ (parseHashFromTransaction t = None <->
      decodeNote t = None
      \/ exists text,
           decodeNote t = Some text
           /\ forall k, hex64_prefix (skipn k text) = None).
Proof.
  intros Hno. unfold parseHashFromTransaction. rewrite Hno.
  destruct (decodeNote t) as [text|].
  2: { split; [discriminate|]. split; [now left|reflexivity]. }
  destruct text as [|c text].
  { split; [discriminate|]. split; [|reflexivity].
    intros _. right. exists []. split; [reflexivity|]. now intros [|k]. }
  destruct (match_hex64 (c :: text)) as [m|] eqn:E.
  - destruct (match_hex64_some _ _ E) as (H1 & H2 & pre & post & Hs & Hleft).
    assert (toLowerCase m = List.map ascii_lower m) as Hlow
        by (apply toLowerCase_ascii, CodecFacts.hex_digits_ascii, H2).
    split.
    + intros h [= <-]. rewrite Hlow.
      split_and!; [now rewrite length_map|now apply lower_of_hex|].
      exists (c :: text), pre, m, post. now split_and!.
    + split; [discriminate|].
      intros [[=]|(text' & [= <-] & Hnone)].
      specialize (Hnone (length pre)). rewrite Hs in Hnone.
      rewrite drop_app_length in Hnone.
      rewrite CodecFacts.hex64_prefix_here in Hnone by assumption.
      discriminate.
  - split; [discriminate|]. split; [|reflexivity].
    intros _. right. exists (c :: text). split; [reflexivity|].
    now apply match_hex64_none.
Qed.

End WithRuntime.

Lemma scanned_fingerprint_witness :
  Codec.parseHashFromTransaction (RT := ascii_runtime)
    (Some (note_only (json_bytes
       "{'id':'BA7816BF8F01CFEA414140DE5DAE2223B00361A396177A9CB410FF61F20015AD'}")))
  = Some (str "ba7816bf8f01cfea414140de5dae2223b00361a396177a9cb410ff61f20015ad")
  /\ length (str "ba7816bf8f01cfea414140de5dae2223b00361a396177a9cb410ff61f20015ad")
     = 64%nat.
Proof.
  assert (Codec.parseHashFromTransaction (RT := ascii_runtime)
            (Some (note_only (json_bytes
               "{'id':'BA7816BF8F01CFEA414140DE5DAE2223B00361A396177A9CB410FF61F20015AD'}")))
          = Some (str "ba7816bf8f01cfea414140de5dae2223b00361a396177a9cb410ff61f20015ad"))
    as E by (vm_compute; reflexivity).
  split; [exact E|].
  refine (proj1 (proj1 (scanned_fingerprint (RT := ascii_runtime) _ _) _ E)).
  vm_compute. reflexivity.
Defined.

End ScanFacts.

(** * The records of the reconstruction *)

Module RecordFacts.
Import History.

Lemma str_or_null_normal o : str_or_null o <> Some [].
Proof. unfold str_or_null. now destruct o as [[|c s]|]. Qed.

Lemma num_or_null_normal o : num_or_null o <> Some 0.
Proof.
  unfold num_or_null, truthy_num. destruct o as [z|]; [|discriminate].
  destruct (Z.eqb_spec z 0); cbn; congruence.
Qed.

(** X14.  Every record of the reconstruction is the record of a marker
    of the window, and it is normal: its two identifiers are the
    marker's, its fingerprint is the marker's and is not empty, its
    file name is not empty (a marker without one is an untitled file),
    no optional field is an empty string or the number 0, and an asset
    id that it carries is the asset id, not 0, of an asset transaction
    of the window with the same fingerprint. *)
Theorem derive_records_normal txs r :
  In r (deriveProofsFromTransactions txs) ->
  (exists t,
     In t txs /\ is_proof_entry t = true
     /\ p_id r = id t /\ p_transactionId r = id t
     /\ p_hash r = hash t /\ p_transactionRound r = confirmedRound t)
  /\ (exists c h, p_hash r = Some (c :: h))
  /\ p_fileName r <> []
  /\ p_referenceLabel r <> Some [] /\ p_mimeType r <> Some []
  /\ p_fileSize r <> Some 0 /\ p_issuedAt r <> Some 0
  /\ forall a,
       p_assetId r = Some a ->
       a <> 0
       /\ exists ta,
            In ta txs /\ is_asset_entry ta = true
            /\ hash ta = p_hash r /\ assetId ta = Some a.
Proof.
  intros Hr. apply HistoryFacts.in_derive in Hr as (t & Ht & Hp & ->).
  unfold to_record.
  cbn [p_id p_transactionId p_hash p_transactionRound p_fileName
       p_referenceLabel p_mimeType p_fileSize p_issuedAt p_assetId].
  pose proof Hp as Hp'. unfold is_proof_entry in Hp'.
  apply andb_prop in Hp' as [_ Hh]. unfold truthy_str in Hh.
  destruct (hash t) as [[|c h]|] eqn:Eh; try discriminate.
  split_and!.
  - exists t. rewrite Eh. now split_and!.
  - now exists c, h.
  - unfold str_or. now destruct (note_fileName _) as [[|d s]|].
  - apply str_or_null_normal.
  - apply str_or_null_normal.
  - apply num_or_null_normal.
  - unfold truthy_num. destruct (roundTime t) as [z|]; [|discriminate].
    destruct (Z.eqb_spec z 0) as [|Hz]; cbn [negb option_map];
      [discriminate|].
    intros E. apply (inj Some) in E. lia.
  - intros a Ha. unfold asset_lookup, num_or_null, truthy_num in Ha.
    match type of Ha with
    | context [match ?x with Some _ => _ | None => _ end] =>
      destruct x as [b|] eqn:Hm
    end; [|discriminate].
    destruct (Z.eqb_spec b 0) as [|Hne]; cbn [negb] in Ha; [discriminate|].
    apply (inj Some) in Ha. subst b.
    split; [exact Hne|]. now apply HistoryFacts.assetByHash_some.
Qed.

Lemma derive_records_normal_witness :
  In (to_record (assetByHash sample_window)
        (sample_entry "T2" "proof" "aa" 9 None))
     (deriveProofsFromTransactions sample_window)
  /\ p_fileName (to_record (assetByHash sample_window)
                   (sample_entry "T2" "proof" "aa" 9 None)) <> [].
Proof.
  assert (In (to_record (assetByHash sample_window)
                (sample_entry "T2" "proof" "aa" 9 None))
             (deriveProofsFromTransactions sample_window)) as Hin.
  { vm_compute. right. left. reflexivity. }
  split; [exact Hin|].
  exact (proj1 (proj2 (proj2 (derive_records_normal _ _ Hin)))).
Defined.

End RecordFacts.

(** * Private addresses *)

Module AddressFacts.

Lemma take_digits_spec k s :
  let ds := fst (take_digits k s) in
  let rest := snd (take_digits k s) in
  s = ds ++ rest /\ forallb is_digit ds = true /\ (length ds <= k)%nat.
Proof.
  revert s. induction k as [|k IH]; intros s; cbn zeta.
  - destruct s; cbn; split_and!; (reflexivity || lia).
  - destruct s as [|c r]; [cbn; split_and!; (reflexivity || lia)|].
    cbn [take_digits]. destruct (is_digit c) eqn:Hc;
      [|cbn; split_and!; (reflexivity || lia)].
    specialize (IH r). cbn zeta in IH.
    destruct (take_digits k r) as [ds rest]. cbn [fst snd] in *.
    destruct IH as (-> & Hd & Hl). cbn [forallb length app].
    rewrite Hc, Hd. split_and!; (reflexivity || lia).
Qed.

Lemma take_digits_stop k s :
  match s with
  | [] => True
  | c :: _ => is_digit c = false
  end ->
  take_digits k s = ([], s).
Proof.
  destruct k as [|k], s as [|c s]; try reflexivity.
  intros H. cbn [take_digits]. now rewrite H.
Qed.

Lemma take_digits_all k g rest :
  forallb is_digit g = true -> (length g <= k)%nat ->
  match rest with
  | [] => True
  | c :: _ => is_digit c = false
  end ->
  take_digits k (g ++ rest) = (g, rest).
Proof.
  intros Hd Hl Hrest. revert k Hl.
  induction g as [|a g IH]; intros k Hl.
  - now apply take_digits_stop.
  - destruct k as [|k]; [cbn in Hl; lia|].
    cbn [forallb] in Hd. apply andb_prop in Hd as [Ha Hd].
    change ((a :: g) ++ rest) with (a :: (g ++ rest)).
    cbn [take_digits]. rewrite Ha, (IH Hd k); [reflexivity|].
    cbn [length] in Hl. lia.
Qed.

Lemma digit_group_some dot s g r :
  digit_group dot s = Some (g, r) ->
  is_digit_group g = true /\ s = g ++ (if dot then 46%N :: r else r).
Proof.
  unfold digit_group. pose proof (take_digits_spec 3 s) as H. cbn zeta in H.
  destruct (take_digits 3 s) as [ds rest]. cbn [fst snd] in H.
  destruct H as (-> & Hd & Hl).
  destruct ds as [|d ds]; [discriminate|].
  assert (is_digit_group (d :: ds) = true) as Hg.
  { unfold is_digit_group. rewrite Hd, andb_true_r.
    apply andb_true_intro. split; [reflexivity|].
    apply Nat.leb_le. exact Hl. }
  destruct dot.
  - destruct rest as [|c rest]; [discriminate|].
    destruct (N.eqb_spec c 46) as [->|Hne]; [|discriminate].
    intros [= <- <-]. now split.
  - intros [= <- <-]. now split.
Qed.

Lemma digit_group_here dot g r :
  is_digit_group g = true ->
  (dot = false -> r = []) ->
  digit_group dot (g ++ (if dot then 46%N :: r else r)) = Some (g, r).
Proof.
  unfold is_digit_group. intros H Hr.
  apply andb_prop in H as [H Hd]. apply andb_prop in H as [H1 H3].
  apply Nat.leb_le in H1, H3. unfold digit_group.
  rewrite take_digits_all; [|assumption|assumption|].
  - destruct g; [cbn in H1; lia|]. now destruct dot.
  - destruct dot; [reflexivity|]. now rewrite (Hr eq_refl).
Qed.

Lemma private_range_spec a b :
  private_range a b
  = if (a =? 10)%N || (a =? 127)%N then true
    else if (a =? 192)%N && (b =? 168)%N then true
    else (a =? 172)%N && (16 <=? b)%N && (b <=? 31)%N.
Proof.
  unfold private_range.
  destruct ((a =? 10)%N || (a =? 127)%N); [reflexivity|].
  now destruct ((a =? 192)%N && (b =? 168)%N).
Qed.

(** X16.  The addresses that count as private.  A host name passes the
    test exactly when it is four groups of one to three digits
    separated by dots, and the numbers [a] and [b] of the first two
    groups are in one of the ranges: [a] is 10 or 127, or [a] is 192
    and [b] is 168, or [a] is 172 and [b] is from 16 to 31.  Nothing is
    asked of the last two groups, and no group is held below 256. *)
Theorem isPrivateIpv4_spec hostname :
  isPrivateIpv4 hostname = true <->
  exists g1 g2 g3 g4,
    hostname = dotted g1 g2 g3 g4
    /\ is_digit_group g1 = true /\ is_digit_group g2 = true
    /\ is_digit_group g3 = true /\ is_digit_group g4 = true
    /\ private_range (number_of_digits g1) (number_of_digits g2) = true.
Proof.
  unfold isPrivateIpv4, match_dotted_quad. split.
  - destruct (digit_group true hostname) as [[g1 r1]|] eqn:E1; [|discriminate].
    destruct (digit_group true r1) as [[g2 r2]|] eqn:E2; [|discriminate].
    destruct (digit_group true r2) as [[g3 r3]|] eqn:E3; [|discriminate].
    destruct (digit_group false r3) as [[g4 [|c r4]]|] eqn:E4;
      [|discriminate..].
    apply digit_group_some in E1 as [H1 ->], E2 as [H2 ->], E3 as [H3 ->],
      E4 as [H4 ->].
    rewrite app_nil_r. intros H. exists g1, g2, g3, g4.
    split_and!; try assumption; [reflexivity|].
    now rewrite private_range_spec.
  - intros (g1 & g2 & g3 & g4 & -> & H1 & H2 & H3 & H4 & Hp).
    unfold dotted.
    rewrite (digit_group_here true g1 _ H1) by discriminate.
    rewrite (digit_group_here true g2 _ H2) by discriminate.
    rewrite (digit_group_here true g3 _ H3) by discriminate.
    rewrite <- (app_nil_r g4).
    rewrite (digit_group_here false g4 [] H4) by reflexivity.
    now rewrite <- private_range_spec.
Qed.

End AddressFacts.

(** * The address of the API *)

Module UrlFacts.

Lemma starts_with_app p s : starts_with p (p ++ s) = true.
Proof.
  induction p as [|a p IH]; [reflexivity|].
  cbn [app starts_with]. now rewrite N.eqb_refl, IH.
Qed.

Lemma starts_with_spec p s :
  starts_with p s = true <-> exists r, s = p ++ r.
Proof.
  split.
  - revert s. induction p as [|a p IH]; intros s H; [now exists s|].
    destruct s as [|b s]; [discriminate|]. cbn [starts_with] in H.
    apply andb_prop in H as [Hab H]. apply N.eqb_eq in Hab. subst b.
    destruct (IH s H) as [r ->]. now exists r.
  - intros [r ->]. apply starts_with_app.
Qed.

(** X17.  The serverless entry puts every request under [/api]: the
    address it hands on begins with [/api] and ends with the address it
    was given, which is left as it is when it begins with [/api]
    already; doing it twice changes nothing more. *)
Theorem normalize_url_spec url :
  starts_with (str "/api") (normalize_url url) = true
  /\ normalize_url (normalize_url url) = normalize_url url
  /\ (normalize_url url = url \/ normalize_url url = str "/api" ++ url)
  /\ (normalize_url url = url <-> starts_with (str "/api") url = true).
Proof.
  unfold normalize_url.
  destruct (starts_with (str "/api") url) eqn:E.
  - rewrite E. split_and!; [reflexivity|reflexivity|now left|].
    split; reflexivity.
  - rewrite starts_with_app. split_and!; [reflexivity|reflexivity|now right|].
    split; [|discriminate].
    intros H. apply (f_equal (@length N)) in H. rewrite length_app in H.
    cbn in H. lia.
Qed.

Lemma trim_start_head s c r :
  trim_start s = c :: r -> is_js_space c = false.
Proof.
  induction s as [|u s IH]; [discriminate|]. cbn [trim_start].
  destruct (is_js_space u) eqn:E; [exact IH|]. now intros [= <- _].
Qed.

Lemma trim_start_suffix s : exists pre, s = pre ++ trim_start s.
Proof.
  induction s as [|u s [pre IH]]; [now exists []|]. cbn [trim_start].
  destruct (is_js_space u); [|now exists []].
  exists (u :: pre). cbn [app]. now rewrite <- IH.
Qed.

Lemma trim_start_fixed s :
  match s with
  | [] => True
  | c :: _ => is_js_space c = false
  end ->
  trim_start s = s.
Proof. destruct s as [|c s]; [reflexivity|]. cbn [trim_start]. now intros ->. Qed.

(** A text that neither begins nor ends with white space is trimmed. *)
Lemma trim_fixed s :
  match s with
  | [] => True
  | c :: _ => is_js_space c = false
  end ->
  match rev s with
  | [] => True
  | c :: _ => is_js_space c = false
  end ->
  trim s = s.
Proof.
  intros H1 H2. unfold trim.
  rewrite (trim_start_fixed s H1), (trim_start_fixed (rev s) H2).
  apply rev_involutive.
Qed.

(** A trimmed text does not begin with white space. *)
Lemma trim_head s : 
  match trim s with
  | [] => True
  | c :: _ => is_js_space c = false
  end.
Proof.
  unfold trim.
  destruct (trim_start_suffix (rev (trim_start s))) as [pre Hpre].
  apply (f_equal (@rev N)) in Hpre. rewrite rev_involutive, rev_app_distr in Hpre.
  set (t := rev (trim_start (rev (trim_start s)))) in *.
  destruct t as [|c t]; [exact I|].
  cbn [app] in Hpre. now apply trim_start_head in Hpre.
Qed.

Lemma drop_slashes_suffix l : exists pre, l = pre ++ drop_slashes l.
Proof.
  induction l as [|c l [pre IH]]; [now exists []|]. cbn [drop_slashes].
  destruct (c =? 47)%N; [|now exists []].
  exists (c :: pre). cbn [app]. now rewrite <- IH.
Qed.

Lemma drop_slashes_fixed l :
  match l with
  | [] => True
  | c :: _ => (c =? 47)%N = false
  end ->
  drop_slashes l = l.
Proof. destruct l as [|c l]; [reflexivity|]. cbn [drop_slashes]. now intros ->. Qed.

Lemma strip_slashes_prefix s : exists post, s = strip_slashes s ++ post.
Proof.
  unfold strip_slashes. destruct (drop_slashes_suffix (rev s)) as [pre H].
  exists (rev pre). apply (f_equal (@rev N)) in H.
  now rewrite rev_involutive, rev_app_distr in H.
Qed.

Lemma strip_slashes_fixed s :
  match rev s with
  | [] => True
  | c :: _ => (c =? 47)%N = false
  end ->
  strip_slashes s = s.
Proof.
  intros H. unfold strip_slashes. rewrite (drop_slashes_fixed _ H).
  apply rev_involutive.
Qed.

Lemma ends_with_app p s : ends_with p (s ++ p) = true.
Proof. unfold ends_with. rewrite rev_app_distr. apply starts_with_app. Qed.

Lemma ends_with_spec p s : ends_with p s = true <-> exists r, s = r ++ p.
Proof.
  unfold ends_with. rewrite starts_with_spec. split.
  - intros [r H]. exists (rev r). apply (f_equal (@rev N)) in H.
    now rewrite rev_involutive, rev_app_distr, rev_involutive in H.
  - intros [r ->]. exists (rev r). apply rev_app_distr.
Qed.

(** The text without white space around it and without trailing
    slashes does not begin with white space. *)
Lemma cleaned_head v :
  match strip_slashes (trim v) with
  | [] => True
  | c :: _ => is_js_space c = false
  end.
Proof.
  destruct (strip_slashes_prefix (trim v)) as [post H].
  pose proof (trim_head v) as Hh. rewrite H in Hh.
  now destruct (strip_slashes (trim v)).
Qed.

(** The two cases of [normalizeApiBase]. *)
Lemma normalizeApiBase_cases value :
  normalizeApiBase value
  = match strip_slashes (trim value) with
    | [] => []
    | _ :: _ =>
      if ends_with (str "/api") (strip_slashes (trim value))
      then strip_slashes (trim value)
      else strip_slashes (trim value) ++ str "/api"
    end.
Proof.
  unfold normalizeApiBase.
  destruct (strip_slashes (trim value)) as [|c cl]; [reflexivity|].
  destruct (ends_with (str "/api") (c :: cl)) eqn:He; [reflexivity|].
  destruct (str_eqb (c :: cl) (str "/api")) eqn:Eq; [|reflexivity].
  apply bool_decide_eq_true in Eq. rewrite Eq in He. discriminate.
Qed.

(** A text that ends with [/api] and does not begin with white space
    is left as it is. *)
Lemma normalized_fixed r :
  ends_with (str "/api") r = true ->
  match r with
  | [] => True
  | c :: _ => is_js_space c = false
  end ->
  normalizeApiBase r = r.
Proof.
  intros He Hh. pose proof He as He'.
  apply ends_with_spec in He' as [x Hx].
  assert (rev r = 105%N :: 112%N :: 97%N :: 47%N :: rev x) as Hrev
      by (rewrite Hx, rev_app_distr; reflexivity).
  assert (trim r = r) as Ht by (apply trim_fixed; [exact Hh|now rewrite Hrev]).
  assert (strip_slashes r = r) as Hs
      by (apply strip_slashes_fixed; now rewrite Hrev).
  rewrite normalizeApiBase_cases, Ht, Hs, He. now destruct r.
Qed.

(** What is not empty of the results ends with [/api] and is left as it
    is. *)
Lemma normalized_result value :
  normalizeApiBase value <> [] ->
  ends_with (str "/api") (normalizeApiBase value) = true
  /\ normalizeApiBase (normalizeApiBase value) = normalizeApiBase value.
Proof.
  rewrite (normalizeApiBase_cases value).
  pose proof (cleaned_head value) as Hhead.
  destruct (strip_slashes (trim value)) as [|c cl]; [contradiction|].
  intros _. destruct (ends_with (str "/api") (c :: cl)) eqn:He.
  - split; [exact He|]. now apply normalized_fixed.
  - split; [apply ends_with_app|].
    apply normalized_fixed; [apply ends_with_app|exact Hhead].
Qed.

(** X18.  The address of the API that the page settles on.  The result
    is empty (when nothing is left of the text once it is trimmed and
    its trailing slashes are removed) or else it ends with [/api]; it
    is the cleaned text itself or the cleaned text with [/api] added;
    and a result is left as it is when it is normalised again. *)
Theorem normalizeApiBase_spec value :
  let cleaned := strip_slashes (trim value) in
  let result := normalizeApiBase value in
  (result = [] <-> cleaned = [])
  /\ (cleaned <> [] -> ends_with (str "/api") result = true)
  /\ (result = cleaned \/ result = cleaned ++ str "/api")
  /\ (ends_with (str "/api") cleaned = true -> result = cleaned)
  /\ normalizeApiBase result = result.
Proof.
  intros cleaned result.
  pose proof (normalizeApiBase_cases value) as Er. fold cleaned result in Er.
  pose proof (normalized_result value) as Hres. fold result in Hres.
  clearbody result cleaned.
  destruct cleaned as [|c cl].
  - subst result. split_and!; [tauto|tauto|now left|reflexivity|reflexivity].
  - destruct (ends_with (str "/api") (c :: cl)) eqn:He; subst result.
    + split_and!; [split; discriminate|now intros _|now left|reflexivity|].
      apply Hres. discriminate.
    + split_and!; [split; discriminate| |now right|discriminate|].
      * intros _. apply ends_with_app.
      * apply Hres. discriminate.
Qed.

End UrlFacts.

(** * The history: what is listed of an issuance *)

Module ListingFacts.
Import Codec Backend Listing.

(** The properties of the note of a marker, as they are read back. *)
Lemma marker_note_properties now f m :
  let v := clean (notePayload now f (proofMetadata m)) in
  (exists props, v = JObj props)
  /\ get_prop v "app" = JStr (str "TrustChain")
  /\ get_prop v "hash" = JStr f
  /\ get_prop v "type" = JStr (str "proof")
  /\ get_prop v "fileName" = JStr (fileName m)
  /\ get_prop v "mimeType" = string_or_undefined (mimeType m)
  /\ get_prop v "fileSize" = match fileSize m with
                             | Some n => number_of_N n
                             | None => JUndefined
                             end
  /\ get_prop v "referenceLabel" = string_or_null (referenceLabel m)
  /\ get_prop v "createdAt" = JStr now.
Proof.
  destruct m as [name [mt|] [sz|] [[|c lb]|]]; cbv zeta;
    split_and!; try (eexists; reflexivity); reflexivity.
Qed.

Lemma asset_note_properties now f m :
  let v := clean (notePayload now f (asaMetadata m)) in
  (exists props, v = JObj props)
  /\ get_prop v "app" = JStr (str "TrustChain")
  /\ get_prop v "hash" = JStr f
  /\ get_prop v "type" = JStr (str "asa")
  /\ get_prop v "fileName" = JStr (fileName m)
  /\ get_prop v "mimeType" = JUndefined
  /\ get_prop v "fileSize" = JUndefined
  /\ get_prop v "referenceLabel" = string_or_null (referenceLabel m)
  /\ get_prop v "createdAt" = JStr now.
Proof.
  destruct m as [name mt sz [[|c lb]|]]; cbv zeta;
    split_and!; try (eexists; reflexivity); reflexivity.
Qed.


Lemma str_inj s1 s2 : str s1 = str s2 -> s1 = s2.
Proof.
  unfold str. intros H.
  assert (list_ascii_of_string s1 = list_ascii_of_string s2) as E.
  { revert H. generalize (list_ascii_of_string s1) (list_ascii_of_string s2).
    induction l as [|a l IH]; intros [|b l'] H; try discriminate; [reflexivity|].
    cbn [List.map] in H. injection H as Hab H.
    rewrite (IH l' H). f_equal.
    now rewrite <- (ascii_N_embedding a), <- (ascii_N_embedding b), Hab. }
  now rewrite <- (string_of_list_ascii_of_string s1),
              <- (string_of_list_ascii_of_string s2), E.
Qed.

Lemma to_uint_nonnil n : N.to_uint n <> Decimal.Nil.
Proof.
  assert (Decimal.unorm (N.to_uint n) = N.to_uint n) as H.
  { rewrite <- (DecimalN.Unsigned.to_of (N.to_uint n)).
    now rewrite DecimalN.Unsigned.of_to. }
  intros E. rewrite E in H. discriminate.
Qed.

(** Two sizes that are written alike are the same size. *)
Lemma number_of_N_inj n1 n2 : number_of_N n1 = number_of_N n2 -> n1 = n2.
Proof.
  unfold number_of_N. intros [= H]. apply str_inj in H.
  apply DecimalN.Unsigned.to_uint_inj.
  pose proof (NilZero.usu _ (to_uint_nonnil n1)) as H1.
  pose proof (NilZero.usu _ (to_uint_nonnil n2)) as H2.
  rewrite H in H1. congruence.
Qed.

Lemma reads_string_inv v o :
  reads_string v o ->
  match v with
  | JStr s => o = Some s
  | JNull | JUndefined => o = None
  | _ => False
  end.
Proof. now intros []. Qed.

Lemma reads_size_inv v o :
  reads_size v o ->
  (exists n, v = number_of_N n /\ o = Some (Z.of_N n))
  \/ ((v = JNull \/ v = JUndefined) /\ o = None).
Proof. intros []; [left; eauto|right; auto..]. Qed.

Lemma reads_string_of o :
  reads_string (string_or_null o) (str_or_null o).
Proof.
  unfold string_or_null. destruct (str_or_null o); constructor.
Qed.

Section WithPlatform.
Context (number_truthy : jsstring -> bool).

(** The note of a transaction that carries the bytes of a built note. *)
Lemma parse_built ix now f meta :
  units_ok f = true -> units_ok now = true -> wf_props meta = true ->
  note (ix_ledger ix) = Some (buildTrustChainNote now f meta) ->
  parseNotePayload (Some (ix_ledger ix)) = clean (notePayload now f meta).
Proof.
  intros Hf Hn Hm Hnote.
  destruct (CodecFacts.note_roundtrip_text now f meta
              (confirmed_round (ix_ledger ix)) Hf Hn Hm) as (text & _ & _ & H).
  destruct (ix_ledger ix) as [n r]. cbn [note confirmed_round] in *.
  subst n. exact H.
Qed.


(** The summary of a transaction whose note was built for the
    fingerprint [f] with metadata that are read back as [kind] and
    [m]. *)
Lemma built_summary kind ix now f meta m :
  units_ok f = true -> units_ok now = true -> wf_props meta = true ->
  note (ix_ledger ix) = Some (buildTrustChainNote now f meta) ->
  (let v := clean (notePayload now f meta) in
   (exists props, v = JObj props)
   /\ get_prop v "hash" = JStr f
   /\ get_prop v "type" = JStr (str kind)
   /\ get_prop v "fileName" = JStr (fileName m)
   /\ get_prop v "mimeType" = string_or_undefined (mimeType m)
   /\ get_prop v "fileSize" = match fileSize m with
                              | Some n => number_of_N n
                              | None => JUndefined
                              end
   /\ get_prop v "referenceLabel" = string_or_null (referenceLabel m)) ->
  kind <> EmptyString ->
  forall t,
    reads_summary (summarise number_truthy ix) t <-> t = listed kind ix f m.
Proof.
  intros Hf Hn Hm Hnote Hprops Hkind t.
  pose proof (parse_built ix now f meta Hf Hn Hm Hnote) as Hparse.
  cbv zeta in Hprops.
  destruct Hprops as ([props Hv] & Hh & Hty & Hname & Hmime & Hsize & Hlabel).
  assert (s_hash (summarise number_truthy ix)
          = match f with [] => JNull | _ => JStr f end) as Eh.
  { unfold summarise, note_property. cbn [s_hash]. rewrite Hparse, Hh, Hv.
    now destruct f. }
  assert (s_noteType (summarise number_truthy ix) = JStr (str kind)) as Et.
  { unfold summarise, note_property. cbn [s_noteType]. rewrite Hparse, Hty, Hv.
    now destruct kind. }
  assert (s_note (summarise number_truthy ix)
          = clean (notePayload now f meta)) as En.
  { unfold summarise. cbn [s_note]. rewrite Hparse, Hv. reflexivity. }
  split.
  - intros [Rid Rty Rrt Rcr Rh Rnt Rn Ra].
    rewrite Eh in Rh. rewrite Et in Rnt. rewrite En, Hv in Rn.
    destruct t as [tid tty trt tcr th tnt tn ta].
    cbn [History.id History.txType History.roundTime History.confirmedRound
         History.hash History.noteType History.note History.assetId] in *.
    cbn [summarise s_id s_type s_roundTime s_confirmedRound s_assetId] in *.
    subst tid tty trt tcr ta. unfold listed.
    apply reads_string_inv in Rnt. subst tnt.
    assert (th = str_or_null (Some f)) as ->.
    { destruct f; apply reads_string_inv in Rh; exact Rh. }
    inversion Rn as [|props' n R1 R2 R3 R4 E1 E2]. subst props' tn.
    rewrite <- Hv in R1, R2, R3, R4. rewrite Hname in R1.
    rewrite Hlabel in R2. rewrite Hmime in R3. rewrite Hsize in R4.
    destruct n as [nf nl nm ns].
    cbn [History.note_fileName History.note_referenceLabel
         History.note_mimeType History.note_fileSize] in *.
    apply reads_string_inv in R1. subst nf.
    assert (nl = str_or_null (referenceLabel m)) as ->.
    { unfold string_or_null in R2.
      destruct (str_or_null (referenceLabel m));
        apply reads_string_inv in R2; exact R2. }
    assert (nm = mimeType m) as ->.
    { destruct (mimeType m); apply reads_string_inv in R3; exact R3. }
    assert (ns = option_map Z.of_N (fileSize m)) as ->.
    { apply reads_size_inv in R4.
      destruct (fileSize m) as [k|]; cbn [option_map].
      - destruct R4 as [(k' & E & ->)|([E|E] & _)]; try discriminate.
        now rewrite (number_of_N_inj _ _ E).
      - destruct R4 as [(k' & E & _)|(_ & ->)]; [discriminate|reflexivity]. }
    reflexivity.
  - intros ->. unfold listed. split;
      cbn [History.id History.txType History.roundTime History.confirmedRound
           History.hash History.noteType History.note History.assetId];
      try reflexivity.
    + rewrite Eh. destruct f; constructor.
    + rewrite Et. constructor.
    + rewrite En, Hv. constructor;
        cbn [History.note_fileName History.note_referenceLabel
             History.note_mimeType History.note_fileSize]; rewrite <- Hv.
      * rewrite Hname. constructor.
      * rewrite Hlabel. apply reads_string_of.
      * rewrite Hmime. destruct (mimeType m); constructor.
      * rewrite Hsize. destruct (fileSize m); constructor.
Qed.

Lemma marker_summary ix now f m t :
  units_ok f = true -> units_ok now = true -> wf_file_metadata m = true ->
  note (ix_ledger ix) = Some (buildTrustChainNote now f (proofMetadata m)) ->
  reads_summary (summarise number_truthy ix) t <-> t = listed "proof" ix f m.
Proof.
  intros Hf Hn Hm Hnote. unfold wf_file_metadata in Hm.
  apply andb_prop in Hm as [Hm Hl]. apply andb_prop in Hm as [Hname Hmime].
  apply (built_summary "proof" ix now f (proofMetadata m) m Hf Hn);
    [now apply MetadataFacts.proofMetadata_wf|exact Hnote| |discriminate].
  pose proof (marker_note_properties now f m) as H. cbv zeta in H |- *.
  destruct H as (H0 & _ & H1 & H2 & H3 & H4 & H5 & H6 & _). now split_and!.
Qed.

Lemma asset_summary ix now f m t :
  units_ok f = true -> units_ok now = true -> wf_file_metadata m = true ->
  note (ix_ledger ix) = Some (buildTrustChainNote now f (asaMetadata m)) ->
  reads_summary (summarise number_truthy ix) t
  <-> t = listed "asa" ix f (name_and_label m).
Proof.
  intros Hf Hn Hm Hnote. unfold wf_file_metadata in Hm.
  apply andb_prop in Hm as [Hm Hl]. apply andb_prop in Hm as [Hname Hmime].
  apply (built_summary "asa" ix now f (asaMetadata m) (name_and_label m) Hf Hn);
    [now apply MetadataFacts.asaMetadata_wf|exact Hnote| |discriminate].
  pose proof (asset_note_properties now f m) as H. cbv zeta in H |- *.
  destruct H as (H0 & _ & H1 & H2 & H3 & H4 & H5 & H6 & _). now split_and!.
Qed.

(** X19.  The summaries of the transactions of an issuance are typed as
    the reconstruction has them.  A transaction whose note was built by
    [createProofTransaction] is summarised as a transaction of kind
    [proof] with the fingerprint, the name, the type, the size and the
    label of the note; one whose note was built by [mintProofAsset] as
    a transaction of kind [asa] with the fingerprint, the name and the
    label; and no other typed transaction agrees with the summary. *)
Theorem built_notes_are_listed ix now f m t :
  units_ok f = true -> units_ok now = true -> wf_file_metadata m = true ->
  (note (ix_ledger ix) = Some (buildTrustChainNote now f (proofMetadata m)) ->
   (reads_summary (summarise number_truthy ix) t
    <-> t = listed "proof" ix f m))
  /\ (note (ix_ledger ix) = Some (buildTrustChainNote now f (asaMetadata m)) ->
      (reads_summary (summarise number_truthy ix) t
       <-> t = listed "asa" ix f (name_and_label m))).
Proof.
  intros Hf Hn Hm. unfold wf_file_metadata in Hm.
  apply andb_prop in Hm as [Hm Hl]. apply andb_prop in Hm as [Hname Hmime].
  split; intros Hnote.
  - apply (built_summary "proof" ix now f (proofMetadata m) m Hf Hn);
      [now apply MetadataFacts.proofMetadata_wf|exact Hnote| |discriminate].
    pose proof (marker_note_properties now f m) as H. cbv zeta in H |- *.
    destruct H as (H0 & _ & H1 & H2 & H3 & H4 & H5 & H6 & _). now split_and!.
  - apply (built_summary "asa" ix now f (asaMetadata m) (name_and_label m) Hf Hn);
      [now apply MetadataFacts.asaMetadata_wf|exact Hnote| |discriminate].
    pose proof (asset_note_properties now f m) as H. cbv zeta in H |- *.
    destruct H as (H0 & _ & H1 & H2 & H3 & H4 & H5 & H6 & _). now split_and!.
Qed.


Lemma Forall2_in_l {A B} (R : A -> B -> Prop) l l' x :
  Forall2 R l l' -> In x l -> exists y, In y l' /\ R x y.
Proof.
  induction 1 as [|a b l l' Hab _ IH]; [intros []|].
  intros [<-|Hx]; [exists b; split; [now left|assumption]|].
  destruct (IH Hx) as (y & Hy & Hr). exists y. split; [now right|assumption].
Qed.

Lemma str_or_null_idem o : str_or_null (str_or_null o) = str_or_null o.
Proof. unfold str_or_null. now destruct o as [[|c s]|]. Qed.

End WithPlatform.

Section WithWorld.
Context `{RT : Runtime} (number_truthy : jsstring -> bool) (W : World).


End WithWorld.

Lemma built_notes_are_listed_witness :
  reads_summary (summarise (fun _ => true) sample_indexed_marker)
    (listed "proof" sample_indexed_marker
       (computeSHA256 [x61; x62; x63]) sample_metadata).
Proof.
  refine (proj2 (proj1 (built_notes_are_listed (fun _ => true)
                          sample_indexed_marker sample_time
                          (computeSHA256 [x61; x62; x63]) sample_metadata _
                          _ _ _) _) eq_refl).
  - vm_compute. reflexivity.
  - reflexivity.
  - reflexivity.
  - reflexivity.
Defined.


End ListingFacts.

(** * The history: the fingerprints that are listed *)

Module FingerprintFacts.
Import Codec Backend Listing.

Section WithWorld.
Context `{RT : Runtime} (number_truthy : jsstring -> bool) (W : World).

Lemma note_property_string parsed k h :
  reads_string (note_property number_truthy parsed k) (Some h) ->
  get_prop parsed k = JStr h /\ h <> [].
Proof.
  unfold note_property.
  destruct (truthy number_truthy parsed && truthy number_truthy (get_prop parsed k))
    eqn:E; [|intros H; apply ListingFacts.reads_string_inv in H; discriminate].
  apply andb_prop in E as [_ E]. intros H.
  apply ListingFacts.reads_string_inv in H.
  destruct (get_prop parsed k) as [| | | |s| |]; try contradiction;
    try discriminate.
  injection H as ->. split; [reflexivity|]. now destruct s.
Qed.


(** X22.  What is verified is not always listed.  A transaction whose
    note is not a JSON text is summarised without fingerprint, kind and
    note, so that no typed reading of it is a marker or an asset of the
    reconstruction; the verify route all the same reads from it the
    leftmost run of 64 hexadecimal digits of its text. *)
Theorem unparsed_note_is_not_listed ix bs e :
  note (ix_ledger ix) = Some bs ->
  JSON_parse (utf8_decode bs) = Throw e ->
  s_hash (summarise number_truthy ix) = JNull
  /\ s_noteType (summarise number_truthy ix) = JNull
  /\ s_note (summarise number_truthy ix) = JNull
  /\ (forall t,
        reads_summary (summarise number_truthy ix) t ->
        History.is_proof_entry t = false /\ History.is_asset_entry t = false)
  /\ parseHashFromTransaction (Some (ix_ledger ix))
     = option_map (List.map ascii_lower) (match_hex64 (utf8_decode bs)).
Proof.
  intros Hnote Hparse.
  assert (parseNotePayload (Some (ix_ledger ix)) = JNull) as Hp.
  { unfold parseNotePayload, decodeNote. rewrite Hnote.
    destruct bs as [|b bs]; [reflexivity|].
    destruct (utf8_decode (b :: bs)); [reflexivity|]. now rewrite Hparse. }
  assert (s_hash (summarise number_truthy ix) = JNull) as Eh
      by (cbn [summarise s_hash]; now rewrite Hp).
  assert (s_noteType (summarise number_truthy ix) = JNull) as Et
      by (cbn [summarise s_noteType]; now rewrite Hp).
  split_and!; [exact Eh|exact Et|cbn [summarise s_note]; now rewrite Hp| |].
  - intros t [_ _ _ _ Rh Rt _ _]. rewrite Eh in Rh. rewrite Et in Rt.
    apply ListingFacts.reads_string_inv in Rh, Rt.
    unfold History.is_proof_entry, History.is_asset_entry, History.noteType_is.
    now rewrite Rt.
  - unfold parseHashFromTransaction. rewrite Hp.
    change (string_hash_of JNull) with (@None jsstring). cbn beta iota.
    unfold decodeNote. rewrite Hnote.
    destruct bs as [|b bs]; [reflexivity|].
    destruct (utf8_decode (b :: bs)) as [|c text] eqn:Ed; [reflexivity|].
    destruct (match_hex64 (c :: text)) as [m|] eqn:Em; [|reflexivity].
    cbn [option_map]. f_equal.
    destruct (ScanFacts.match_hex64_some _ _ Em) as (_ & Hhex & _).
    apply toLowerCase_ascii, CodecFacts.hex_digits_ascii, Hhex.
Qed.

End WithWorld.


Lemma unparsed_note_is_not_listed_witness :
  s_hash (summarise (fun _ => true) sample_indexed_text) = JNull
  /\ parseHashFromTransaction (RT := ascii_runtime)
       (Some (ix_ledger sample_indexed_text))
     = Some (str "ba7816bf8f01cfea414140de5dae2223b00361a396177a9cb410ff61f20015ad").
Proof.
  destruct (unparsed_note_is_not_listed (RT := ascii_runtime) (fun _ => true)
              sample_indexed_text
              (bytes_of_ascii
                 "sha256 BA7816BF8F01CFEA414140DE5DAE2223B00361A396177A9CB410FF61F20015AD of abc")
              SyntaxError)
    as (H1 & _ & _ & _ & H2).
  - reflexivity.
  - vm_compute. reflexivity.
  - split; [exact H1|]. rewrite H2. vm_compute. reflexivity.
Defined.

End FingerprintFacts.

(** * The addresses that the page tries *)

Module CandidateFacts.

Lemma unique_from_spec seen items :
  List.NoDup (unique_from seen items)
  /\ (forall x, In x (unique_from seen items) <-> In x items /\ ~ In x seen).
Proof.
  revert seen. induction items as [|y items IH]; intros seen.
  - split; [constructor|]. intros x. cbn. tauto.
  - cbn [unique_from].
    assert (existsb (str_eqb y) seen = true <-> In y seen) as Hseen.
    { rewrite existsb_exists. split.
      - intros (z & Hz & E). apply bool_decide_eq_true in E. now subst z.
      - intros H. exists y. split; [assumption|]. now apply bool_decide_eq_true. }
    destruct (existsb (str_eqb y) seen) eqn:E.
    + destruct (IH seen) as [IH1 IH2]. split; [assumption|].
      intros x. rewrite IH2. cbn [In]. split; [tauto|].
      intros [[<-|Hx] Hn]; [|tauto]. exfalso. apply Hn. now apply Hseen.
    + destruct (IH (y :: seen)) as [IH1 IH2]. split.
      * constructor; [|assumption]. rewrite IH2. cbn [In]. tauto.
      * intros x. cbn [In]. rewrite IH2. cbn [In].
        assert (~ In y seen) as Hy by (intros H; apply Hseen in H; discriminate).
        split.
        -- intros [<-|[Hx Hn]]; [tauto|]. tauto.
        -- intros [[<-|Hx] Hn]; [tauto|].
           destruct (decide (y = x)) as [->|Hne]; [tauto|]. right. tauto.
Qed.

Lemma unique_from_head seen x items :
  ~ In x seen ->
  unique_from seen (x :: items) = x :: unique_from (x :: seen) items.
Proof.
  intros H. cbn [unique_from].
  destruct (existsb (str_eqb x) seen) eqn:E; [|reflexivity].
  exfalso. apply H. apply existsb_exists in E as (z & Hz & E).
  apply bool_decide_eq_true in E. now subst z.
Qed.

(** X23.  The addresses that the page tries, in their order, have no
    repetition and none is empty; each ends with [/api] and is left as
    it is by the normalisation; the stored address, when it is not
    empty once normalised, comes first; and [/api] of the page's own
    origin is among them whenever the page has a host name. *)
Theorem getFallbackCandidates_spec hostname protocol current :
  let candidates := getFallbackCandidates hostname protocol current in
  List.NoDup candidates
  /\ (forall c, In c candidates ->
                c <> [] /\ ends_with (str "/api") c = true
                /\ normalizeApiBase c = c)
  /\ (normalizeApiBase current <> [] ->
      exists rest, candidates = normalizeApiBase current :: rest)
  /\ (hostname <> [] -> In (str "/api") candidates).
Proof.
  cbv zeta. unfold getFallbackCandidates.
  match goal with
  | |- context [List.map normalizeApiBase ?r] => set (raw := r)
  end.
  destruct (unique_from_spec [] (List.filter non_empty (List.map normalizeApiBase raw)))
    as [Hnodup Hin].
  split_and!.
  - exact Hnodup.
  - intros c Hc. apply Hin in Hc as [Hc _]. apply filter_In in Hc as [Hc Hne].
    apply in_map_iff in Hc as (v & <- & _).
    assert (normalizeApiBase v <> []) as Hn
        by (destruct (normalizeApiBase v); [discriminate|discriminate]).
    destruct (UrlFacts.normalized_result v Hn) as [H1 H2]. now split_and!.
  - intros Hcur.
    assert (current <> []) as Hc by (intros ->; now apply Hcur).
    unfold raw. destruct current as [|u cur]; [contradiction|].
    cbn [List.map List.filter].
    destruct (normalizeApiBase (u :: cur)) as [|a b] eqn:E; [contradiction|].
    cbn [non_empty]. rewrite unique_from_head by (intros []). now eexists.
  - intros Hhost. apply Hin. split; [|intros []].
    apply filter_In. split; [|reflexivity].
    change (str "/api") with (normalizeApiBase (str "/api")).
    apply in_map. unfold raw.
    destruct hostname as [|h host]; [contradiction|].
    destruct current; [|right]; apply in_or_app; right; now left.
Qed.

End CandidateFacts.

(** * The upload routes as they are registered *)

Module ServerFacts.
Import ProtocolFacts.

Section WithWorld.
Context `{RT : Runtime} (W : World).
Context (to_number : jsstring -> Server.jsnumber)
  (env_threshold : option jsstring) (maxFileSizeMb : jsstring).

Import Codec Backend Server.

Notation threshold :=
  (Server.issueMinRecommendedMicroAlgos to_number env_threshold).
Notation issue_body := (Server.issue_body W to_number env_threshold).
Notation issue_handler := (Server.issue_handler W to_number env_threshold).
Notation issue_route :=
  (Server.issue_route W to_number env_threshold maxFileSizeMb).
Notation verify_route := (Server.verify_route W maxFileSizeMb).
Notation issuer_status := (Server.issuer_status W to_number env_threshold).

(** For a number the two comparisons exclude each other; for NaN both
    are false. *)
Lemma below_at_least a t :
  t <> NaN -> below a t = negb (at_least a t).
Proof.
  destruct t as [|p|q]; [contradiction|now destruct p|]. intros _.
  unfold below, at_least.
  destruct (Z.ltb_spec (a * Z.pos (QArith_base.Qden q)) (QArith_base.Qnum q)),
           (Z.leb_spec (QArith_base.Qnum q) (a * Z.pos (QArith_base.Qden q)));
    try reflexivity; lia.
Qed.

Lemma handler_log req log :
  snd (issue_handler req log) = snd (issue_body req log).
Proof.
  unfold Server.issue_handler.
  destruct (issue_body req log) as [[out|e] log']; [reflexivity|].
  destruct (isInsufficientFundsError e); [|reflexivity].
  now destruct (getIssuerAddress W).
Qed.

Lemma handler_of_ok req log out log' :
  issue_body req log = (Ok out, log') -> issue_handler req log = (out, log').
Proof. intros H. unfold Server.issue_handler. now rewrite H. Qed.

Lemma handler_of_throw req log e log' :
  issue_body req log = (Throw e, log') ->
  issue_handler req log
  = (if isInsufficientFundsError e then
       match getIssuerAddress W with
       | Ok issuer =>
         Answer 400
           (ShortFees
              (str "Issuer wallet has insufficient TestNet ALGO balance to pay network fees.")
              issuer threshold testnetFundingUrl)
       | Throw e' => Thrown e'
       end
     else Handed e, log').
Proof.
  intros H. unfold Server.issue_handler. rewrite H.
  destruct (isInsufficientFundsError e); [|reflexivity].
  now destruct (getIssuerAddress W).
Qed.

Lemma body_early req log :
  valid_upload req = false \/ blank (env_ALGORAND_MNEMONIC W) = true ->
  exists msg, issue_body req log = (Ok (Answer 400 (Message msg)), log).
Proof.
  unfold valid_upload, Server.issue_body.
  destruct (file req) as [f|]; [|eexists; reflexivity].
  destruct (buffer f) as [fileBuffer|]; [|eexists; reflexivity].
  destruct (originalname f) as [|u name]; [eexists; reflexivity|].
  intros [H|H]; [discriminate|]. rewrite H. eexists; reflexivity.
Qed.

Lemma body_unconfigured req log e :
  valid_upload req = true -> blank (env_ALGORAND_MNEMONIC W) = false ->
  getIssuerAccount W = Throw e ->
  issue_body req log = (Throw e, log).
Proof.
  intros Hv Hb HA.
  destruct (IssueFacts.valid_upload_inv req Hv) as (f & fb & Hf & Hfb & Hn).
  unfold Server.issue_body. rewrite Hf, Hfb, Hb.
  destruct (originalname f); [contradiction|].
  run. now rewrite (fetch_state_unconfigured W e log HA).
Qed.

(** The run of the handler for a valid upload and a configured issuer:
    it stops after the balance query when the amount is below the
    threshold, and otherwise goes through the issuance. *)
Lemma body_run req log f fileBuffer issuer :
  file req = Some f -> buffer f = Some fileBuffer -> originalname f <> [] ->
  blank (env_ALGORAND_MNEMONIC W) = false ->
  getIssuerAccount W = Ok issuer ->
  exists r st,
    fetchIssuerAccountState W log
    = (r, log ++ [AccountInformationCall (addr issuer)])
    /\ match r with
       | Throw e =>
         issue_body req log
         = (Throw e, log ++ [AccountInformationCall (addr issuer)])
       | Ok st' =>
         st' = st /\ address st = addr issuer
         /\ if below (amount st) threshold then
              issue_body req log
              = (Ok (Answer 400
                       (ShortBalance insufficient_balance_message
                          (addr issuer) (amount st) threshold
                          testnetFundingUrl)),
                 log ++ [AccountInformationCall (addr issuer)])
            else
              exists r' rest,
                issue_body req log
                = (r', log ++ AccountInformationCall (addr issuer)
                           :: TransactionParamsCall :: rest)
                /\ forall out, r' = Ok out ->
                     exists p, out = Answer 201
                                       (Issued (str "Proof issued successfully") p)
       end.
Proof.
  intros Hf Hb Hname Hblank HA. unfold Server.issue_body.
  rewrite Hf, Hb, Hblank.
  destruct (originalname f) as [|u name] eqn:Hn; [contradiction|].
  rewrite <- Hn. clear Hname.
  run.
  destruct (fetch_state_calls W issuer log HA) as (r & Hfetch & Hst).
  rewrite Hfetch.
  destruct r as [st|e].
  2: { exists (Throw e), {| address := []; amount := 0; minBalance := 0;
                            spendable := 0 |}. now split. }
  specialize (Hst st eq_refl). exists (Ok st), st.
  split; [reflexivity|]. split; [reflexivity|]. split; [exact Hst|].
  cbn beta iota.
  destruct (below (amount st) threshold).
  { now rewrite Hst. }
  match goal with
  | |- context [createProofTransaction W ?h ?m ?l] =>
    destruct (RouteFacts.createProofTransaction_asks W issuer h m l HA)
      as (r1 & rest & ->)
  end.
  rewrite <- !app_assoc. cbn [app].
  destruct r1 as [pt|e]; [|exists (Throw e), rest; split; [reflexivity|discriminate]].
  match goal with
  | |- context [mintProofAsset W ?h ?m ?l] =>
    destruct (mintProofAsset_run W issuer h m l HA)
      as (r2 & c2 & sp2 & tx2 & -> & _)
  end.
  rewrite <- !app_assoc. cbn [app].
  destruct r2 as [a|e].
  - eexists (Ok _), (rest ++ c2). split; [reflexivity|].
    intros out [= <-]. eexists. reflexivity.
  - exists (Throw e), (rest ++ c2). split; [reflexivity|discriminate].
Qed.

(** With a threshold that is an integer, an upload that reaches the
    handler is treated as [Backend.issue] treats it. *)
Lemma issue_route_agrees req log :
  threshold
  = Finite (QArith_base.Qmake (Backend.issueMinRecommendedMicroAlgos W) 1) ->
  snd (issue_route (Parsed req) log)
  = snd (issue W req log)
  /\ match fst (issue W req log),
           fst (issue_route (Parsed req) log) with
     | Respond s (ErrorBody m), Answer s' (Message m') => s = s' /\ m = m'
     | Respond s (InsufficientBalanceBody m i a r u),
       Answer s' (ShortBalance m' i' a' r' u') =>
       s = s' /\ m = m' /\ i = i' /\ a = a'
       /\ r' = Finite (QArith_base.Qmake r 1) /\ u = u'
     | Respond s (InsufficientFeesBody m i r u),
       Answer s' (ShortFees m' i' r' u') =>
       s = s' /\ m = m' /\ i = i'
       /\ r' = Finite (QArith_base.Qmake r 1) /\ u = u'
     | Respond s (IssuedBody m p), Answer s' (Issued m' p') =>
       s = s' /\ m = m' /\ p = p'
     | Next e, Handed e' => e = e'
     | Escaped e, Thrown e' => e = e'
     | _, _ => False
     end.
Proof.
  intros Ht.
  unfold Server.issue_route, uploadSingleFile, Server.issue_handler, issue,
    Server.issue_body, Backend.issue_body.
  rewrite Ht. clear Ht.
  destruct (file req) as [f|]; [|now split_and!].
  destruct (buffer f) as [fileBuffer|]; [|now split_and!].
  destruct (originalname f) as [|u name] eqn:En; [now split_and!|].
  rewrite <- En.
  destruct (blank (env_ALGORAND_MNEMONIC W)); [now split_and!|].
  run.
  destruct (fetchIssuerAccountState W log) as [[st|e] l].
  2: { cbn beta iota.
       destruct (isInsufficientFundsError e); [|now split].
       destruct (getIssuerAddress W); now split_and!. }
  cbn beta iota. unfold below. cbn [QArith_base.Qnum QArith_base.Qden].
  rewrite Z.mul_1_r.
  destruct (amount st <? Backend.issueMinRecommendedMicroAlgos W);
    [now split_and!|].
  match goal with
  | |- context [createProofTransaction W ?h ?m ?l] =>
    destruct (createProofTransaction W h m l) as [[pt|e] l1]
  end.
  2: { cbn beta iota.
       destruct (isInsufficientFundsError e); [|now split].
       destruct (getIssuerAddress W); now split_and!. }
  cbn beta iota.
  match goal with
  | |- context [mintProofAsset W ?h ?m ?l] =>
    destruct (mintProofAsset W h m l) as [[a|e] l2]
  end.
  2: { cbn beta iota.
       destruct (isInsufficientFundsError e); [|now split].
       destruct (getIssuerAddress W); now split_and!. }
  cbn beta iota. now split_and!.
Qed.

(** So does the status route agree with [Routes.issuer_status]. *)
Lemma issuer_status_agrees log :
  threshold
  = Finite (QArith_base.Qmake (Backend.issueMinRecommendedMicroAlgos W) 1) ->
  snd (issuer_status log) = snd (Routes.issuer_status W log)
  /\ match fst (Routes.issuer_status W log), fst (issuer_status log) with
     | Routes.Reply (Routes.StatusBody a amt mb sp can r u err),
       Answer s (Status a' amt' mb' sp' can' r' u' err') =>
       s = 200 /\ a = a' /\ amt = amt' /\ mb = mb' /\ sp = sp' /\ can = can'
       /\ r' = Finite (QArith_base.Qmake r 1) /\ u = u' /\ err = err'
     | Routes.Forward e, Handed e' => e = e'
     | _, _ => False
     end.
Proof.
  intros Ht. unfold Server.issuer_status, Routes.issuer_status.
  rewrite Ht. clear Ht.
  destruct (fetchIssuerAccountState W log) as [[st|e] l].
  - cbn [fst snd]. unfold buildIssuerStatus, at_least.
    cbn [canIssue requiredForIssue fundingUrl QArith_base.Qnum
         QArith_base.Qden].
    rewrite Z.mul_1_r. now split_and!.
  - destruct (Routes.isMissingMnemonicError e); now split_and!.
Qed.

(** A request that reaches the handler is answered at once, with
    status 400 and a plain message, when the upload is not valid or
    the mnemonic is missing or blank. *)
Lemma handler_early req log :
  valid_upload req = false \/ blank (env_ALGORAND_MNEMONIC W) = true ->
  exists msg, issue_handler req log = (Answer 400 (Message msg), log).
Proof.
  intros H. destruct (body_early req log H) as [msg Hb].
  exists msg. now apply handler_of_ok.
Qed.

(** Otherwise the handler has no plain message for it. *)
Lemma handler_late req log :
  valid_upload req = true -> blank (env_ALGORAND_MNEMONIC W) = false ->
  match fst (issue_handler req log) with
  | Answer status (Issued _ _) => status = 201
  | Answer status (ShortBalance _ _ _ _ _) => status = 400
  | Answer status (ShortFees _ a _ _) =>
    status = 400 /\ getIssuerAddress W = Ok a
  | Answer _ _ => False
  | Handed e => isInsufficientFundsError e = false
  | Thrown e => getIssuerAddress W = Throw e
  end.
Proof.
  intros Hv Hb.
  assert (forall e log',
            issue_body req log = (Throw e, log') ->
            match fst (issue_handler req log) with
            | Answer status (Issued _ _) => status = 201
            | Answer status (ShortBalance _ _ _ _ _) => status = 400
            | Answer status (ShortFees _ a _ _) =>
              status = 400 /\ getIssuerAddress W = Ok a
            | Answer _ _ => False
            | Handed e => isInsufficientFundsError e = false
            | Thrown e => getIssuerAddress W = Throw e
            end) as Hthrow.
  { intros e l Hbody. rewrite (handler_of_throw _ _ _ _ Hbody). cbn [fst].
    destruct (isInsufficientFundsError e) eqn:E; [|exact E].
    now destruct (getIssuerAddress W). }
  destruct (getIssuerAccount W) as [issuer|e] eqn:HA.
  2: { exact (Hthrow e log (body_unconfigured req log e Hv Hb HA)). }
  destruct (IssueFacts.valid_upload_inv req Hv) as (f & fb & Hf & Hfb & Hn).
  destruct (body_run req log f fb issuer Hf Hfb Hn Hb HA)
    as (r & st & _ & Hrun).
  destruct r as [st'|e]; [|exact (Hthrow e _ Hrun)].
  destruct Hrun as (_ & _ & Hrun).
  destruct (below (amount st) threshold).
  { now rewrite (handler_of_ok _ _ _ _ Hrun). }
  destruct Hrun as ([out|e] & rest & Hbody & Hout); [|exact (Hthrow e _ Hbody)].
  rewrite (handler_of_ok _ _ _ _ Hbody). cbn [fst].
  now destruct (Hout out eq_refl) as [p ->].
Qed.

(** X2.  The issue route, as it is registered after the upload
    middleware, answers with a plain error message exactly when multer
    reported an error of its own, or the upload that reached the
    handler is not valid (no file, no content, or an empty name), or
    the mnemonic is missing or blank.  Such an answer comes before any
    call; its status is 413 for a file over the size limit, with the
    message about the limit, and 400 in every other case, with
    multer's message for an error of multer. *)
Theorem issue_route_refusal u log :
  (match u with
   | Parsed req =>
     valid_upload req = false \/ blank (env_ALGORAND_MNEMONIC W) = true
   | MulterError _ _ => True
   | UploadError _ => False
   end
   <-> exists status msg,
         fst (issue_route u log) = Answer status (Message msg))
  /\ forall status msg,
       fst (issue_route u log) = Answer status (Message msg) ->
       snd (issue_route u log) = log
       /\ status = (if is_oversize u then 413 else 400)
       /\ forall code message,
            u = MulterError code message ->
            msg = if is_oversize u
                  then str "File exceeds the " ++ maxFileSizeMb
                       ++ str "MB size limit"
                  else message.
Proof.
  destruct u as [req|code m|e]; unfold Server.issue_route, uploadSingleFile;
    cbn [is_oversize].
  - assert (forall status msg,
              fst (issue_handler req log) = Answer status (Message msg) ->
              valid_upload req = false
              \/ blank (env_ALGORAND_MNEMONIC W) = true) as Hlate.
    { intros status msg H.
      destruct (valid_upload req) eqn:Hv; [|now left].
      destruct (blank (env_ALGORAND_MNEMONIC W)) eqn:Hb; [now right|].
      exfalso. pose proof (handler_late req log Hv Hb) as Hl.
      now rewrite H in Hl. }
    split; [split|].
    + intros H. destruct (handler_early req log H) as [msg E].
      exists 400, msg. now rewrite E.
    + intros (status & msg & H). eapply Hlate, H.
    + intros status msg H.
      destruct (handler_early req log (Hlate status msg H)) as [msg' E].
      rewrite E in H |- *. cbn [fst snd] in *.
      injection H as <- _. split_and!; [reflexivity|reflexivity|discriminate].
  - destruct (str_eqb code (str "LIMIT_FILE_SIZE")); cbn [fst snd].
    + split; [split; [eexists _, _; reflexivity|trivial]|].
      intros status msg [= <- <-]. split_and!; reflexivity.
    + split; [split; [eexists _, _; reflexivity|trivial]|].
      intros status msg [= <- <-]. split_and!; [reflexivity|reflexivity|].
      now intros c m' [= _ <-].
  - cbn [fst snd]. split; [split; [contradiction|]|].
    + intros (status & msg & [=]).
    + intros status msg [=].
Qed.

(** X6.  With a mnemonic that can be read, the issue route always
    answers or hands an error on: nothing is thrown out of its [catch]
    block.  Its statuses are 201 (a proof, only for an upload that
    reached the handler), 413 (a plain message, exactly for a file
    over the size limit) and 400; an error that it hands on is the
    error of the upload itself or one of the handler that does not
    speak of an overspend, and an answer about the fees names the
    issuer. *)
Theorem issue_route_answers issuer u log :
  getIssuerAccount W = Ok issuer ->
  match fst (issue_route u log) with
  | Answer status (Issued _ _) => status = 201 /\ exists req, u = Parsed req
  | Answer status (ShortFees _ a _ _) =>
    status = 400 /\ a = addr issuer /\ exists req, u = Parsed req
  | Answer status (ShortBalance _ _ _ _ _) =>
    status = 400 /\ exists req, u = Parsed req
  | Answer status (Message _) =>
    status = if is_oversize u then 413 else 400
  | Answer _ (Status _ _ _ _ _ _ _ _) => False
  | Handed e =>
    u = UploadError e
    \/ (exists req, u = Parsed req) /\ isInsufficientFundsError e = false
  | Thrown _ => False
  end.
Proof.
  intros HA.
  destruct u as [req|code m|e]; unfold Server.issue_route, uploadSingleFile;
    cbn [is_oversize].
  - destruct (valid_upload req) eqn:Hv.
    2: { destruct (handler_early req log (or_introl Hv)) as [msg ->].
         reflexivity. }
    destruct (blank (env_ALGORAND_MNEMONIC W)) eqn:Hb.
    { destruct (handler_early req log (or_intror Hb)) as [msg ->].
      reflexivity. }
    pose proof (handler_late req log Hv Hb) as Hl.
    unfold getIssuerAddress in Hl. rewrite HA in Hl.
    destruct (fst (issue_handler req log)) as [status [| | | |]|e|e];
      try contradiction.
    + split; [exact Hl|now exists req].
    + destruct Hl as [-> [= <-]]. split_and!; try reflexivity. now exists req.
    + split; [exact Hl|now exists req].
    + right. split; [now exists req|exact Hl].
    + discriminate Hl.
  - now destruct (str_eqb code (str "LIMIT_FILE_SIZE")).
  - now left.
Qed.

(** X10.  Without a mnemonic (missing or blank) the issuer route, the
    status route and the issue route ask the ledger nothing.  The
    issuer route and the status route answer with the configuration
    error, the status with an empty balance that cannot issue and the
    threshold as it is configured.  The issue route leaves the log as
    it is whatever the upload: it refuses every upload that reaches
    its handler with status 400, a file over the size limit with
    status 413 and another error of multer with status 400 and
    multer's message, and it hands on any other error of the
    upload. *)
Theorem unconfigured_routes u log :
  blank (env_ALGORAND_MNEMONIC W) = true ->
  Routes.issuer W
  = Routes.Reply (Routes.IssuerBody None (message missing_mnemonic))
  /\ issuer_status log
     = (Answer 200
          (Status None 0 0 0 false threshold testnetFundingUrl
             (message missing_mnemonic)), log)
  /\ snd (issue_route u log) = log
  /\ match u with
     | Parsed req =>
       exists msg, fst (issue_route u log) = Answer 400 (Message msg)
     | MulterError code message =>
       fst (issue_route u log)
       = if str_eqb code (str "LIMIT_FILE_SIZE")
         then Answer 413 (Message (str "File exceeds the " ++ maxFileSizeMb
                                   ++ str "MB size limit"))
         else Answer 400 (Message message)
     | UploadError e => fst (issue_route u log) = Handed e
     end.
Proof.
  intros Hb. pose proof (RouteFacts.blank_means_missing W Hb) as HA.
  split_and!.
  - unfold Routes.issuer, getIssuerAddress. rewrite HA.
    now rewrite RouteFacts.missing_mnemonic_is_missing.
  - unfold Server.issuer_status.
    rewrite (fetch_state_unconfigured W _ log HA).
    now rewrite RouteFacts.missing_mnemonic_is_missing.
  - destruct u as [req|code m|e]; unfold Server.issue_route, uploadSingleFile.
    + now destruct (handler_early req log (or_intror Hb)) as [msg ->].
    + now destruct (str_eqb code (str "LIMIT_FILE_SIZE")).
    + reflexivity.
  - destruct u as [req|code m|e]; unfold Server.issue_route, uploadSingleFile.
    + destruct (handler_early req log (or_intror Hb)) as [msg ->].
      now exists msg.
    + now destruct (str_eqb code (str "LIMIT_FILE_SIZE")).
    + reflexivity.
Qed.



End WithWorld.

Lemma issue_route_answers_witness :
  match fst (Server.issue_route (RT := ascii_runtime)
               (sample_world 500000 100000 None) no_number None (str "10")
               sample_oversize []) with
  | Server.Answer status (Server.Issued _ _) =>
    status = 201 /\ exists req, sample_oversize = Server.Parsed req
  | Server.Answer status (Server.ShortFees _ a _ _) =>
    status = 400 /\ a = addr sample_account
    /\ exists req, sample_oversize = Server.Parsed req
  | Server.Answer status (Server.ShortBalance _ _ _ _ _) =>
    status = 400 /\ exists req, sample_oversize = Server.Parsed req
  | Server.Answer status (Server.Message _) =>
    status = if Server.is_oversize sample_oversize then 413 else 400
  | Server.Answer _ (Server.Status _ _ _ _ _ _ _ _) => False
  | Server.Handed e =>
    sample_oversize = Server.UploadError e
    \/ (exists req, sample_oversize = Server.Parsed req)
       /\ Backend.isInsufficientFundsError (RT := ascii_runtime) e = false
  | Server.Thrown _ => False
  end.
Proof.
  apply (issue_route_answers (RT := ascii_runtime)
           (sample_world 500000 100000 None) no_number None (str "10")
           sample_account).
  reflexivity.
Defined.

Lemma unconfigured_routes_witness :
  Server.issue_route (RT := ascii_runtime) blank_world no_number None
    (str "10") sample_oversize []
  = (Server.Answer 413
       (Server.Message (str "File exceeds the 10MB size limit")), []).
Proof.
  destruct (unconfigured_routes (RT := ascii_runtime) blank_world no_number
              None (str "10") sample_oversize []) as (_ & _ & H3 & H4).
  - reflexivity.
  - rewrite (surjective_pairing (Server.issue_route _ _ _ _ _ _)).
    rewrite H3, H4. reflexivity.
Defined.


End ServerFacts.
